(** * Code2Concept backend: a shallow embedding of [backend/server.js]

    The development follows the layout of the server file: string helpers
    and response cleaning, the filesystem the server works on, the helpers
    [deleteDirectory] and [findVideoFile], the two process wrappers
    [generateAudio] and [combineVideoAndAudio], and the request handler of
    [POST /api/getAnimation]; then the directories created at the start,
    the two cleanup routes and [POST /api/analyze].

    JavaScript strings are modelled as [string]; every character stands for
    one UTF-16 code unit below 256. *)

From Stdlib Require Import String Ascii ZArith Lia List Bool.
From stdpp Require Import base option list strings gmap pretty.
Import ListNotations.

Local Open Scope string_scope.
Local Open Scope list_scope.

(** ** JavaScript string primitives *)

Module Js.

(** The line feed, written [\n] in the source. *)
Definition LF : ascii := "010"%char.
Definition nl : string := String LF "".

(** [s.startsWith(p)]. *)
Fixpoint startsWith (p s : string) : bool :=
  match p, s with
  | "", _ => true
  | String a p', String b s' => if Ascii.eqb a b then startsWith p' s' else false
  | String _ _, "" => false
  end.

(** [s.slice(n)] for [0 <= n]. *)
Fixpoint slice (n : nat) (s : string) : string :=
  match n, s with
  | 0, _ => s
  | S n', String _ s' => slice n' s'
  | S _, "" => ""
  end.

(** [s.endsWith(suf)]: some tail of [s] is [suf]. *)
Fixpoint endsWith (suf s : string) : bool :=
  String.eqb s suf ||
  match s with
  | "" => false
  | String _ s' => endsWith suf s'
  end.

(** [s.includes(p)]. *)
Fixpoint includes (p s : string) : bool :=
  startsWith p s ||
  match s with
  | "" => false
  | String _ s' => includes p s'
  end.

(** [s.replace(p, '')] with a string pattern: only the first occurrence
    of [p] is removed. *)
Fixpoint replaceFirst (p s : string) : string :=
  if startsWith p s then slice (String.length p) s
  else match s with
       | "" => ""
       | String c s' => String c (replaceFirst p s')
       end.

(** The optional [\n?] that ends both fence patterns. *)
Definition skipLF (s : string) : string :=
  match s with
  | String c s' => if Ascii.eqb c LF then s' else s
  | "" => ""
  end.

(** [s.replace(/<lit>\n?/g, '')]: the scan goes left to right; at a match
    the literal and one following line feed (when present) are dropped and
    the scan resumes behind them.  The fuel bounds the number of steps. *)
Fixpoint replaceAllFuel (fuel : nat) (lit s : string) : string :=
  match fuel with
  | 0 => s
  | S fuel' =>
      if startsWith lit s
      then replaceAllFuel fuel' lit (skipLF (slice (String.length lit) s))
      else match s with
           | "" => ""
           | String c s' => String c (replaceAllFuel fuel' lit s')
           end
  end.

Definition replaceAll (lit s : string) : string :=
  replaceAllFuel (String.length s) lit s.

(** White space in the sense of [String.prototype.trim], for code units
    below 256: TAB, LF, VT, FF, CR, SPACE and NBSP. *)
Definition isWhiteSpace (c : ascii) : bool :=
  match nat_of_ascii c with
  | 9 | 10 | 11 | 12 | 13 | 32 | 160 => true
  | _ => false
  end.

Fixpoint trimStart (s : string) : string :=
  match s with
  | "" => ""
  | String c s' => if isWhiteSpace c then trimStart s' else s
  end.

Fixpoint trimEnd (s : string) : string :=
  match s with
  | "" => ""
  | String c s' =>
      match trimEnd s' with
      | "" => if isWhiteSpace c then "" else String c ""
      | t => String c t
      end
  end.

(** [s.trim()]. *)
Definition trim (s : string) : string := trimEnd (trimStart s).

End Js.

(** ** Cleaning of model responses *)

Definition fence : string := "```".

(** [cleanJsonResponse(text)]. *)
Definition cleanJsonResponse (text : string) : string :=
  let text := Js.replaceAll (fence +:+ "json") text in
  let text := Js.replaceAll fence text in
  let text := Js.trim text in
  text.

(** [cleanPythonResponse(text)]. *)
Definition cleanPythonResponse (text : string) : string :=
  let text := Js.replaceAll (fence +:+ "python") text in
  let text := Js.replaceAll fence text in
  let text := Js.trim text in
  text.


(** ** The filesystem

    Paths are kept as their list of segments, relative to [__dirname]:
    [path.join(dir, name)] is [dir ++ [name]] and [path.basename] is the
    last segment.  A directory lists its entries in the order in which
    [readdirSync] returns them.  File contents are not tracked. *)

Definition path := list string.

Definition path_str (p : path) : string := String.concat "/" p.

(** [path.basename(p)]. *)
Definition basename (p : path) : string := List.last p "".

(** What a path can lead to: a regular file, a directory, or something
    that is neither (a socket, a device). *)
#[warnings="-register-all"] Inductive node : Type :=
  | File : node
  | Dir : list (string * node) -> node
  | Special : node.

Module Fs.

Definition entry (name : string) (es : list (string * node)) : option node :=
  snd <$> List.find (fun e => String.eqb (fst e) name) es.

Fixpoint lookup (p : path) (n : node) {struct p} : option node :=
  match p with
  | [] => Some n
  | x :: p' =>
      match n with
      | Dir es => match entry x es with
                  | Some c => lookup p' c
                  | None => None
                  end
      | _ => None
      end
  end.

Definition without (name : string) (es : list (string * node)) :=
  List.filter (fun e => negb (String.eqb (fst e) name)) es.

(** Setting an entry keeps its place in the listing; a new entry goes to
    the end. *)
Fixpoint set_entry (name : string) (v : node) (es : list (string * node))
  : list (string * node) :=
  match es with
  | [] => [(name, v)]
  | e :: es' => if String.eqb (fst e) name then (name, v) :: es'
                else e :: set_entry name v es'
  end.

(** The tree without the entry at [p], with everything below it. *)
Fixpoint remove (p : path) (n : node) {struct p} : node :=
  match p, n with
  | [], _ => n
  | [x], Dir es => Dir (without x es)
  | x :: p', Dir es =>
      Dir (List.map (fun e => if String.eqb (fst e) x
                              then (fst e, remove p' (snd e)) else e) es)
  | _ :: _, _ => n
  end.

(** The tree without the entries [qs] below [p], each given relative to
    [p]; [p] itself stays. *)
Definition prune (p : path) (qs : list path) (n : node) : node :=
  List.fold_left (fun n' q => match q with
                              | [] => n'
                              | _ :: _ => remove (p ++ q) n'
                              end) qs n.

(** The tree with [v] at [p]; the parent has to be a directory. *)
Fixpoint put (p : path) (v : node) (n : node) {struct p} : option node :=
  match p, n with
  | [], _ => None
  | [x], Dir es => Some (Dir (set_entry x v es))
  | x :: p', Dir es =>
      match entry x es with
      | Some c => match put p' v c with
                  | Some c' => Some (Dir (set_entry x c' es))
                  | None => None
                  end
      | None => None
      end
  | _ :: _, _ => None
  end.

(** [mkdir -p]: missing directories along [p] are created; a segment that
    exists and is not a directory is an error. *)
Fixpoint mkdirp (p : path) (n : node) {struct p} : option node :=
  match n with
  | Dir es =>
      match p with
      | [] => Some n
      | x :: p' =>
          match mkdirp p' (default (Dir []) (entry x es)) with
          | Some c' => Some (Dir (set_entry x c' es))
          | None => None
          end
      end
  | _ => None
  end.

Definition present (p : path) (n : node) : bool :=
  match lookup p n with Some _ => true | None => false end.

Fixpoint height (n : node) : nat :=
  match n with
  | Dir es => S (List.fold_right (fun e h => Nat.max (height (snd e)) h) 0 es)
  | _ => 0
  end.

End Fs.

(** ** Values, processes and the environment of a request *)

(** The message of a thrown [Error]. *)
Definition error := string.

(** How a statement ends. *)
Inductive completion (A : Type) : Type :=
  | Normal (a : A)
  | Throw (e : error).
Arguments Normal {A} a.
Arguments Throw {A} e.

(** What a child process reports: the ['error'] event when it could not be
    started, otherwise the ['close'] event with the exit code ([null] when a
    signal ended it) and everything read from its stdout and stderr.  Node
    emits ['close'] after ['error'] as well, with a code that is not [0] and
    nothing read from the streams.  For the speech process that second
    event removes the script file and is part of [onSpeechExit].  For
    [ffmpeg] it writes one more line to the console and rejects a promise
    that is settled; for the renderer it arrives after the answer was sent.
    These two are not modelled. *)
Inductive proc_outcome : Type :=
  | SpawnError (message : string)
  | Closed (code : option Z) (output errorOutput : string).

(** JSON values as far as the handler looks at them. *)
Inductive jsval : Type :=
  | JUndefined
  | JNull
  | JBool (b : bool)
  | JNum (n : Z)
  | JStr (s : string)
  | JObject.

Definition truthy (v : jsval) : bool :=
  match v with
  | JUndefined | JNull => false
  | JBool b => b
  | JNum n => negb (n =? 0)%Z
  | JStr s => negb (String.eqb s "")
  | JObject => true
  end.

(** [a || b]. *)
Definition js_or (a b : jsval) : jsval := if truthy a then a else b.

(** [obj.key]: a missing key reads as [undefined]. *)
Definition get (obj : gmap string jsval) (key : string) : jsval :=
  default JUndefined (obj !! key).

(** The prompts sent to the model, by the data interpolated into them. *)
Inductive prompt : Type :=
  | NarrationPrompt (code : jsval)
  | ManimPrompt (narrationSteps : list string) (code : jsval).

Inductive fsop : Type := OpRm | OpUnlink | OpMkdir | OpWrite | OpReaddir.

Inductive event : Type :=
  | Log (msg : string)
  | LogError (msg : string)
  | Asked (p : prompt)
  | Spawned (cmd : string) (args : list string) (cwd : option path)
            (outcome : proc_outcome).

(** Everything outside the server that a request depends on. *)
Record Env : Type := {
  (** the identifier [uuidv4()] hands out *)
  uuidv4 : string;
  (** [model.generateContent(prompt)] followed by [response.text()] *)
  generateContent : prompt -> completion string;
  (** [JSON.parse] of a narration reply, taken to be an array of strings
      when it parses *)
  JSON_parse : string -> completion (list string);
  (** a child process: its report and the disk it leaves behind *)
  spawn : string -> list string -> option path -> node -> proc_outcome * node;
  (** filesystem calls that fail for reasons outside the tree
      (permissions, busy files), with the message raised *)
  faults : fsop -> path -> option error;
  (** a recursive removal that raises has gone through part of the tree:
      the entries below the path, relative to it, that are gone by then,
      on the given disk *)
  partlyRemoved : path -> node -> list path
}.

(** ** Computations over the disk *)

Record Run (A : Type) : Type := {
  result : completion A;
  disk_after : node;
  events : list event
}.
Arguments result {A} _.
Arguments disk_after {A} _.
Arguments events {A} _.

Definition M (A : Type) : Type := node -> Run A.

Definition ret {A} (a : A) : M A :=
  fun d => {| result := Normal a; disk_after := d; events := [] |}.

Definition throw {A} (e : error) : M A :=
  fun d => {| result := Throw e; disk_after := d; events := [] |}.

Definition bind {A B} (c : M A) (k : A -> M B) : M B :=
  fun d =>
    let r := c d in
    match result r with
    | Normal a =>
        let r' := k a (disk_after r) in
        {| result := result r'; disk_after := disk_after r';
           events := events r ++ events r' |}
    | Throw e =>
        {| result := Throw e; disk_after := disk_after r; events := events r |}
    end.

(** [try { c } catch (error) { h error }]. *)
Definition try_catch {A} (c : M A) (h : error -> M A) : M A :=
  fun d =>
    let r := c d in
    match result r with
    | Normal a => r
    | Throw e =>
        let r' := h e (disk_after r) in
        {| result := result r'; disk_after := disk_after r';
           events := events r ++ events r' |}
    end.

(** A stretch of a [try] block: [c] runs; when it throws, the [catch]
    block [h] answers, otherwise the block goes on with [k]. *)
Definition guarded {A B} (c : M A) (h : error -> M B) (k : A -> M B) : M B :=
  fun d =>
    let r := c d in
    let r' := match result r with
              | Normal a => k a (disk_after r)
              | Throw e => h e (disk_after r)
              end in
    {| result := result r'; disk_after := disk_after r';
       events := events r ++ events r' |}.

Definition emit (e : event) : M unit :=
  fun d => {| result := Normal tt; disk_after := d; events := [e] |}.

Declare Scope js_scope.
Delimit Scope js_scope with js.
Notation "x <- c ;; k" := (bind c (fun x => k))
  (at level 100, c at next level, k at level 200, right associativity) : js_scope.
Notation "c ;;; k" := (bind c (fun _ => k))
  (at level 100, k at level 200, right associativity) : js_scope.
Local Open Scope js_scope.

Definition console_log (msg : string) : M unit := emit (Log msg).
Definition console_error (msg : string) : M unit := emit (LogError msg).

(** ** The [fs] calls the server makes *)

Record Dirent : Type := { name : string; isFile : bool; isDirectory : bool }.

Definition dirent_of (e : string * node) : Dirent :=
  {| name := fst e;
     isFile := match snd e with File => true | _ => false end;
     isDirectory := match snd e with Dir _ => true | _ => false end |}.

Definition ENOENT : error := "ENOENT: no such file or directory".
Definition ENOTDIR : error := "ENOTDIR: not a directory".
Definition EISDIR : error := "EISDIR: illegal operation on a directory".
Definition EEXIST : error := "EEXIST: file already exists".

Definition setDisk (d : node) : M unit :=
  fun _ => {| result := Normal tt; disk_after := d; events := [] |}.

Definition getDisk : M node :=
  fun d => {| result := Normal d; disk_after := d; events := [] |}.

(** [fs.existsSync(p)] never throws. *)
Definition existsSync (p : path) : M bool :=
  d <- getDisk ;; ret (Fs.present p d).

(** A call on a single entry that the environment lets fail raises before
    touching the disk. *)
Definition checkFault (env : Env) (op : fsop) (p : path) : M unit :=
  match faults env op p with
  | Some e => throw e
  | None => ret tt
  end.

(** [fs.rmSync(p, { recursive: true, force: true })]: a missing path is
    not an error.  The removal goes through the tree entry by entry and
    takes [p] itself last, so a call that raises leaves [p] in place and
    may have removed entries below it. *)
Definition rmSync (env : Env) (p : path) : M unit :=
  d <- getDisk ;;
  match faults env OpRm p with
  | Some e => setDisk (Fs.prune p (partlyRemoved env p d) d) ;;; throw e
  | None => setDisk (Fs.remove p d)
  end.

(** [fs.unlinkSync(p)]. *)
Definition unlinkSync (env : Env) (p : path) : M unit :=
  checkFault env OpUnlink p ;;;
  d <- getDisk ;;
  match Fs.lookup p d with
  | None => throw ENOENT
  | Some (Dir _) => throw EISDIR
  | Some _ => setDisk (Fs.remove p d)
  end.

(** [fs.mkdirSync(p, { recursive: true })]. *)
Definition mkdirSync (env : Env) (p : path) : M unit :=
  checkFault env OpMkdir p ;;;
  d <- getDisk ;;
  match Fs.mkdirp p d with
  | Some d' => setDisk d'
  | None => throw EEXIST
  end.

(** [fs.writeFileSync(p, data)]. *)
Definition writeFileSync (env : Env) (p : path) : M unit :=
  checkFault env OpWrite p ;;;
  d <- getDisk ;;
  match Fs.lookup p d with
  | Some (Dir _) => throw EISDIR
  | _ => match Fs.put p File d with
         | Some d' => setDisk d'
         | None => throw ENOENT
         end
  end.

(** [fs.readdirSync(p, { withFileTypes: true })]. *)
Definition readdirSync (env : Env) (p : path) : M (list Dirent) :=
  checkFault env OpReaddir p ;;;
  d <- getDisk ;;
  match Fs.lookup p d with
  | Some (Dir es) => ret (List.map dirent_of es)
  | Some _ => throw ENOTDIR
  | None => throw ENOENT
  end.

(** [spawn(cmd, args, { cwd })], awaited up to its ['close'] or ['error']
    event. *)
Definition spawnProcess (env : Env) (cmd : string) (args : list string)
    (cwd : option path) : M proc_outcome :=
  fun d =>
    let '(outcome, d') := spawn env cmd args cwd d in
    {| result := Normal outcome; disk_after := d';
       events := [Spawned cmd args cwd outcome] |}.

(** ** Server helpers *)

Definition rendersDir : path := ["renders"].
Definition videosDir : path := ["videos"].
Definition audioDir : path := ["audio"].

(** [deleteDirectory(dirPath)]. *)
Definition deleteDirectory (env : Env) (dirPath : path) : M unit :=
  try_catch
    (ex <- existsSync dirPath ;;
     if ex then
       rmSync env dirPath ;;;
       console_log ("Successfully deleted directory: " +:+ path_str dirPath)
     else ret tt)
    (fun error =>
       console_error ("Error deleting directory " +:+ path_str dirPath
                      +:+ ": " +:+ error)).

Definition isVideo (item : Dirent) : bool :=
  isFile item && Js.endsWith ".mp4" (name item).

(** The second loop of [findVideoFile]: the subdirectories in listing
    order, up to the first one in which [search] finds something. *)
Fixpoint searchSubdirs (search : path -> M (option path)) (dir : path)
    (items : list Dirent) : M (option path) :=
  match items with
  | [] => ret None
  | item :: rest =>
      if isDirectory item then
        found <- search (dir ++ [name item]) ;;
        match found with
        | Some p => ret (Some p)
        | None => searchSubdirs search dir rest
        end
      else searchSubdirs search dir rest
  end.

Definition stackOverflow : error :=
  "RangeError: Maximum call stack size exceeded".

(** The body of [findVideoFile(dir)], with a bound on the depth of the
    recursion; a call beyond the bound raises in the caller's [try]. *)
Fixpoint findVideoFileFuel (fuel : nat) (env : Env) (dir : path)
  : M (option path) :=
  match fuel with
  | 0 => throw stackOverflow
  | S fuel' =>
      try_catch
        (ex <- existsSync dir ;;
         if negb ex then ret None
         else
           items <- readdirSync env dir ;;
           match List.find isVideo items with
           | Some item => ret (Some (dir ++ [name item]))
           | None => searchSubdirs (findVideoFileFuel fuel' env) dir items
           end)
        (fun error =>
           console_error ("Error finding video file: " +:+ error) ;;;
           ret None)
  end.

(** [findVideoFile(dir)]: the bound is above the height of the tree, so
    the walk never reaches it. *)
Definition findVideoFile (env : Env) (dir : path) : M (option path) :=
  fun d => findVideoFileFuel (S (Fs.height d)) env dir d.

(** ** Calls to the model *)

(** [await model.generateContent(prompt)] and [response.text()]. *)
Definition askModel (env : Env) (p : prompt) : M string :=
  emit (Asked p) ;;;
  match generateContent env p with
  | Normal text => ret text
  | Throw e => throw e
  end.

Definition parseSteps (env : Env) (text : string) : M (list string) :=
  match JSON_parse env text with
  | Normal steps => ret steps
  | Throw e => throw e
  end.

(** [generateNarrationSteps(code)].  Objects printed after a log message
    are left out of the message. *)
Definition generateNarrationSteps (env : Env) (code : jsval)
  : M (list string) :=
  try_catch
    (text <- askModel env (NarrationPrompt code) ;;
     let cleanedText := cleanJsonResponse text in
     steps <- parseSteps env cleanedText ;;
     console_log "Generated narration steps:" ;;;
     ret steps)
    (fun error =>
       console_error ("Error generating narration steps: " +:+ error) ;;;
       throw error).

(** [generateManimScript(code, narrationSteps)], returning
    [{ scriptId, scriptContent }]. *)
Definition generateManimScript (env : Env) (code : jsval)
    (narrationSteps : list string) : M (string * string) :=
  let scriptId := uuidv4 env in
  try_catch
    (text <- askModel env (ManimPrompt narrationSteps code) ;;
     let scriptContent := cleanPythonResponse text in
     ret (scriptId, scriptContent))
    (fun error =>
       console_error ("Error generating Manim script: " +:+ error) ;;;
       throw error).

(** ** The process wrappers *)

Definition showCode (code : option Z) : string :=
  match code with
  | Some z => pretty z
  | None => "null"
  end.

(** [code === 0]. *)
Definition isZero (code : option Z) : bool :=
  match code with
  | Some z => (z =? 0)%Z
  | None => false
  end.

Definition audioFileOf (audioId : string) : path :=
  audioDir ++ [audioId +:+ ".wav"].

Definition scriptFileOf (audioId : string) : path :=
  audioDir ++ [audioId +:+ "_script.py"].

(** The ['close'] and ['error'] handlers of the speech process inside
    [generateAudio].  When the process cannot be started the ['error']
    handler rejects the promise, and the ['close'] that Node emits afterwards
    runs the ['close'] handler with a code that is not [0] and an empty
    [errorOutput]: it removes the script file and logs, and its [reject]
    finds the promise settled.  That handler runs once the streams of the
    child are closed, which can be after the code awaiting the promise went
    on; it touches the script file only, which nothing else reads or
    writes, so the model runs it here and only the place of its log lines
    in [events] can differ from the console. *)
Definition onSpeechExit (env : Env) (scriptPath audioFilePath : path)
    (outcome : proc_outcome) : M path :=
  match outcome with
  | Closed code output errorOutput =>
      try_catch (unlinkSync env scriptPath)
        (fun err => console_error ("Error cleaning up script file: " +:+ err)) ;;;
      ok <- (if isZero code then existsSync audioFilePath else ret false) ;;
      if ok then
        console_log "Audio generated successfully" ;;;
        ret audioFilePath
      else
        console_error ("Audio generation failed: " +:+ errorOutput) ;;;
        throw ("Audio generation failed: " +:+ errorOutput)
  | SpawnError message =>
      try_catch (unlinkSync env scriptPath)
        (fun err => console_error ("Error cleaning up script file: " +:+ err)) ;;;
      console_error ("Audio generation failed: " +:+ "") ;;;
      throw ("Failed to start audio generation: " +:+ message)
  end.

(** [generateAudio(narrationSteps, audioId)].  The [try] of the source
    covers the statements up to the creation of the promise; a rejection of
    the promise is not caught by it. *)
Definition generateAudio (env : Env) (narrationSteps : list string)
    (audioId : string) : M path :=
  let audioFilePath := audioFileOf audioId in
  let fullNarration := String.concat ". " narrationSteps in
  let scriptPath := scriptFileOf audioId in
  started <-
    try_catch
      (console_log ("Generating audio for narration: "
                    +:+ String.substring 0 100 fullNarration +:+ "...") ;;;
       writeFileSync env scriptPath ;;;
       spawnProcess env "python" [path_str scriptPath] None)
      (fun error =>
         console_error ("Error in generateAudio: " +:+ error) ;;;
         throw error) ;;
  onSpeechExit env scriptPath audioFilePath started.

Definition ffmpegArgs (videoPath audioPath outputPath : path) : list string :=
  [ "-i"; path_str videoPath;
    "-i"; path_str audioPath;
    "-c:v"; "copy";
    "-c:a"; "aac";
    "-shortest";
    "-y";
    path_str outputPath ].

(** [combineVideoAndAudio(videoPath, audioPath, outputPath)]. *)
Definition combineVideoAndAudio (env : Env)
    (videoPath audioPath outputPath : path) : M path :=
  ended <- spawnProcess env "ffmpeg"
             (ffmpegArgs videoPath audioPath outputPath) None ;;
  match ended with
  | Closed code output errorOutput =>
      if isZero code then
        console_log "Video and audio combined successfully" ;;;
        ret outputPath
      else
        console_error ("FFmpeg failed: " +:+ errorOutput) ;;;
        throw ("FFmpeg failed with code " +:+ showCode code +:+ ": "
               +:+ errorOutput)
  | SpawnError message => throw ("Failed to start FFmpeg: " +:+ message)
  end.

(** ** [POST /api/getAnimation] *)

Record Approach : Type := {
  title : string;
  (** [approach.code], absent when the body has no such object *)
  code : option (gmap string jsval)
}.

Record Response : Type := {
  status : nat;
  body : list (string * string)
}.

Definition json (st : nat) (fields : list (string * string)) : M Response :=
  ret {| status := st; body := fields |}.

(** [approach.code.javaCode || approach.code.cppCode
     || approach.code.pythonCode || approach.code.jsCode]. *)
Definition selectCode (c : gmap string jsval) : jsval :=
  js_or (js_or (js_or (get c "javaCode") (get c "cppCode"))
               (get c "pythonCode"))
        (get c "jsCode").

Definition readCode (approach : Approach) : M jsval :=
  match code approach with
  | Some c => ret (selectCode c)
  | None =>
      throw "Cannot read properties of undefined (reading 'javaCode')"
  end.

(** The two statements every failure path runs before it answers:
    [if (renderDir) deleteDirectory(renderDir);
     if (audioFilePath && fs.existsSync(audioFilePath))
       fs.unlinkSync(audioFilePath);] *)
Definition cleanUp (env : Env) (renderDir audioFilePath : option path)
  : M unit :=
  match renderDir with
  | Some dir => deleteDirectory env dir
  | None => ret tt
  end ;;;
  match audioFilePath with
  | Some file =>
      ex <- existsSync file ;;
      if ex then unlinkSync env file else ret tt
  | None => ret tt
  end.

(** The [catch] block of the handler, with the values [renderDir] and
    [audioFilePath] have when the error arrives. *)
Definition outerCatch (env : Env) (renderDir audioFilePath : option path)
    (error : error) : M Response :=
  console_error ("Error in /api/getAnimation: " +:+ error) ;;;
  cleanUp env renderDir audioFilePath ;;;
  json 500 [ ("error", "Failed to generate animation with audio");
             ("details", error) ].

(** [manim.on('error', ...)]. *)
Definition onManimError (env : Env) (renderDir audioFilePath : path)
    (message : string) : M Response :=
  console_error ("Failed to start Manim process: " +:+ message) ;;;
  cleanUp env (Some renderDir) (Some audioFilePath) ;;;
  json 500 [ ("error", "Failed to start Manim process");
             ("details", message) ].

(** The [try] block of the ['close'] handler: locate the rendered video,
    combine it with the audio, publish, clean up and answer. *)
Definition publish (env : Env) (renderDir audioFilePath : path)
    (renderId : string) (output errorOutput : string) : M Response :=
  videoPath <- findVideoFile env renderDir ;;
  match videoPath with
  | None =>
      console_error ("No video file found in render directory: "
                     +:+ path_str renderDir) ;;;
      cleanUp env (Some renderDir) (Some audioFilePath) ;;;
      json 500 [ ("error", "No video file generated");
                 ("output", output);
                 ("errorOutput", errorOutput) ]
  | Some videoPath =>
      console_log ("Found video file at: " +:+ path_str videoPath) ;;;
      let publicDir := videosDir ++ [renderId] in
      mkdirSync env publicDir ;;;
      let videoFileName := basename videoPath in
      let baseFileName := Js.replaceFirst ".mp4" videoFileName in
      let finalVideoPath :=
        publicDir ++ [baseFileName +:+ "_with_audio.mp4"] in
      combineVideoAndAudio env videoPath audioFilePath finalVideoPath ;;;
      let videoUrl := "/videos/" +:+ renderId +:+ "/" +:+ baseFileName
                      +:+ "_with_audio.mp4" in
      console_log ("Video with audio successfully generated and available at: "
                   +:+ videoUrl) ;;;
      deleteDirectory env renderDir ;;;
      ex <- existsSync audioFilePath ;;
      (if ex then unlinkSync env audioFilePath else ret tt) ;;;
      console_log "Cleaned up temporary files" ;;;
      json 200 [ ("videoUrl", videoUrl) ]
  end.

(** [manim.on('close', async (code) => ...)]. *)
Definition onManimClose (env : Env) (renderDir audioFilePath : path)
    (renderId : string) (code : option Z) (output errorOutput : string)
  : M Response :=
  console_log ("Manim process exited with code " +:+ showCode code) ;;;
  if negb (isZero code) then
    console_error ("Manim failed with output: " +:+ output) ;;;
    console_error ("Manim failed with error: " +:+ errorOutput) ;;;
    cleanUp env (Some renderDir) (Some audioFilePath) ;;;
    json 500 [ ("error", "Manim failed with code " +:+ showCode code);
               ("output", output);
               ("errorOutput", errorOutput) ]
  else
    try_catch
      (publish env renderDir audioFilePath renderId output errorOutput)
      (fun error =>
         console_error ("Error processing video/audio combination: " +:+ error) ;;;
         cleanUp env (Some renderDir) (Some audioFilePath) ;;;
         json 500 [ ("error", "Error processing generated video with audio");
                    ("details", error);
                    ("output", output);
                    ("errorOutput", errorOutput) ]).

(** The handler.  Its one [try] block is written as three stretches, cut
    where [renderDir] and [audioFilePath] are assigned, so that the [catch]
    block gets the values the two variables hold at the throw.  A [Throw]
    of the whole handler is an error nobody catches: no response is sent. *)
Definition getAnimation (env : Env) (approach : option Approach)
  : M Response :=
  match approach with
  | None => json 400 [ ("error", "Approach details are required") ]
  | Some approach =>
      guarded
        (console_log "---------------------" ;;;
         console_log ("Generating animation with audio for approach: "
                      +:+ title approach) ;;;
         code <- readCode approach ;;
         narrationSteps <- generateNarrationSteps env code ;;
         script <- generateManimScript env code narrationSteps ;;
         console_log ("Generated Manim script with ID: " +:+ fst script) ;;;
         ret (narrationSteps, script))
        (outerCatch env None None)
        (fun '(narrationSteps, (scriptId, scriptContent)) =>
      let renderId := scriptId in
      let renderDir := rendersDir ++ [renderId] in
      guarded
        (mkdirSync env renderDir ;;;
         let scriptPath := renderDir ++ ["animation.py"] in
         writeFileSync env scriptPath ;;;
         generateAudio env narrationSteps renderId)
        (outerCatch env (Some renderDir) None)
        (fun audioFilePath =>
      guarded
        (console_log ("Audio generated at: " +:+ path_str audioFilePath) ;;;
         console_log ("Running Manim in directory: " +:+ path_str renderDir) ;;;
         console_log ("Script path: "
                      +:+ path_str (renderDir ++ ["animation.py"])) ;;;
         spawnProcess env "python" ["-m"; "manim"; "animation.py"; "-ql"]
           (Some renderDir))
        (outerCatch env (Some renderDir) (Some audioFilePath))
        (fun ended =>
           match ended with
           | Closed code output errorOutput =>
               onManimClose env renderDir audioFilePath renderId
                 code output errorOutput
           | SpawnError message =>
               onManimError env renderDir audioFilePath message
           end)))
  end.

(** * Vocabulary of the statements *)

(** ** Runs *)

(** A computation that leaves the disk as it found it. *)
Definition readonly {A} (c : M A) : Prop := forall d, disk_after (c d) = d.

(** A computation all of whose events are of the kind [P]. *)
Definition emits {A} (P : event -> Prop) (c : M A) : Prop :=
  forall d, List.Forall P (events (c d)).

(** The run [r], told after the events [ev]. *)
Definition after_events {A} (ev : list event) (r : Run A) : Run A :=
  {| result := result r; disk_after := disk_after r; events := ev ++ events r |}.

(** ** Kinds of events *)

Definition isLog (e : event) : Prop :=
  match e with Log _ | LogError _ => True | _ => False end.

Definition isSpawn (e : event) : bool :=
  match e with Spawned _ _ _ _ => true | _ => false end.

Definition noProcess (e : event) : Prop :=
  match e with Spawned _ _ _ _ => False | _ => True end.

Definition noQuestion (e : event) : Prop :=
  match e with Asked _ => False | _ => True end.

Definition isFfmpeg (e : event) : Prop :=
  match e with Spawned cmd _ _ _ => cmd = "ffmpeg" | _ => False end.

(** The events of the ['close'] handler of the renderer. *)
Definition fromPublish (e : event) : Prop := isLog e \/ isFfmpeg e.

(** The speech process of the job [audioId]. *)
Definition speechEvent (audioId : string) (o : proc_outcome) : event :=
  Spawned "python" [path_str (scriptFileOf audioId)] None o.

(** The arguments the renderer is started with. *)
Definition manimArgs : list string := ["-m"; "manim"; "animation.py"; "-ql"].

(** Before the renderer starts, the only process is the speech process of
    the job. *)
Definition beforeRender (audioId : string) (e : event) : Prop :=
  match e with
  | Spawned _ _ _ o => e = speechEvent audioId o
  | _ => True
  end.

(** Every question put to the model is about the code [chosen]. *)
Definition aboutCode (chosen : jsval) (e : event) : Prop :=
  match e with
  | Asked (NarrationPrompt x) => x = chosen
  | Asked (ManimPrompt _ x) => x = chosen
  | _ => True
  end.

(** ** Responses *)

(** The value of a field of the JSON body. *)
Definition field (key : string) (resp : Response) : option string :=
  snd <$> List.find (fun kv => String.eqb (fst kv) key) (body resp).

(** What a failure answer of the ['close'] handler carries: the streams of
    the renderer, and the stderr of a muxer that exited with an error. *)
Definition rendererDiagnostics (out err : string) (evs : list event)
    (resp : Response) : Prop :=
  status resp = 500
  /\ field "output" resp = Some out
  /\ field "errorOutput" resp = Some err
  /\ (forall args c o e',
        In (Spawned "ffmpeg" args None (Closed c o e')) evs -> c <> Some 0%Z ->
        exists details, field "details" resp = Some details
                        /\ Js.includes e' details = true).

(** ** Directory trees *)

(** The first search, in order, that found something. *)
Fixpoint firstFound (rs : list (completion (option path))) : option path :=
  match rs with
  | [] => None
  | Normal (Some p) :: _ => Some p
  | _ :: rest => firstFound rest
  end.

(** The number of entries below [n] that are files named [*.mp4]. *)
Fixpoint countVideos (n : node) : nat :=
  match n with
  | Dir es =>
      List.fold_right
        (fun e acc => (if isVideo (dirent_of e) then 1 else 0)
                      + countVideos (snd e) + acc) 0 es
  | _ => 0
  end.

(** ** Cleanup *)

(** What a run that ends with the cleanup leaves behind: no working
    directory when its removal did not raise, and no audio file when the run
    completed. *)
Definition cleaned {A} (env : Env) (renderDir audioFilePath : option path)
    (r : Run A) : Prop :=
  (forall dir, renderDir = Some dir -> dir <> [] -> faults env OpRm dir = None ->
     Fs.present dir (disk_after r) = false)
  /\ (forall file a, audioFilePath = Some file -> file <> [] ->
        result r = Normal a -> Fs.present file (disk_after r) = false).

(** The same environment, except that directory removal raises as [g]
    says. *)
Definition withRmFaults (g : path -> option error) (env : Env) : Env :=
  {| uuidv4 := uuidv4 env;
     generateContent := generateContent env;
     JSON_parse := JSON_parse env;
     spawn := spawn env;
     faults := fun op p => match op with OpRm => g p | _ => faults env op p end;
     partlyRemoved := partlyRemoved env |}.

(** Two disks that hold the same thing at [file]. *)
Definition agree (file : path) (d d' : node) : Prop :=
  Fs.lookup file d = Fs.lookup file d'.

(** Two paths below different entries of the root. *)
Definition apart (p q : path) : Prop :=
  match p, q with
  | x :: _, z :: _ => x <> z
  | _, _ => False
  end.

(** Two runs with the same outcome, on disks that agree at [file]. *)
Definition sameOutcome {A} (file : path) (r' r : Run A) : Prop :=
  result r' = result r /\ agree file (disk_after r) (disk_after r').

(** ** Sample data *)

(** The three directories the server creates when it starts. *)
Definition disk0 : node :=
  Dir [ ("renders", Dir []); ("videos", Dir []); ("audio", Dir []) ].

(** The tree of the second testable property of the specification; the
    subdirectory is listed before the file. *)
Definition exampleTree : node :=
  Dir [ ("a", Dir [ ("b", Dir [ ("out.mp4", File) ]);
                    ("video.mp4", File) ]) ].

(** A tree whose first subdirectory holds a deeper video than its second. *)
Definition deepFirstTree : node :=
  Dir [ ("a", Dir [ ("x", Dir [ ("y", Dir [ ("deep.mp4", File) ]) ]);
                    ("z", Dir [ ("shallow.mp4", File) ]) ]) ].

(** What the renderer leaves in the working directory. *)
Definition mediaTree (videoName : string) : node :=
  Dir [ ("videos",
         Dir [ ("animation",
                Dir [ ("480p15",
                       Dir [ ("partial_movie_files", Dir []);
                             (videoName, File) ]) ]) ]) ].

Definition speechSaves (d : node) : proc_outcome * node :=
  (Closed (Some 0%Z) "Audio saved to: audio/job.wav" "",
   default d (Fs.put ["audio"; "job.wav"] File d)).

Definition speechCrashes (d : node) : proc_outcome * node :=
  (Closed (Some 1%Z) "Loading voices" "RuntimeError: no audio device", d).

Definition manimRenders (videoName : string) (d : node) : proc_outcome * node :=
  (Closed (Some 0%Z) "File ready" "",
   default d (Fs.put ["renders"; "job"; "media"] (mediaTree videoName) d)).

(** [python] is not installed. *)
Definition speechMissing (d : node) : proc_outcome * node :=
  (SpawnError "spawn python ENOENT", d).

Definition manimFails (d : node) : proc_outcome * node :=
  (Closed (Some 1%Z) "Manim Community v0.18"
     "NameError: name Sqaure is not defined", d).

Definition ffmpegMuxes (d : node) : proc_outcome * node :=
  (Closed (Some 0%Z) "" "ffmpeg version 6.0", d).

Definition noFaults : fsop -> path -> option error := fun _ _ => None.

Definition rmBusy : fsop -> path -> option error :=
  fun op _ => match op with
              | OpRm => Some "EBUSY: resource busy or locked"
              | _ => None
              end.

Definition listingDenied (p : path) : fsop -> path -> option error :=
  fun op q => match op with
              | OpReaddir =>
                  if decide (q = p) then Some "EACCES: permission denied" else None
              | _ => None
              end.

(** An environment with job identifier [job], a model that answers, and
    the given processes and filesystem faults. *)
Definition sampleEnv (speech manim ffmpeg : node -> proc_outcome * node)
    (flt : fsop -> path -> option error) : Env :=
  {| uuidv4 := "job";
     generateContent := fun _ => Normal "[]";
     JSON_parse := fun _ => Normal ["We start with an unsorted array";
                                    "We swap 5 and 2"];
     spawn := fun cmd _ cwd d =>
       if String.eqb cmd "ffmpeg" then ffmpeg d
       else match cwd with
            | Some _ => manim d
            | None => speech d
            end;
     faults := flt;
     partlyRemoved := fun _ _ => [] |}.

Definition bubbleSort : Approach :=
  {| title := "Bubble Sort";
     code := Some {[ "javaCode" := JStr "void sort(int[] a) { }" ]} |}.

Definition cppOnly : gmap string jsval :=
  {[ "javaCode" := JStr ""; "cppCode" := JStr "int main() { }" ]}.

Definition twoPointers : Approach :=
  {| title := "Two Pointers"; code := Some cppOnly |}.

(** The answer to a renderer that exits with code 1. *)
Definition renderFailed : Response :=
  {| status := 500;
     body := [ ("error", "Manim failed with code 1");
               ("output", "Manim Community v0.18");
               ("errorOutput", "NameError: name Sqaure is not defined") ] |}.

(** The answer to a speech process that exits with code 1. *)
Definition speechFailed : Response :=
  {| status := 500;
     body := [ ("error", "Failed to generate animation with audio");
               ("details",
                "Audio generation failed: RuntimeError: no audio device") ] |}.

(** * The rest of the server *)

(** ** Start of the server *)

(** The three [fs.mkdirSync(dir, { recursive: true })] calls made when the
    file is loaded. *)
Definition createDirectories (env : Env) : M unit :=
  mkdirSync env rendersDir ;;;
  mkdirSync env videosDir ;;;
  mkdirSync env audioDir.

(** ** [path.join] with a request parameter *)

Module Path.

(** [s.split('/')]. *)
Fixpoint split (s : string) : list string :=
  match s with
  | "" => [""]
  | String c s' =>
      if Ascii.eqb c "/" then "" :: split s'
      else match split s' with
           | seg :: rest => String c seg :: rest
           | [] => [String c ""]
           end
  end.

(** The normalization of POSIX [path.join]: empty segments and [.] are
    dropped, [..] leaves the directory reached so far.  [stack] is the path
    reached, innermost segment first; [None] is a path that leaves
    [__dirname]. *)
Fixpoint walk (stack : list string) (segs : list string)
  : option (list string) :=
  match segs with
  | [] => Some stack
  | seg :: rest =>
      if String.eqb seg "" || String.eqb seg "." then walk stack rest
      else if String.eqb seg ".." then
        match stack with
        | [] => None
        | _ :: stack' => walk stack' rest
        end
      else walk (seg :: stack) rest
  end.

(** [path.join(dir, s)] on a POSIX system, for a directory [dir] below
    [__dirname] and an arbitrary string [s].  The result is [None] where
    the disk of the model has nothing to say: a path that is [__dirname]
    itself or lies outside it, and a string that is empty or ends in a
    slash. *)
Definition join (dir : path) (s : string) : option path :=
  let segs := split s in
  if String.eqb (List.last segs "") "" then None
  else match walk (List.rev dir) segs with
       | Some (x :: stack) => Some (List.rev (x :: stack))
       | _ => None
       end.

(** A name as a directory listing has them: not empty, not [.] or [..],
    and without a slash. *)
Definition plain (name : string) : bool :=
  negb (String.eqb name "") && negb (String.eqb name ".")
  && negb (String.eqb name "..") && negb (Js.includes "/" name).

End Path.

(** [p] is [q] or an ancestor of [q]. *)
Fixpoint isPrefix (p q : path) : bool :=
  match p, q with
  | [], _ => true
  | x :: p', y :: q' => String.eqb x y && isPrefix p' q'
  | _ :: _, [] => false
  end.

(** [q] is properly below [p]. *)
Definition inside (p q : path) : bool :=
  isPrefix p q && Nat.ltb (List.length p) (List.length q).

(** ** [DELETE /api/cleanup/:videoId] *)

(** The handler, given the directory [path.join(videosDir, videoId)]. *)
Definition cleanupVideoAt (env : Env) (videoDir : path) (videoId : string)
  : M Response :=
  try_catch
    (ex <- existsSync videoDir ;;
     if ex then
       deleteDirectory env videoDir ;;;
       json 200 [ ("message", "Video " +:+ videoId +:+ " deleted successfully") ]
     else
       json 404 [ ("error", "Video not found") ])
    (fun error =>
       console_error ("Error cleaning up video: " +:+ error) ;;;
       json 500 [ ("error", "Failed to cleanup video") ]).

(** The handler for the parameter [videoId]; [None] for a parameter whose
    directory the model does not cover. *)
Definition cleanupVideo (env : Env) (videoId : string) : option (M Response) :=
  (fun videoDir => cleanupVideoAt env videoDir videoId)
    <$> Path.join videosDir videoId.

(** ** [DELETE /api/cleanup-all] *)

(** The [forEach] loop: every listed directory is handed to
    [deleteDirectory] and counted. *)
Fixpoint deleteEach (env : Env) (videoDirectories : list string)
    (deletedCount : nat) : M nat :=
  match videoDirectories with
  | [] => ret deletedCount
  | dirName :: rest =>
      let dirPath := videosDir ++ [dirName] in
      deleteDirectory env dirPath ;;;
      deleteEach env rest (S deletedCount)
  end.

Definition cleanupAll (env : Env) : M Response :=
  try_catch
    (items <- readdirSync env videosDir ;;
     let videoDirectories :=
       List.map name (List.filter isDirectory items) in
     deletedCount <- deleteEach env videoDirectories 0 ;;
     json 200 [ ("message", "Cleaned up " +:+ pretty deletedCount
                            +:+ " video directories") ])
    (fun error =>
       console_error ("Error in cleanup-all: " +:+ error) ;;;
       json 500 [ ("error", "Failed to cleanup videos") ]).

(** ** [POST /api/analyze] *)

(** What the analysis needs from outside: the reply of the model to the
    approaches prompt for a question, and [JSON.parse]. *)
Record Gemini (J : Type) : Type := {
  approachesReply : jsval -> completion string;
  parseJSON : string -> completion J
}.
Arguments approachesReply {J} _ _.
Arguments parseJSON {J} _ _.

(** [generateApproaches(question)].  Objects printed after a log message
    are left out of the message. *)
Definition generateApproaches {J} (g : Gemini J) (question : jsval) : M J :=
  console_log "question:" ;;;
  try_catch
    (text <- match approachesReply g question with
             | Normal text => ret text
             | Throw e => throw e
             end ;;
     let cleanedText := cleanJsonResponse text in
     approaches <- match parseJSON g cleanedText with
                   | Normal approaches => ret approaches
                   | Throw e => throw e
                   end ;;
     console_log "approaches:" ;;;
     ret approaches)
    (fun error =>
       console_error ("Error generating approaches: " +:+ error) ;;;
       throw error).

Inductive AnalysisBody (J : Type) : Type :=
  | Analysis (question : jsval) (title : string) (approaches : J)
  | AnalysisError (error : string).
Arguments Analysis {J} _ _ _.
Arguments AnalysisError {J} _.

(** The handler; its answer is the status and the body. *)
Definition analyze {J} (g : Gemini J) (question : jsval)
  : M (nat * AnalysisBody J) :=
  try_catch
    (if negb (truthy question) then
       ret (400, AnalysisError "Question is required")
     else
       approaches <- generateApproaches g question ;;
       ret (200, Analysis question "Problem Analysis" approaches))
    (fun error =>
       console_error ("Error in /api/analyze: " +:+ error) ;;;
       ret (500, AnalysisError "Failed to analyze problem")).

(** ** More vocabulary *)

(** No two entries of a list have the same name. *)
Fixpoint distinct (names : list string) : bool :=
  match names with
  | [] => true
  | x :: rest => negb (List.existsb (String.eqb x) rest) && distinct rest
  end.

(** A tree as a file system has them: the names in a directory are
    distinct. *)
Fixpoint uniqueNames (n : node) : bool :=
  match n with
  | Dir es =>
      distinct (List.map fst es)
      && List.fold_right (fun e ok => uniqueNames (snd e) && ok) true es
  | _ => true
  end.

(** The external processes of a run, in the order in which they were
    started. *)
Definition processes (evs : list event) : list event := List.filter isSpawn evs.

(** A process that ran to its end and exited with code 0. *)
Definition exitedZero (o : proc_outcome) : Prop :=
  match o with
  | Closed (Some 0%Z) _ _ => True
  | _ => False
  end.

(** The name under which a located video is published. *)
Definition publishedName (videoPath : path) : string :=
  Js.replaceFirst ".mp4" (basename videoPath) +:+ "_with_audio.mp4".

(** The name of a listed directory whose removal does not raise. *)
Definition removable (env : Env) (dirName : string) : bool :=
  match faults env OpRm (videosDir ++ [dirName]) with
  | None => true
  | Some _ => false
  end.

(** ** More sample data *)

(** A disk with two published videos and a stray file. *)
Definition publishedDisk : node :=
  Dir [ ("renders", Dir []);
        ("videos", Dir [ ("job", Dir [("AlgorithmDemo_with_audio.mp4", File)]);
                         ("notes.txt", File);
                         ("old", Dir [("Sort_with_audio.mp4", File)]) ]);
        ("audio", Dir []) ].

(** An environment whose model is out of reach. *)
Definition modelDown : Env :=
  {| uuidv4 := "job";
     generateContent := fun _ => Throw "503 Service Unavailable";
     JSON_parse := fun _ => Normal [];
     spawn := fun _ _ _ d => (SpawnError "spawn ENOENT", d);
     faults := noFaults;
     partlyRemoved := fun _ _ => [] |}.

(** An environment in which the removal of a directory raises once the
    video in it is gone. *)
Definition interruptedRm : Env :=
  {| uuidv4 := "job";
     generateContent := fun _ => Normal "[]";
     JSON_parse := fun _ => Normal [];
     spawn := fun _ _ _ d => (SpawnError "spawn ENOENT", d);
     faults := rmBusy;
     partlyRemoved := fun _ _ => [["AlgorithmDemo_with_audio.mp4"]] |}.

(** An environment in which everything works and the renderer writes
    [AlgorithmDemo.mp4]. *)
Definition workingEnv : Env :=
  sampleEnv speechSaves (manimRenders "AlgorithmDemo.mp4") ffmpegMuxes noFaults.

(** * Facts about the model *)

(** ** Strings *)

Lemma startsWith_app p q s : Js.startsWith (p +:+ q) s = true -> Js.startsWith p s = true.
Proof.
  revert s. induction p as [|a p IH]; intros s; simpl; [reflexivity|].
  destruct s as [|b s]; [discriminate|].
  destruct (Ascii.eqb a b); [apply IH|discriminate].
Qed.

Lemma includes_head p s : Js.includes p s = false -> Js.startsWith p s = false.
Proof. destruct s; simpl; intros H; apply orb_false_elim in H; tauto. Qed.

Lemma includes_tail p c s : Js.includes p (String c s) = false -> Js.includes p s = false.
Proof. cbn [Js.includes]. intros H; apply orb_false_elim in H; tauto. Qed.

Lemma replaceAllFuel_absent p q fuel s :
  Js.includes p s = false -> Js.replaceAllFuel fuel (p +:+ q) s = s.
Proof.
  revert s. induction fuel as [|fuel IH]; intros s H; [reflexivity|].
  cbn [Js.replaceAllFuel].
  destruct (Js.startsWith (p +:+ q) s) eqn:E.
  - apply startsWith_app in E. rewrite (includes_head _ _ H) in E. discriminate.
  - destruct s as [|c s]; [reflexivity|].
    f_equal. apply IH. eapply includes_tail, H.
Qed.

Lemma replaceAll_absent p q s :
  Js.includes p s = false -> Js.replaceAll (p +:+ q) s = s.
Proof. apply replaceAllFuel_absent. Qed.

Lemma app_empty_r s : s +:+ "" = s.
Proof. induction s as [|c s IH]; [reflexivity|]. change (String c s +:+ "") with (String c (s +:+ "")). by rewrite IH. Qed.

Lemma startsWith_length p s : Js.startsWith p s = true -> String.length p <= String.length s.
Proof.
  revert s. induction p as [|a p IH]; intros [|b s]; simpl; try lia; try discriminate.
  destruct (Ascii.eqb a b); [|discriminate]. intros H. apply IH in H. lia.
Qed.

Lemma slice_length n s : String.length (Js.slice n s) = String.length s - n.
Proof. revert s. induction n as [|n IH]; intros [|c s]; simpl; try lia. apply IH. Qed.

Lemma skipLF_length s : String.length (Js.skipLF s) <= String.length s.
Proof. destruct s as [|c s]; simpl; [lia|]. destruct (Ascii.eqb c Js.LF); simpl; lia. Qed.

Lemma replaceAllFuel_enough lit f1 f2 s :
  lit <> "" -> String.length s <= f1 -> String.length s <= f2 ->
  Js.replaceAllFuel f1 lit s = Js.replaceAllFuel f2 lit s.
Proof.
  intros Hlit. revert f2 s.
  assert (Hnil : forall f, Js.replaceAllFuel f lit "" = "").
  { intros [|f]; [reflexivity|]. cbn [Js.replaceAllFuel].
    destruct lit; [congruence|reflexivity]. }
  induction f1 as [|f1 IH]; intros f2 s H1 H2.
  - destruct s; [|simpl in H1; lia]. by rewrite !Hnil.
  - destruct f2 as [|f2].
    { destruct s; [|simpl in H2; lia]. by rewrite !Hnil. }
    cbn [Js.replaceAllFuel].
    destruct (Js.startsWith lit s) eqn:E.
    + pose proof (startsWith_length _ _ E) as Hl.
      pose proof (skipLF_length (Js.slice (String.length lit) s)) as Hs.
      rewrite slice_length in Hs.
      assert (0 < String.length lit) by (destruct lit; [congruence|simpl; lia]).
      apply IH; lia.
    + destruct s as [|c s]; [reflexivity|]. simpl in H1, H2.
      f_equal. apply IH; lia.
Qed.

Lemma startsWith_self p s : Js.startsWith p (p +:+ s) = true.
Proof.
  induction p as [|a p IH]; [reflexivity|].
  change (String a p +:+ s) with (String a (p +:+ s)). cbn [Js.startsWith].
  by rewrite Ascii.eqb_refl.
Qed.

Lemma includes_here p s : Js.includes p (p +:+ s) = true.
Proof. destruct (p +:+ s) eqn:E; cbn [Js.includes]; rewrite <- E, startsWith_self; reflexivity. Qed.

Lemma includes_later p a s : Js.includes p s = true -> Js.includes p (a +:+ s) = true.
Proof.
  intros H. induction a as [|c a IH]; [exact H|].
  change (String c a +:+ s) with (String c (a +:+ s)). cbn [Js.includes].
  rewrite IH. apply orb_true_r.
Qed.

Lemma includes_mid p a s : Js.includes p (a +:+ p +:+ s) = true.
Proof. apply includes_later, includes_here. Qed.

Lemma includes_end p a : Js.includes p (a +:+ p) = true.
Proof. rewrite <- (app_empty_r p) at 2. apply includes_mid. Qed.

Lemma includes_self p : Js.includes p p = true.
Proof. rewrite <- (app_empty_r p) at 2. apply includes_here. Qed.

Ltac includes_tac :=
  repeat (apply includes_later); first [apply includes_self | apply includes_here].

Lemma isZero_true code : isZero code = true <-> code = Some 0%Z.
Proof.
  destruct code as [z|]; cbn [isZero]; [|split; discriminate].
  rewrite Z.eqb_eq. split; congruence.
Qed.

(** ** The directory tree *)

Lemma entry_nil x : Fs.entry x [] = None.
Proof. reflexivity. Qed.

Lemma entry_cons x e es :
  Fs.entry x (e :: es) = if String.eqb (fst e) x then Some (snd e) else Fs.entry x es.
Proof. unfold Fs.entry. simpl. by destruct (String.eqb (fst e) x). Qed.

Lemma entry_without_same x es : Fs.entry x (Fs.without x es) = None.
Proof.
  induction es as [|e es IH]; [reflexivity|].
  unfold Fs.without in *. simpl.
  destruct (String.eqb (fst e) x) eqn:E; simpl; [exact IH|].
  by rewrite entry_cons, E.
Qed.

Lemma entry_without_other x z es : x <> z -> Fs.entry z (Fs.without x es) = Fs.entry z es.
Proof.
  intros Hne. induction es as [|e es IH]; [reflexivity|].
  unfold Fs.without in *. simpl. rewrite entry_cons.
  destruct (String.eqb (fst e) x) eqn:E; simpl.
  - apply String.eqb_eq in E. destruct (String.eqb (fst e) z) eqn:E'; [|exact IH].
    apply String.eqb_eq in E'. congruence.
  - rewrite entry_cons. by destruct (String.eqb (fst e) z).
Qed.

Lemma entry_map_remove x p z es :
  Fs.entry z (List.map (fun e => if String.eqb (fst e) x
                                 then (fst e, Fs.remove p (snd e)) else e) es)
  = (if String.eqb z x then Fs.remove p else id) <$> Fs.entry z es.
Proof.
  induction es as [|e es IH]; [reflexivity|].
  cbn [List.map]. rewrite !entry_cons.
  destruct (String.eqb (fst e) x) eqn:Ex; cbn [fst snd].
  - destruct (String.eqb (fst e) z) eqn:Ez; [|exact IH].
    apply String.eqb_eq in Ex, Ez. subst. by rewrite String.eqb_refl.
  - destruct (String.eqb (fst e) z) eqn:Ez; [|exact IH].
    apply String.eqb_eq in Ez. subst. by rewrite Ex.
Qed.

Lemma remove_deep x y p es :
  Fs.remove (x :: y :: p) (Dir es)
  = Dir (List.map (fun e => if String.eqb (fst e) x
                            then (fst e, Fs.remove (y :: p) (snd e)) else e) es).
Proof. reflexivity. Qed.

Lemma lookup_remove_same p d : p <> [] -> Fs.lookup p (Fs.remove p d) = None.
Proof.
  revert d. induction p as [|x p IH]; intros d Hp; [congruence|].
  destruct d as [|es|]; try (by destruct p).
  destruct p as [|y p].
  - cbn [Fs.remove Fs.lookup]. by rewrite entry_without_same.
  - rewrite remove_deep. cbn [Fs.lookup].
    rewrite entry_map_remove. rewrite String.eqb_refl.
    destruct (Fs.entry x es) as [c|]; [|reflexivity].
    cbn [fmap option_fmap option_map]. by apply IH.
Qed.

Lemma lookup_remove_none p q d :
  Fs.lookup q d = None -> Fs.lookup q (Fs.remove p d) = None.
Proof.
  revert q d. induction p as [|x p IH]; intros q d H; [exact H|].
  destruct q as [|z q]; [discriminate|].
  destruct d as [|es|]; try (by destruct p).
  destruct p as [|y p].
  - cbn [Fs.remove Fs.lookup] in *.
    destruct (String.eqb x z) eqn:E.
    + apply String.eqb_eq in E. subst z. by rewrite entry_without_same.
    + apply String.eqb_neq in E. by rewrite entry_without_other.
  - rewrite remove_deep. cbn [Fs.lookup] in *.
    rewrite entry_map_remove.
    destruct (Fs.entry z es) as [c|]; [|reflexivity].
    cbn [fmap option_fmap option_map].
    destruct (String.eqb z x); [by apply IH|exact H].
Qed.

Lemma lookup_remove_apart x p z q d :
  x <> z -> Fs.lookup (z :: q) (Fs.remove (x :: p) d) = Fs.lookup (z :: q) d.
Proof.
  intros Hne. destruct d as [|es|]; try (by destruct p).
  destruct p as [|y p].
  - cbn [Fs.remove Fs.lookup]. by rewrite entry_without_other.
  - rewrite remove_deep. cbn [Fs.lookup]. rewrite entry_map_remove.
    destruct (Fs.entry z es) as [c|]; [|reflexivity].
    cbn [fmap option_fmap option_map].
    destruct (String.eqb z x) eqn:E; [|reflexivity].
    apply String.eqb_eq in E. congruence.
Qed.

Lemma prune_cons p q qs d :
  Fs.prune p (q :: qs) d
  = Fs.prune p qs (match q with [] => d | _ :: _ => Fs.remove (p ++ q) d end).
Proof. reflexivity. Qed.

Lemma lookup_prune_none p qs : forall q d,
  Fs.lookup q d = None -> Fs.lookup q (Fs.prune p qs d) = None.
Proof.
  induction qs as [|r qs IH]; intros q d H; [exact H|].
  rewrite prune_cons. apply IH. destruct r; [exact H|]. by apply lookup_remove_none.
Qed.

Lemma lookup_prune_apart x p z q qs : forall d,
  x <> z -> Fs.lookup (z :: q) (Fs.prune (x :: p) qs d) = Fs.lookup (z :: q) d.
Proof.
  induction qs as [|r qs IH]; intros d H; [reflexivity|].
  rewrite prune_cons, IH by done. destruct r; [reflexivity|].
  by apply lookup_remove_apart.
Qed.

Lemma lookup_app p q d :
  Fs.lookup (p ++ q) d = match Fs.lookup p d with Some c => Fs.lookup q c | None => None end.
Proof.
  revert d. induction p as [|x p IH]; intros d; [reflexivity|].
  cbn [app Fs.lookup]. destruct d as [|es|]; try reflexivity.
  destruct (Fs.entry x es); [apply IH|reflexivity].
Qed.

Lemma entry_height x es c : Fs.entry x es = Some c -> Fs.height c < Fs.height (Dir es).
Proof.
  induction es as [|e es IH]; [discriminate|].
  rewrite entry_cons. cbn [Fs.height fold_right] in *.
  destruct (String.eqb (fst e) x).
  - intros [= <-]. lia.
  - intros H. apply IH in H. lia.
Qed.

Lemma lookup_height p d c : Fs.lookup p d = Some c -> Fs.height c <= Fs.height d.
Proof.
  revert d. induction p as [|x p IH]; intros d; cbn [Fs.lookup].
  - intros [= <-]. lia.
  - destruct d as [|es|]; try discriminate.
    destruct (Fs.entry x es) as [c'|] eqn:E; [|discriminate].
    intros H. apply IH in H. apply entry_height in E. lia.
Qed.

(** ** Runs: read-only computations and projections *)

Lemma readonly_ret {A} (a : A) : readonly (ret a).
Proof. by intros d. Qed.
Lemma readonly_throw {A} e : readonly (@throw A e).
Proof. by intros d. Qed.
Lemma readonly_emit e : readonly (emit e).
Proof. by intros d. Qed.
Lemma readonly_getDisk : readonly getDisk.
Proof. by intros d. Qed.
Lemma readonly_bind {A B} (c : M A) (k : A -> M B) :
  readonly c -> (forall a, readonly (k a)) -> readonly (bind c k).
Proof.
  intros Hc Hk d. unfold bind. specialize (Hc d).
  destruct (result (c d)); simpl; [|exact Hc].
  rewrite Hk. exact Hc.
Qed.
Lemma readonly_try_catch {A} (c : M A) h :
  readonly c -> (forall e, readonly (h e)) -> readonly (try_catch c h).
Proof.
  intros Hc Hh d. unfold try_catch. specialize (Hc d).
  destruct (result (c d)); simpl; [exact Hc|].
  rewrite Hh. exact Hc.
Qed.

Ltac readonly_step :=
  match goal with
  | |- readonly (bind _ _) => apply readonly_bind; [|intros ?]
  | |- readonly (try_catch _ _) => apply readonly_try_catch; [|intros ?]
  | |- readonly (ret _) => apply readonly_ret
  | |- readonly (throw _) => apply readonly_throw
  | |- readonly (emit _) => apply readonly_emit
  | |- readonly (console_log _) => apply readonly_emit
  | |- readonly (console_error _) => apply readonly_emit
  | |- readonly getDisk => apply readonly_getDisk
  | |- readonly (match ?x with _ => _ end) => destruct x
  end.

Lemma readonly_existsSync p : readonly (existsSync p).
Proof. unfold existsSync. repeat readonly_step. Qed.

Lemma readonly_checkFault env op p : readonly (checkFault env op p).
Proof. unfold checkFault. repeat readonly_step. Qed.

Lemma readonly_readdirSync env p : readonly (readdirSync env p).
Proof.
  unfold readdirSync. apply readonly_bind; [apply readonly_checkFault|intros _].
  repeat readonly_step.
Qed.

Lemma readonly_searchSubdirs search dir items :
  (forall p, readonly (search p)) -> readonly (searchSubdirs search dir items).
Proof.
  intros Hs. induction items as [|item items IH]; cbn [searchSubdirs].
  - apply readonly_ret.
  - destruct (isDirectory item); [|exact IH].
    apply readonly_bind; [apply Hs|]. intros [p|]; [apply readonly_ret|exact IH].
Qed.

Lemma readonly_findVideoFileFuel fuel env dir : readonly (findVideoFileFuel fuel env dir).
Proof.
  revert dir. induction fuel as [|fuel IH]; intros dir; cbn [findVideoFileFuel].
  - apply readonly_throw.
  - apply readonly_try_catch; [|intros e; repeat readonly_step].
    apply readonly_bind; [apply readonly_existsSync|]. intros ex.
    destruct (negb ex); [apply readonly_ret|].
    apply readonly_bind; [apply readonly_readdirSync|]. intros items.
    destruct (find isVideo items); [apply readonly_ret|].
    by apply readonly_searchSubdirs.
Qed.

Lemma readonly_findVideoFile env dir : readonly (findVideoFile env dir).
Proof. intros d. apply readonly_findVideoFileFuel. Qed.

Lemma result_bind {A B} (c : M A) (k : A -> M B) d :
  result (bind c k d) = match result (c d) with
                        | Normal a => result (k a (disk_after (c d)))
                        | Throw e => Throw e
                        end.
Proof. unfold bind. by destruct (result (c d)). Qed.

Lemma result_try_catch {A} (c : M A) h d :
  result (try_catch c h d) = match result (c d) with
                             | Normal a => Normal a
                             | Throw e => result (h e (disk_after (c d)))
                             end.
Proof. unfold try_catch. by destruct (result (c d)) eqn:E. Qed.

Lemma result_guarded {A B} (c : M A) (h : error -> M B) k d :
  result (guarded c h k d) = match result (c d) with
                             | Normal a => result (k a (disk_after (c d)))
                             | Throw e => result (h e (disk_after (c d)))
                             end.
Proof. unfold guarded. by destruct (result (c d)). Qed.

(** [findVideoFile] always returns. *)
Lemma findVideoFile_returns env dir d :
  exists r, result (findVideoFile env dir d) = Normal r.
Proof.
  unfold findVideoFile. cbn [findVideoFileFuel]. rewrite result_try_catch.
  match goal with |- context [match ?r with _ => _ end] => destruct r as [a|e] end; eauto.
Qed.

Lemma run_existsSync p d :
  existsSync p d = {| result := Normal (Fs.present p d); disk_after := d; events := [] |}.
Proof. reflexivity. Qed.

Lemma run_readdirSync_ok env p d es :
  faults env OpReaddir p = None -> Fs.lookup p d = Some (Dir es) ->
  readdirSync env p d
  = {| result := Normal (List.map dirent_of es); disk_after := d; events := [] |}.
Proof.
  intros Hf Hl. unfold readdirSync, checkFault, bind. rewrite Hf. simpl. by rewrite Hl.
Qed.

(** A video at the level of [dir] is returned without descending. *)
Lemma find_level_first env dir d es item :
  Fs.lookup dir d = Some (Dir es) ->
  faults env OpReaddir dir = None ->
  List.find isVideo (List.map dirent_of es) = Some item ->
  result (findVideoFile env dir d) = Normal (Some (dir ++ [name item])).
Proof.
  intros Hl Hf Hfind. unfold findVideoFile. cbn [findVideoFileFuel].
  rewrite result_try_catch, result_bind, run_existsSync. cbn [result disk_after].
  unfold Fs.present. rewrite Hl. cbn [negb].
  rewrite result_bind, (run_readdirSync_ok _ _ _ _ Hf Hl). cbn [result disk_after].
  rewrite Hfind. reflexivity.
Qed.

Lemma find_missing env dir d :
  Fs.present dir d = false -> result (findVideoFile env dir d) = Normal None.
Proof.
  intros H. unfold findVideoFile. cbn [findVideoFileFuel].
  rewrite result_try_catch, result_bind, run_existsSync. cbn [result disk_after].
  rewrite H. reflexivity.
Qed.

Lemma find_listing_error env dir d e :
  faults env OpReaddir dir = Some e -> result (findVideoFile env dir d) = Normal None.
Proof.
  intros H. unfold findVideoFile. cbn [findVideoFileFuel].
  rewrite result_try_catch, result_bind, run_existsSync. cbn [result disk_after].
  destruct (Fs.present dir d); [|reflexivity]. cbn [negb].
  rewrite result_bind. unfold readdirSync at 1. rewrite result_bind.
  unfold checkFault. rewrite H. reflexivity.
Qed.

(** ** Runs: kinds of events *)

Lemma emits_weaken {A} (P Q : event -> Prop) (c : M A) :
  (forall e, P e -> Q e) -> emits P c -> emits Q c.
Proof. intros H Hc d. eapply List.Forall_impl; [exact H|apply Hc]. Qed.

Lemma emits_ret {A} P (a : A) : emits P (ret a).
Proof. intros d. constructor. Qed.
Lemma emits_throw {A} P e : emits P (@throw A e).
Proof. intros d. constructor. Qed.
Lemma emits_getDisk P : emits P getDisk.
Proof. intros d. constructor. Qed.
Lemma emits_setDisk P d' : emits P (setDisk d').
Proof. intros d. constructor. Qed.
Lemma emits_emit (P : event -> Prop) e : P e -> emits P (emit e).
Proof. intros H d. repeat constructor. exact H. Qed.
Lemma emits_bind {A B} P (c : M A) (k : A -> M B) :
  emits P c -> (forall a, emits P (k a)) -> emits P (bind c k).
Proof.
  intros Hc Hk d. unfold bind. destruct (result (c d)); cbn [events].
  - apply List.Forall_app. split; [apply Hc|apply Hk].
  - apply Hc.
Qed.
Lemma emits_try_catch {A} P (c : M A) h :
  emits P c -> (forall e, emits P (h e)) -> emits P (try_catch c h).
Proof.
  intros Hc Hh d. unfold try_catch. destruct (result (c d)); cbn [events].
  - apply Hc.
  - apply List.Forall_app. split; [apply Hc|apply Hh].
Qed.
Lemma emits_guarded {A B} P (c : M A) (h : error -> M B) k :
  emits P c -> (forall e, emits P (h e)) -> (forall a, emits P (k a)) ->
  emits P (guarded c h k).
Proof.
  intros Hc Hh Hk d. unfold guarded. cbn [events].
  apply List.Forall_app. split; [apply Hc|].
  destruct (result (c d)); [apply Hk|apply Hh].
Qed.
Lemma emits_spawnProcess (P : event -> Prop) env cmd args cwd :
  (forall o, P (Spawned cmd args cwd o)) -> emits P (spawnProcess env cmd args cwd).
Proof.
  intros H d. unfold spawnProcess. destruct (spawn env cmd args cwd d).
  repeat constructor. apply H.
Qed.

Ltac emits_step :=
  lazymatch goal with
  | |- emits _ (bind _ _) => apply emits_bind; [|intros ?]
  | |- emits _ (try_catch _ _) => apply emits_try_catch; [|intros ?]
  | |- emits _ (guarded _ _ _) => apply emits_guarded; [|intros ?|intros ?]
  | |- emits _ (ret _) => apply emits_ret
  | |- emits _ (json _ _) => apply emits_ret
  | |- emits _ (throw _) => apply emits_throw
  | |- emits _ getDisk => apply emits_getDisk
  | |- emits _ (setDisk _) => apply emits_setDisk
  | |- emits _ (console_log _) => apply emits_emit; cbn; auto
  | |- emits _ (console_error _) => apply emits_emit; cbn; auto
  | |- emits _ (emit _) => apply emits_emit; cbn; auto
  | |- emits _ (match ?x with _ => _ end) => destruct x
  end.

Ltac emits_fs :=
  unfold existsSync, rmSync, unlinkSync, mkdirSync, writeFileSync,
    readdirSync, checkFault; repeat emits_step.

Lemma emits_existsSync P p : emits P (existsSync p).
Proof. emits_fs. Qed.
Lemma emits_rmSync P env p : emits P (rmSync env p).
Proof. emits_fs. Qed.
Lemma emits_unlinkSync P env p : emits P (unlinkSync env p).
Proof. emits_fs. Qed.
Lemma emits_mkdirSync P env p : emits P (mkdirSync env p).
Proof. emits_fs. Qed.
Lemma emits_writeFileSync P env p : emits P (writeFileSync env p).
Proof. emits_fs. Qed.
Lemma emits_readdirSync P env p : emits P (readdirSync env p).
Proof. emits_fs. Qed.

Lemma emits_deleteDirectory env dir : emits isLog (deleteDirectory env dir).
Proof.
  unfold deleteDirectory. emits_step; [emits_step; [apply emits_existsSync|]|]; repeat emits_step.
  apply emits_rmSync.
Qed.

Lemma emits_cleanUp env renderDir audioFilePath :
  emits isLog (cleanUp env renderDir audioFilePath).
Proof.
  unfold cleanUp. emits_step.
  - destruct renderDir; [apply emits_deleteDirectory|apply emits_ret].
  - destruct audioFilePath; [|apply emits_ret].
    emits_step; [apply emits_existsSync|]. emits_step; [apply emits_unlinkSync|apply emits_ret].
Qed.

Lemma emits_searchSubdirs P search dir items :
  (forall p, emits P (search p)) -> emits P (searchSubdirs search dir items).
Proof.
  intros Hs. induction items as [|item items IH]; cbn [searchSubdirs]; [apply emits_ret|].
  destruct (isDirectory item); [|exact IH].
  emits_step; [apply Hs|]. destruct a; [apply emits_ret|exact IH].
Qed.

Lemma emits_findVideoFileFuel fuel env dir : emits isLog (findVideoFileFuel fuel env dir).
Proof.
  revert dir. induction fuel as [|fuel IH]; intros dir; cbn [findVideoFileFuel].
  - apply emits_throw.
  - emits_step; [|repeat emits_step].
    emits_step; [apply emits_existsSync|]. destruct (negb a); [apply emits_ret|].
    emits_step; [apply emits_readdirSync|]. destruct (find isVideo a0); [apply emits_ret|].
    by apply emits_searchSubdirs.
Qed.

Lemma emits_findVideoFile env dir : emits isLog (findVideoFile env dir).
Proof. intros d. apply emits_findVideoFileFuel. Qed.

(** ** Runs: decomposition *)

Lemma bind_normal {A B} (c : M A) (k : A -> M B) d a :
  result (c d) = Normal a ->
  bind c k d = after_events (events (c d)) (k a (disk_after (c d))).
Proof. intros H. unfold bind. by rewrite H. Qed.

Lemma bind_throw {A B} (c : M A) (k : A -> M B) d e :
  result (c d) = Throw e ->
  bind c k d = {| result := Throw e; disk_after := disk_after (c d);
                  events := events (c d) |}.
Proof. intros H. unfold bind. by rewrite H. Qed.

Lemma try_catch_normal {A} (c : M A) h d a :
  result (c d) = Normal a -> try_catch c h d = c d.
Proof. intros H. unfold try_catch. by rewrite H. Qed.

Lemma try_catch_throw {A} (c : M A) h d e :
  result (c d) = Throw e ->
  try_catch c h d = after_events (events (c d)) (h e (disk_after (c d))).
Proof. intros H. unfold try_catch. by rewrite H. Qed.

Lemma guarded_normal {A B} (c : M A) (h : error -> M B) k d a :
  result (c d) = Normal a ->
  guarded c h k d = after_events (events (c d)) (k a (disk_after (c d))).
Proof. intros H. unfold guarded. by rewrite H. Qed.

Lemma guarded_throw {A B} (c : M A) (h : error -> M B) k d e :
  result (c d) = Throw e ->
  guarded c h k d = after_events (events (c d)) (h e (disk_after (c d))).
Proof. intros H. unfold guarded. by rewrite H. Qed.

Lemma emits_nothing {A} (c : M A) d : emits (fun _ => False) c -> events (c d) = [].
Proof. intros H. specialize (H d). destruct (events (c d)); [reflexivity|]. by inversion H. Qed.

Lemma events_unlinkSync env p d : events (unlinkSync env p d) = [].
Proof. apply emits_nothing, emits_unlinkSync. Qed.
Lemma events_writeFileSync env p d : events (writeFileSync env p d) = [].
Proof. apply emits_nothing, emits_writeFileSync. Qed.
Lemma events_mkdirSync env p d : events (mkdirSync env p d) = [].
Proof. apply emits_nothing, emits_mkdirSync. Qed.
Lemma events_existsSync p d : events (existsSync p d) = [].
Proof. reflexivity. Qed.

(** What [unlinkSync] leaves at its path. *)
Lemma unlinkSync_normal env p d :
  result (unlinkSync env p d) = Normal tt ->
  p <> [] -> Fs.present p (disk_after (unlinkSync env p d)) = false.
Proof.
  unfold unlinkSync, checkFault. rewrite result_bind.
  destruct (faults env OpUnlink p); cbn; [discriminate|].
  destruct (Fs.lookup p d) as [[|es|]|]; cbn; try discriminate; intros _ Hp;
    unfold Fs.present; by rewrite lookup_remove_same.
Qed.

Lemma unlinkSync_throw env p d e :
  result (unlinkSync env p d) = Throw e ->
  disk_after (unlinkSync env p d) = d
  /\ (faults env OpUnlink p = None ->
      match Fs.lookup p d with None | Some (Dir _) => True | _ => False end).
Proof.
  unfold unlinkSync, checkFault. rewrite result_bind.
  destruct (faults env OpUnlink p); cbn; [intros; split; [reflexivity|discriminate]|].
  destruct (Fs.lookup p d) as [[|es|]|]; cbn; try discriminate; auto.
Qed.

Lemma unit_normal (r : completion unit) u : r = Normal u -> r = Normal tt.
Proof. by destruct u. Qed.

(** ** [findVideoFile] *)

Lemma entry_in e es : In e es -> exists c, Fs.entry (fst e) es = Some c.
Proof.
  induction es as [|e' es IH]; [intros []|].
  rewrite entry_cons. intros [->|H].
  - rewrite String.eqb_refl. eauto.
  - destruct (String.eqb (fst e') (fst e)); eauto.
Qed.

Lemma lookup_child dir d es x :
  Fs.lookup dir d = Some (Dir es) -> Fs.lookup (dir ++ [x]) d = Fs.entry x es.
Proof.
  intros H. rewrite lookup_app, H. cbn [Fs.lookup].
  by destruct (Fs.entry x es).
Qed.

Lemma searchSubdirs_ext search1 search2 dir items d :
  (forall item, In item items -> isDirectory item = true ->
     search1 (dir ++ [name item]) d = search2 (dir ++ [name item]) d) ->
  (forall p, readonly (search1 p)) ->
  searchSubdirs search1 dir items d = searchSubdirs search2 dir items d.
Proof.
  intros Heq Hro. induction items as [|item items IH]; [reflexivity|].
  cbn [searchSubdirs].
  assert (IH' : searchSubdirs search1 dir items d = searchSubdirs search2 dir items d).
  { apply IH. intros it Hin. apply Heq. by right. }
  destruct (isDirectory item) eqn:E; [|exact IH'].
  unfold bind. rewrite <- (Heq item (or_introl eq_refl) E).
  destruct (result (search1 (dir ++ [name item]) d)) as [[p|]|e]; try reflexivity.
  rewrite (Hro _ d), IH'. reflexivity.
Qed.

Lemma bind_congr {A B} (c : M A) (k1 k2 : A -> M B) d :
  (forall a, result (c d) = Normal a ->
     k1 a (disk_after (c d)) = k2 a (disk_after (c d))) ->
  bind c k1 d = bind c k2 d.
Proof.
  intros H. unfold bind. destruct (result (c d)) as [a|e]; [|reflexivity].
  by rewrite (H a eq_refl).
Qed.

Lemma try_catch_congr {A} (c1 c2 : M A) h d :
  c1 d = c2 d -> try_catch c1 h d = try_catch c2 h d.
Proof. intros H. unfold try_catch. by rewrite H. Qed.

Lemma readdirSync_listing env dir d items :
  result (readdirSync env dir d) = Normal items ->
  exists es, Fs.lookup dir d = Some (Dir es) /\ items = List.map dirent_of es.
Proof.
  unfold readdirSync, checkFault. rewrite result_bind.
  destruct (faults env OpReaddir dir); cbn [result disk_after throw ret]; [discriminate|].
  rewrite result_bind. cbn [result disk_after getDisk].
  destruct (Fs.lookup dir d) as [[|es|]|]; cbn; try discriminate.
  intros [= <-]. eauto.
Qed.

(** Two bounds above the height of the tree at [dir] give the same run. *)
Lemma findVideoFileFuel_stable env f1 : forall f2 dir d n,
  Fs.lookup dir d = Some n -> Fs.height n < f1 -> Fs.height n < f2 ->
  findVideoFileFuel f1 env dir d = findVideoFileFuel f2 env dir d.
Proof.
  induction f1 as [|f1 IH]; intros f2 dir d n Hl H1 H2; [lia|].
  destruct f2 as [|f2]; [lia|].
  cbn [findVideoFileFuel]. apply try_catch_congr, bind_congr.
  intros ex _. rewrite readonly_existsSync.
  destruct (negb ex); [reflexivity|].
  apply bind_congr. intros items Hitems. rewrite readonly_readdirSync.
  destruct (find isVideo items); [reflexivity|].
  apply searchSubdirs_ext; [|intros p; apply readonly_findVideoFileFuel].
  intros item Hin Hdir.
  destruct (readdirSync_listing _ _ _ _ Hitems) as (es & Hes & ->).
  apply in_map_iff in Hin as (e & <- & Hin).
  destruct (entry_in _ _ Hin) as [c Hc].
  pose proof (entry_height _ _ _ Hc) as Hh.
  assert (n = Dir es) as -> by congruence.
  apply (IH f2 _ d c); [by rewrite (lookup_child _ _ _ _ Hl)|lia|lia].
Qed.

Lemma searchSubdirs_result search dir items d :
  (forall p, readonly (search p)) ->
  (forall p, exists r, result (search p d) = Normal r) ->
  result (searchSubdirs search dir items d)
  = Normal (firstFound (List.map (fun item => result (search (dir ++ [name item]) d))
                                 (List.filter isDirectory items))).
Proof.
  intros Hro Hret. induction items as [|item items IH]; [reflexivity|].
  cbn [searchSubdirs List.filter].
  destruct (isDirectory item); [|exact IH].
  cbn [List.map firstFound]. rewrite result_bind.
  destruct (Hret (dir ++ [name item])) as [r Hr]. rewrite Hr.
  destruct r as [p|]; [reflexivity|].
  rewrite (Hro _ d). exact IH.
Qed.

(** Without a video at its level, the result for [dir] is the first result
    of its subdirectories, in listing order. *)
Lemma find_descends env dir d es :
  Fs.lookup dir d = Some (Dir es) ->
  faults env OpReaddir dir = None ->
  List.find isVideo (List.map dirent_of es) = None ->
  result (findVideoFile env dir d)
  = Normal (firstFound
              (List.map (fun item => result (findVideoFile env (dir ++ [name item]) d))
                        (List.filter isDirectory (List.map dirent_of es)))).
Proof.
  intros Hl Hf Hfind. unfold findVideoFile at 1. cbn [findVideoFileFuel].
  rewrite result_try_catch, result_bind, run_existsSync. cbn [result disk_after].
  unfold Fs.present. rewrite Hl. cbn [negb].
  rewrite result_bind, (run_readdirSync_ok _ _ _ _ Hf Hl). cbn [result disk_after].
  rewrite Hfind.
  rewrite (searchSubdirs_ext _ (findVideoFile env)).
  - rewrite searchSubdirs_result; [reflexivity|apply readonly_findVideoFile|].
    intros p. apply findVideoFile_returns.
  - intros item Hin Hdir. apply in_map_iff in Hin as (e & <- & Hin).
    destruct (entry_in _ _ Hin) as [c Hc].
    pose proof (entry_height _ _ _ Hc) as Hh.
    pose proof (lookup_height _ _ _ Hl) as Hd.
    unfold findVideoFile.
    apply (findVideoFileFuel_stable env _ _ _ d c);
      [by rewrite (lookup_child _ _ _ _ Hl)|lia|lia].
  - intros p. apply readonly_findVideoFileFuel.
Qed.

Lemma countVideos_entry x es c :
  Fs.entry x es = Some c -> countVideos (Dir es) = 0 -> countVideos c = 0.
Proof.
  induction es as [|e es IH]; [discriminate|].
  rewrite entry_cons. cbn [countVideos fold_right] in *.
  destruct (String.eqb (fst e) x).
  - intros [= <-]. lia.
  - intros H H0. apply IH; [exact H|lia].
Qed.

Lemma countVideos_find es :
  countVideos (Dir es) = 0 -> List.find isVideo (List.map dirent_of es) = None.
Proof.
  induction es as [|e es IH]; [reflexivity|].
  cbn [countVideos fold_right List.map List.find] in *.
  destruct (isVideo (dirent_of e)); [lia|]. intros H. apply IH. lia.
Qed.

Lemma searchSubdirs_nothing search dir items d :
  (forall p, readonly (search p)) ->
  (forall item, In item items -> isDirectory item = true ->
     forall p, result (search (dir ++ [name item]) d) <> Normal (Some p)) ->
  forall p, result (searchSubdirs search dir items d) <> Normal (Some p).
Proof.
  intros Hro. induction items as [|item items IH]; intros H p; [discriminate|].
  cbn [searchSubdirs].
  assert (IH' : forall p, result (searchSubdirs search dir items d) <> Normal (Some p)).
  { apply IH. intros it Hin. apply H. by right. }
  destruct (isDirectory item) eqn:E; [|apply IH'].
  rewrite result_bind.
  destruct (result (search (dir ++ [name item]) d)) as [[q|]|e] eqn:Er.
  - by destruct (H item (or_introl eq_refl) E q).
  - rewrite (Hro _ d). apply IH'.
  - discriminate.
Qed.

Lemma findVideoFileFuel_nothing env fuel : forall dir d n,
  Fs.lookup dir d = Some n -> countVideos n = 0 ->
  forall p, result (findVideoFileFuel fuel env dir d) <> Normal (Some p).
Proof.
  induction fuel as [|fuel IH]; intros dir d n Hl H0 p; [discriminate|].
  cbn [findVideoFileFuel]. rewrite result_try_catch, result_bind, run_existsSync.
  cbn [result disk_after]. unfold Fs.present. rewrite Hl. cbn [negb].
  rewrite result_bind.
  destruct (result (readdirSync env dir d)) as [items|e] eqn:Er; [|discriminate].
  rewrite readonly_readdirSync.
  destruct (readdirSync_listing _ _ _ _ Er) as (es & Hes & ->).
  assert (n = Dir es) as -> by congruence.
  rewrite (countVideos_find _ H0).
  match goal with |- match ?r with _ => _ end <> _ => destruct r as [a|e] eqn:Es end;
    [|discriminate].
  intros [= ->].
  revert Es. apply searchSubdirs_nothing; [intros q; apply readonly_findVideoFileFuel|].
  intros item Hin Hdir q.
  apply in_map_iff in Hin as (e & <- & Hin).
  destruct (entry_in _ _ Hin) as [c Hc].
  apply (IH _ d c); [by rewrite (lookup_child _ _ _ _ Hl)|].
  eapply countVideos_entry; eauto.
Qed.

(** A tree without videos gives [null]. *)
Lemma find_nothing env dir d n :
  Fs.lookup dir d = Some n -> countVideos n = 0 ->
  result (findVideoFile env dir d) = Normal None.
Proof.
  intros Hl H0. destruct (findVideoFile_returns env dir d) as [[p|] Hr]; [|exact Hr].
  exfalso. revert Hr. unfold findVideoFile. by eapply findVideoFileFuel_nothing.
Qed.

(** ** [generateAudio] *)

Lemma bind_emit {B} e (k : unit -> M B) d :
  bind (emit e) k d = after_events [e] (k tt d).
Proof. reflexivity. Qed.

(** The script deletion at the head of the ['close'] handler. *)
Lemma script_unlink env p d :
  p <> [] ->
  let r := try_catch (unlinkSync env p)
             (fun err => console_error ("Error cleaning up script file: " +:+ err)) d in
  result r = Normal tt
  /\ Forall isLog (events r)
  /\ (Fs.present p (disk_after r) = false
      \/ exists e, In (LogError ("Error cleaning up script file: " +:+ e)) (events r))
  /\ (faults env OpUnlink p = None ->
      match Fs.lookup p (disk_after r) with
      | None | Some (Dir _) => True
      | _ => False
      end).
Proof.
  intros Hp r. subst r.
  destruct (result (unlinkSync env p d)) as [[]|e] eqn:E.
  - rewrite (try_catch_normal _ _ _ _ E), E, events_unlinkSync.
    pose proof (unlinkSync_normal _ _ _ E Hp) as Hgone.
    repeat split; [constructor|by left|].
    intros _. unfold Fs.present in Hgone.
    by destruct (Fs.lookup p (disk_after (unlinkSync env p d))).
  - rewrite (try_catch_throw _ _ _ _ E), events_unlinkSync.
    destruct (unlinkSync_throw _ _ _ _ E) as [-> Hwhy].
    cbn. repeat split; [repeat constructor|right; exists e; by left|exact Hwhy].
Qed.

Lemma speech_verdict code (audioFilePath : path) errorOutput d :
  let rest :=
    (ok <- (if isZero code then existsSync audioFilePath else ret false) ;;
     if ok then
       console_log "Audio generated successfully" ;;;
       ret audioFilePath
     else
       console_error ("Audio generation failed: " +:+ errorOutput) ;;;
       throw ("Audio generation failed: " +:+ errorOutput)) in
  disk_after (rest d) = d
  /\ Forall isLog (events (rest d))
  /\ result (rest d)
     = if isZero code && Fs.present audioFilePath d
       then Normal audioFilePath
       else Throw ("Audio generation failed: " +:+ errorOutput).
Proof.
  cbv zeta. destruct (isZero code); cbn; [destruct (Fs.present audioFilePath d); cbn|];
    repeat split; repeat constructor.
Qed.

Lemma onSpeechExit_closed env scriptPath audioFilePath code output errorOutput d :
  scriptPath <> [] ->
  let r := onSpeechExit env scriptPath audioFilePath
             (Closed code output errorOutput) d in
  Forall isLog (events r)
  /\ result r = (if isZero code && Fs.present audioFilePath (disk_after r)
                 then Normal audioFilePath
                 else Throw ("Audio generation failed: " +:+ errorOutput))
  /\ (Fs.present scriptPath (disk_after r) = false
      \/ exists e, In (LogError ("Error cleaning up script file: " +:+ e)) (events r))
  /\ (faults env OpUnlink scriptPath = None ->
      match Fs.lookup scriptPath (disk_after r) with
      | None | Some (Dir _) => True
      | _ => False
      end).
Proof.
  intros Hp r. subst r. cbn [onSpeechExit].
  destruct (script_unlink env scriptPath d Hp) as (Hres & Hlog & Hgone & Hwhy).
  rewrite (bind_normal _ _ _ _ Hres).
  match goal with |- context [after_events ?ev (?rest ?d1)] =>
    destruct (speech_verdict code audioFilePath errorOutput d1) as (Hd & Hl & Hr);
    cbv zeta in Hd, Hl, Hr; set (u := rest d1) in *; set (ev1 := ev) in *
  end.
  cbn [after_events result disk_after events]. rewrite Hd.
  repeat split.
  - apply Forall_app. by split.
  - exact Hr.
  - destruct Hgone as [Hgone|[e He]]; [by left|right]. exists e. apply in_or_app. by left.
  - exact Hwhy.
Qed.

(** A process that could not be started: the rejection of the ['error']
    handler stands, and the ['close'] handler removes the script. *)
Lemma onSpeechExit_failed env scriptPath audioFilePath message d :
  scriptPath <> [] ->
  let r := onSpeechExit env scriptPath audioFilePath (SpawnError message) d in
  Forall isLog (events r)
  /\ result r = Throw ("Failed to start audio generation: " +:+ message)
  /\ (Fs.present scriptPath (disk_after r) = false
      \/ exists e, In (LogError ("Error cleaning up script file: " +:+ e)) (events r))
  /\ (faults env OpUnlink scriptPath = None ->
      match Fs.lookup scriptPath (disk_after r) with
      | None | Some (Dir _) => True
      | _ => False
      end)
  /\ Fs.present audioFilePath (disk_after r)
     = Fs.present audioFilePath
         (disk_after (try_catch (unlinkSync env scriptPath)
            (fun err => console_error ("Error cleaning up script file: " +:+ err)) d)).
Proof.
  intros Hp r. subst r. cbn [onSpeechExit].
  destruct (script_unlink env scriptPath d Hp) as (Hres & Hlog & Hgone & Hwhy).
  rewrite (bind_normal _ _ _ _ Hres).
  match goal with |- context [after_events ?ev _] => set (ev1 := ev) in * end.
  rewrite (bind_normal (console_error _) _ _ tt eq_refl).
  cbn [after_events result disk_after events throw console_error emit app].
  repeat split.
  - apply Forall_app. split; [exact Hlog|]. repeat constructor.
  - destruct Hgone as [Hgone|[e He]]; [by left|right]. exists e. apply in_or_app. by left.
  - exact Hwhy.
Qed.

Lemma run_spawnProcess env cmd args cwd d :
  spawnProcess env cmd args cwd d
  = {| result := Normal (fst (spawn env cmd args cwd d));
       disk_after := snd (spawn env cmd args cwd d);
       events := [Spawned cmd args cwd (fst (spawn env cmd args cwd d))] |}.
Proof. unfold spawnProcess. by destruct (spawn env cmd args cwd d). Qed.

Lemma scriptFileOf_nonempty audioId : scriptFileOf audioId <> [].
Proof. discriminate. Qed.

(** The possible runs of [generateAudio]. *)
Lemma generateAudio_cases env narrationSteps audioId d :
  let r := generateAudio env narrationSteps audioId d in
  let scriptPath := scriptFileOf audioId in
  let audioFilePath := audioFileOf audioId in
  (exists e, result r = Throw e /\ Forall isLog (events r))
  \/ (exists message ev ev',
        events r = ev ++ speechEvent audioId (SpawnError message) :: ev'
        /\ Forall isLog ev /\ Forall isLog ev'
        /\ result r = Throw ("Failed to start audio generation: " +:+ message)
        /\ (Fs.present scriptPath (disk_after r) = false
            \/ exists e, In (LogError ("Error cleaning up script file: " +:+ e)) ev')
        /\ (faults env OpUnlink scriptPath = None ->
            match Fs.lookup scriptPath (disk_after r) with
            | None | Some (Dir _) => True
            | _ => False
            end))
  \/ (exists code output errorOutput ev ev',
        events r = ev ++ speechEvent audioId (Closed code output errorOutput) :: ev'
        /\ Forall isLog ev /\ Forall isLog ev'
        /\ result r = (if isZero code && Fs.present audioFilePath (disk_after r)
                       then Normal audioFilePath
                       else Throw ("Audio generation failed: " +:+ errorOutput))
        /\ (Fs.present scriptPath (disk_after r) = false
            \/ exists e, In (LogError ("Error cleaning up script file: " +:+ e)) ev')
        /\ (faults env OpUnlink scriptPath = None ->
            match Fs.lookup scriptPath (disk_after r) with
            | None | Some (Dir _) => True
            | _ => False
            end)).
Proof.
  cbv zeta. unfold generateAudio.
  match goal with |- context [bind (try_catch ?pre ?h) ?k d] =>
    set (started := try_catch pre h); set (body := pre) in *; set (handler := h) in * end.
  assert (Hstarted :
    (exists e, result (started d) = Throw e /\ Forall isLog (events (started d)))
    \/ (exists o ev, result (started d) = Normal o
                     /\ events (started d) = ev ++ [speechEvent audioId o]
                     /\ Forall isLog ev)).
  { subst started.
    assert (Hbody :
      (exists e, result (body d) = Throw e /\ Forall isLog (events (body d)))
      \/ (exists o ev, result (body d) = Normal o
                       /\ events (body d) = ev ++ [speechEvent audioId o]
                       /\ Forall isLog ev)).
    { subst body.
      rewrite (bind_normal (console_log _) _ d tt eq_refl).
      cbn [events disk_after console_log emit].
      destruct (result (writeFileSync env (scriptFileOf audioId) d)) as [[]|e] eqn:Ew.
      - right. rewrite (bind_normal _ _ _ _ Ew), events_writeFileSync, run_spawnProcess.
        eexists _, [_]. cbn. repeat split. repeat constructor.
      - left. exists e. rewrite (bind_throw _ _ _ _ Ew), events_writeFileSync.
        cbn. split; [reflexivity|]. repeat constructor. }
    clearbody body.
    destruct Hbody as [(e & Hres & Hlog)|(o & ev & Hres & Hev & Hlog)].
    - left. exists e. rewrite (try_catch_throw _ _ _ _ Hres).
      cbn. split; [reflexivity|]. apply Forall_app. split; [exact Hlog|].
      repeat constructor.
    - right. exists o, ev. rewrite (try_catch_normal _ _ _ _ Hres). by repeat split. }
  clearbody started.
  destruct Hstarted as [(e & Hres & Hlog)|(o & ev & Hres & Hev & Hlog)].
  - left. exists e. rewrite (bind_throw _ _ _ _ Hres). cbn. by split.
  - right. rewrite (bind_normal _ _ _ _ Hres), Hev.
    destruct o as [message|code output errorOutput].
    + left. exists message, ev.
      destruct (onSpeechExit_failed env (scriptFileOf audioId) (audioFileOf audioId)
                  message (disk_after (started d))
                  (scriptFileOf_nonempty audioId)) as (Hl & Hr & Hg & Hw & _).
      cbv zeta in Hl, Hr, Hg, Hw.
      eexists. cbn [after_events result disk_after events].
      rewrite <- app_assoc. cbn [app]. repeat split; eauto.
    + right. exists code, output, errorOutput, ev.
      destruct (onSpeechExit_closed env (scriptFileOf audioId) (audioFileOf audioId)
                  code output errorOutput (disk_after (started d))
                  (scriptFileOf_nonempty audioId)) as (Hl & Hr & Hg & Hw).
      cbv zeta in Hl, Hr, Hg, Hw.
      eexists. cbn [after_events result disk_after events].
      rewrite <- app_assoc. cbn [app]. repeat split; eauto.
Qed.

(** ** Cleanup and the answers after it *)

Lemma present_remove_same p d : p <> [] -> Fs.present p (Fs.remove p d) = false.
Proof. intros H. unfold Fs.present. by rewrite lookup_remove_same. Qed.

Lemma present_remove_none p q d :
  Fs.present q d = false -> Fs.present q (Fs.remove p d) = false.
Proof.
  unfold Fs.present. destruct (Fs.lookup q d) eqn:E; [discriminate|].
  intros _. by rewrite lookup_remove_none.
Qed.

Lemma bind_existsSync {B} p (k : bool -> M B) d :
  bind (existsSync p) k d = k (Fs.present p d) d.
Proof. unfold bind. rewrite run_existsSync. cbn. by destruct (k (Fs.present p d) d). Qed.

Lemma present_prune_none p qs q d :
  Fs.present q d = false -> Fs.present q (Fs.prune p qs d) = false.
Proof.
  unfold Fs.present. destruct (Fs.lookup q d) eqn:E; [discriminate|].
  intros _. by rewrite lookup_prune_none.
Qed.

Lemma run_rmSync env p d :
  rmSync env p d
  = match faults env OpRm p with
    | None => {| result := Normal tt; disk_after := Fs.remove p d; events := [] |}
    | Some e =>
        {| result := Throw e; disk_after := Fs.prune p (partlyRemoved env p d) d;
           events := [] |}
    end.
Proof. unfold rmSync, bind. cbn. by destruct (faults env OpRm p). Qed.

(** The run of [deleteDirectory] on a path that exists. *)
Lemma deleteDirectory_present env dir d :
  Fs.present dir d = true ->
  deleteDirectory env dir d
  = match faults env OpRm dir with
    | None =>
        {| result := Normal tt; disk_after := Fs.remove dir d;
           events := [Log ("Successfully deleted directory: " +:+ path_str dir)] |}
    | Some e =>
        {| result := Normal tt;
           disk_after := Fs.prune dir (partlyRemoved env dir d) d;
           events := [LogError ("Error deleting directory " +:+ path_str dir
                                +:+ ": " +:+ e)] |}
    end.
Proof.
  intros H. unfold deleteDirectory, try_catch. rewrite bind_existsSync, H.
  unfold bind. rewrite run_rmSync.
  destruct (faults env OpRm dir); reflexivity.
Qed.

Lemma deleteDirectory_missing env dir d :
  Fs.present dir d = false ->
  deleteDirectory env dir d = {| result := Normal tt; disk_after := d; events := [] |}.
Proof.
  intros H. unfold deleteDirectory, try_catch. by rewrite bind_existsSync, H.
Qed.

(** What [deleteDirectory] leaves on the disk. *)
Lemma deleteDirectory_disk env dir d :
  disk_after (deleteDirectory env dir d) = d
  \/ disk_after (deleteDirectory env dir d) = Fs.remove dir d
  \/ exists qs, disk_after (deleteDirectory env dir d) = Fs.prune dir qs d.
Proof.
  destruct (Fs.present dir d) eqn:E.
  - rewrite (deleteDirectory_present _ _ _ E).
    destruct (faults env OpRm dir); cbn [disk_after]; eauto.
  - rewrite (deleteDirectory_missing _ _ _ E). by left.
Qed.

(** [deleteDirectory] swallows what [rmSync] raises. *)
Lemma deleteDirectory_run env dir d :
  let r := deleteDirectory env dir d in
  result r = Normal tt
  /\ Forall isLog (events r)
  /\ (forall q, Fs.present q d = false -> Fs.present q (disk_after r) = false)
  /\ (dir <> [] -> faults env OpRm dir = None -> Fs.present dir (disk_after r) = false).
Proof.
  cbv zeta. split; [|split; [apply emits_deleteDirectory|]].
  - destruct (Fs.present dir d) eqn:E.
    + rewrite (deleteDirectory_present _ _ _ E). by destruct (faults env OpRm dir).
    + by rewrite (deleteDirectory_missing _ _ _ E).
  - split.
    + intros q Hq.
      destruct (deleteDirectory_disk env dir d) as [->|[->|[qs ->]]];
        [exact Hq|by apply present_remove_none|by apply present_prune_none].
    + intros Hd Hf. destruct (Fs.present dir d) eqn:E.
      * rewrite (deleteDirectory_present _ _ _ E), Hf. by apply present_remove_same.
      * by rewrite (deleteDirectory_missing _ _ _ E).
Qed.

(** The cleanup of a failure path. *)
Lemma cleanUp_run env renderDir audioFilePath d :
  let r := cleanUp env renderDir audioFilePath d in
  Forall isLog (events r)
  /\ (forall q, Fs.present q d = false -> Fs.present q (disk_after r) = false)
  /\ (forall dir, renderDir = Some dir -> dir <> [] -> faults env OpRm dir = None ->
        Fs.present dir (disk_after r) = false)
  /\ (forall file, audioFilePath = Some file -> file <> [] -> result r = Normal tt ->
        Fs.present file (disk_after r) = false).
Proof.
  cbv zeta. split; [apply emits_cleanUp|].
  unfold cleanUp.
  set (first := match renderDir with Some dir => deleteDirectory env dir | None => ret tt end).
  assert (Hfirst : result (first d) = Normal tt
                   /\ (forall q, Fs.present q d = false ->
                         Fs.present q (disk_after (first d)) = false)
                   /\ (forall dir, renderDir = Some dir -> dir <> [] ->
                         faults env OpRm dir = None ->
                         Fs.present dir (disk_after (first d)) = false)).
  { subst first. destruct renderDir as [dir|].
    - destruct (deleteDirectory_run env dir d) as (Hr & _ & Hk & Hg).
      repeat split; auto. intros dir' [= <-]. exact Hg.
    - repeat split; auto. discriminate. }
  clearbody first. destruct Hfirst as (Hr & Hk & Hg).
  rewrite (bind_normal _ _ _ _ Hr). cbn [after_events result disk_after].
  set (d1 := disk_after (first d)) in *.
  destruct audioFilePath as [file|]; [|repeat split; auto; discriminate].
  rewrite bind_existsSync.
  destruct (Fs.present file d1) eqn:Ex; cbn [result disk_after].
  - assert (Hkeep : forall q, Fs.present q d1 = false ->
                      Fs.present q (disk_after (unlinkSync env file d1)) = false).
    { intros q Hq. destruct (result (unlinkSync env file d1)) as [[]|e] eqn:Eu.
      - revert Eu. unfold unlinkSync, checkFault. rewrite result_bind.
        destruct (faults env OpUnlink file); cbn; [discriminate|].
        destruct (Fs.lookup file d1) as [[|es|]|]; cbn; try discriminate;
          intros _; by apply present_remove_none.
      - by destruct (unlinkSync_throw _ _ _ _ Eu) as [-> _]. }
    repeat split.
    + intros q Hq. apply Hkeep. by apply Hk.
    + intros dir Hd Hne Hf. apply Hkeep. by apply Hg.
    + intros file' [= <-] Hne Hn. by apply unlinkSync_normal.
  - repeat split; auto. by intros file' [= <-].
Qed.

Lemma not_log_in ev e : Forall isLog ev -> In e ev -> isLog e.
Proof. intros H Hin. rewrite List.Forall_forall in H. by apply H. Qed.

(** The possible runs of [combineVideoAndAudio]. *)
Lemma combine_cases env videoPath audioPath outputPath d :
  let r := combineVideoAndAudio env videoPath audioPath outputPath d in
  exists outcome ev,
    events r = Spawned "ffmpeg" (ffmpegArgs videoPath audioPath outputPath)
                 None outcome :: ev
    /\ Forall isLog ev
    /\ result r = match outcome with
                  | Closed code output errorOutput =>
                      if isZero code then Normal outputPath
                      else Throw ("FFmpeg failed with code " +:+ showCode code
                                  +:+ ": " +:+ errorOutput)
                  | SpawnError message =>
                      Throw ("Failed to start FFmpeg: " +:+ message)
                  end.
Proof.
  cbv zeta. unfold combineVideoAndAudio.
  rewrite (bind_normal _ _ _ _ (f_equal result (run_spawnProcess _ _ _ _ _))).
  rewrite run_spawnProcess. cbn [result disk_after events after_events].
  destruct (spawn env "ffmpeg" _ None d) as [[message|code output errorOutput] d'];
    cbn [fst snd].
  - exists (SpawnError message). eexists. cbn. repeat split. constructor.
  - exists (Closed code output errorOutput).
    destruct (isZero code) eqn:E; eexists; cbn; repeat split; repeat constructor.
Qed.

Lemma cleaned_after_events {A} env rd af ev (r : Run A) :
  cleaned env rd af r -> cleaned env rd af (after_events ev r).
Proof. intros H. exact H. Qed.

(** A cleanup followed by an answer: the answer is the one written, and
    the disk is cleaned. *)
Lemma answer_run env rd af st fields d :
  let r := (cleanUp env rd af ;;; json st fields) d in
  Forall isLog (events r)
  /\ (forall q, Fs.present q d = false -> Fs.present q (disk_after r) = false)
  /\ cleaned env rd af r
  /\ (forall resp, result r = Normal resp -> resp = {| status := st; body := fields |}).
Proof.
  cbv zeta. destruct (cleanUp_run env rd af d) as (Hlog & Hkeep & Hdir & Hfile).
  cbv zeta in *.
  destruct (result (cleanUp env rd af d)) as [[]|e] eqn:E.
  - rewrite (bind_normal _ _ _ _ E). cbn [after_events result disk_after events json ret].
    rewrite app_nil_r. split; [exact Hlog|]. split; [exact Hkeep|].
    split; [split|].
    + exact Hdir.
    + intros file a Hf Hne _. by apply (Hfile file).
    + by intros resp [= <-].
  - rewrite (bind_throw _ _ _ _ E). cbn [result disk_after events].
    split; [exact Hlog|]. split; [exact Hkeep|]. split; [split|]; [exact Hdir|..];
      intros; discriminate.
Qed.

(** The [catch] block of the handler only logs, cleans up and answers with
    the message of the error. *)
Lemma outerCatch_run env rd af e d :
  let r := outerCatch env rd af e d in
  Forall isLog (events r)
  /\ (forall q, Fs.present q d = false -> Fs.present q (disk_after r) = false)
  /\ cleaned env rd af r
  /\ (forall resp, result r = Normal resp ->
        resp = {| status := 500;
                  body := [ ("error", "Failed to generate animation with audio");
                            ("details", e) ] |}).
Proof.
  cbv zeta. unfold outerCatch, console_error. rewrite bind_emit.
  match goal with |- context [after_events _ (?c d)] =>
    destruct (answer_run env rd af 500
                [ ("error", "Failed to generate animation with audio"); ("details", e) ] d)
      as (Hlog & Hkeep & Hclean & Hresp) end.
  cbv zeta in *. cbn [after_events result disk_after events].
  split; [constructor; [exact I|exact Hlog]|]. split; [exact Hkeep|].
  split; [exact Hclean|exact Hresp].
Qed.

(** The ['error'] handler of the renderer. *)
Lemma onManimError_run env renderDir audioFilePath message d :
  let r := onManimError env renderDir audioFilePath message d in
  Forall isLog (events r)
  /\ cleaned env (Some renderDir) (Some audioFilePath) r
  /\ (forall resp, result r = Normal resp ->
        resp = {| status := 500;
                  body := [ ("error", "Failed to start Manim process");
                            ("details", message) ] |}).
Proof.
  cbv zeta. unfold onManimError, console_error. rewrite bind_emit.
  destruct (answer_run env (Some renderDir) (Some audioFilePath) 500
              [ ("error", "Failed to start Manim process"); ("details", message) ] d)
    as (Hlog & Hkeep & Hclean & Hresp).
  cbv zeta in *. cbn [after_events result disk_after events].
  split; [constructor; [exact I|exact Hlog]|].
  split; [exact Hclean|exact Hresp].
Qed.

Lemma bind_assoc {A B C} (c : M A) (k1 : A -> M B) (k2 : B -> M C) d :
  bind c (fun a => bind (k1 a) k2) d = bind (bind c k1) k2 d.
Proof.
  unfold bind. destruct (result (c d)) as [a|e]; cbn [result disk_after events];
    [|reflexivity].
  destruct (result (k1 a (disk_after (c d)))); cbn [result disk_after events];
    [|reflexivity].
  by rewrite app_assoc.
Qed.

(** The last statements of the success path. *)
Lemma publish_tail env dir file msg st fields d :
  let r := (deleteDirectory env dir ;;;
            ex <- existsSync file ;;
            (if ex then unlinkSync env file else ret tt) ;;;
            console_log msg ;;;
            json st fields) d in
  Forall isLog (events r)
  /\ cleaned env (Some dir) (Some file) r
  /\ (forall resp, result r = Normal resp -> resp = {| status := st; body := fields |}).
Proof.
  cbv zeta.
  rewrite (bind_congr _ _
             (fun _ => (ex <- existsSync file ;;
                        if ex then unlinkSync env file else ret tt) ;;;
                       console_log msg ;;; json st fields))
    by (intros; apply bind_assoc).
  rewrite bind_assoc.
  change (deleteDirectory env dir ;;;
          (ex <- existsSync file ;; if ex then unlinkSync env file else ret tt))
    with (cleanUp env (Some dir) (Some file)).
  destruct (cleanUp_run env (Some dir) (Some file) d) as (Hlog & Hkeep & Hdir & Hfile).
  cbv zeta in *.
  destruct (result (cleanUp env (Some dir) (Some file) d)) as [[]|e] eqn:E.
  - rewrite (bind_normal _ _ _ _ E). cbn [after_events result disk_after events
      console_log bind emit json ret].
    split; [|split; [split|]].
    + apply Forall_app. split; [exact Hlog|]. repeat constructor.
    + exact Hdir.
    + intros f a Hf Hne _. by apply (Hfile f).
    + by intros resp [= <-].
  - rewrite (bind_throw _ _ _ _ E). cbn [result disk_after events].
    split; [exact Hlog|]. split; [split|]; [exact Hdir|..]; intros; discriminate.
Qed.

(** ** The [close] handler of the renderer *)

Lemma emits_combine env v a o : emits fromPublish (combineVideoAndAudio env v a o).
Proof.
  unfold combineVideoAndAudio. emits_step.
  - apply emits_spawnProcess. intros. by right.
  - destruct a0; repeat emits_step; by left.
Qed.

Lemma isLog_fromPublish e : isLog e -> fromPublish e.
Proof. by left. Qed.

Ltac emits_known :=
  first
    [ apply emits_existsSync | apply emits_unlinkSync | apply emits_rmSync
    | apply emits_mkdirSync | apply emits_writeFileSync | apply emits_readdirSync
    | apply emits_combine
    | eapply emits_weaken; [exact isLog_fromPublish|];
      first [ apply emits_cleanUp | apply emits_deleteDirectory
            | apply emits_findVideoFile ] ].

Ltac emits_auto := repeat first [emits_known | emits_step].

Lemma emits_publish env dir file id out err :
  emits fromPublish (publish env dir file id out err).
Proof. unfold publish. emits_auto; by left. Qed.

Lemma emits_onManimClose env dir file id code out err :
  emits fromPublish (onManimClose env dir file id code out err).
Proof. unfold onManimClose. repeat first [apply emits_publish | emits_known | emits_step]; by left. Qed.

Lemma in_publish_events ev args o :
  Forall isLog ev -> ~ In (Spawned "ffmpeg" args None o) ev.
Proof. intros H Hin. exact (not_log_in _ _ H Hin). Qed.

Lemma response_field_output st (e out err : string) :
  field "output" {| status := st; body := [("error", e); ("output", out); ("errorOutput", err)] |} = Some out
  /\ field "errorOutput" {| status := st; body := [("error", e); ("output", out); ("errorOutput", err)] |} = Some err.
Proof. split; reflexivity. Qed.

Lemma in_app_logs (e : event) ev1 ev2 :
  Forall isLog ev1 -> ~ isLog e -> In e (ev1 ++ ev2) -> In e ev2.
Proof.
  intros H Hn Hin. apply in_app_or in Hin as [Hin|Hin]; [|exact Hin].
  destruct (Hn (not_log_in _ _ H Hin)).
Qed.

Lemma spawned_not_log cmd args cwd o : ~ isLog (Spawned cmd args cwd o).
Proof. intros []. Qed.

Lemma isZero_false code : isZero code = true -> code <> Some 0%Z -> False.
Proof. intros H Hn. apply Hn. by apply isZero_true. Qed.

(** The body of the [try] in the ['close'] handler. *)
Lemma publish_run env dir file id out err d :
  let r := publish env dir file id out err d in
  (forall resp, result r = Normal resp -> cleaned env (Some dir) (Some file) r)
  /\ (forall args c o e', In (Spawned "ffmpeg" args None (Closed c o e')) (events r) ->
        c <> Some 0%Z ->
        exists m, result r = Throw m /\ Js.includes e' m = true)
  /\ (forall resp, result r = Normal resp ->
        status resp = 200
        \/ (resp = {| status := 500;
                      body := [ ("error", "No video file generated");
                                ("output", out); ("errorOutput", err) ] |}
            /\ Forall isLog (events r))).
Proof.
  cbv zeta. remember (publish env dir file id out err d) as r eqn:Hr.
  unfold publish in Hr.
  destruct (findVideoFile_returns env dir d) as [v Hv].
  rewrite (bind_normal _ _ _ _ Hv), readonly_findVideoFile in Hr.
  pose proof (emits_findVideoFile env dir d) as Hlogf.
  set (evf := events (findVideoFile env dir d)) in *. clearbody evf.
  destruct v as [vp|].
  - (* a video was found *)
    cbv zeta in Hr. unfold console_log at 1 in Hr. rewrite bind_emit in Hr.
    set (final := (videosDir ++ [id])
                  ++ [Js.replaceFirst ".mp4" (basename vp) +:+ "_with_audio.mp4"]) in *.
    destruct (result (mkdirSync env (videosDir ++ [id]) d)) as [[]|e] eqn:Em.
    + rewrite (bind_normal _ _ _ _ Em), events_mkdirSync in Hr.
      set (d1 := disk_after (mkdirSync env (videosDir ++ [id]) d)) in *. clearbody d1.
      destruct (combine_cases env vp file final d1) as (outcome & ev & Hev & Hlog & Hres).
      cbv zeta in Hev, Hlog, Hres.
      destruct (result (combineVideoAndAudio env vp file final d1)) as [p|m] eqn:Ec.
      * (* combined *)
        rewrite (bind_normal _ _ _ _ Ec), Hev in Hr.
        unfold console_log at 1 in Hr. rewrite bind_emit in Hr.
        set (d2 := disk_after (combineVideoAndAudio env vp file final d1)) in *.
        clearbody d2.
        destruct (publish_tail env dir file "Cleaned up temporary files" 200
                    [("videoUrl", "/videos/" +:+ id +:+ "/"
                        +:+ Js.replaceFirst ".mp4" (basename vp) +:+ "_with_audio.mp4")] d2)
          as (Htl & Htc & Htr).
        cbv zeta in Htl, Htc, Htr.
        match type of Htl with Forall _ (events ?t) => set (tl := t) in * end.
        clearbody tl. subst r. cbn [after_events result disk_after events app].
        split; [intros _ _; exact Htc|]. split.
        -- intros args c o e' Hin Hc. exfalso.
           apply in_app_logs in Hin; [|exact Hlogf|apply spawned_not_log].
           destruct Hin as [Hin|Hin]; [discriminate|].
           destruct Hin as [Hin|Hin].
           ++ injection Hin as _ ->. cbn in Hres.
              destruct (isZero c) eqn:Ez; [|discriminate]. by eapply isZero_false.
           ++ apply in_app_logs in Hin; [|exact Hlog|apply spawned_not_log].
              destruct Hin as [Hin|Hin]; [discriminate|].
              by apply (not_log_in _ _ Htl) in Hin.
        -- intros resp Hresp. left. by rewrite (Htr _ Hresp).
      * (* ffmpeg failed *)
        rewrite (bind_throw _ _ _ _ Ec), Hev in Hr.
        subst r. cbn [after_events result disk_after events app].
        split; [intros; discriminate|]. split; [|intros; discriminate].
        intros args c o e' Hin Hc. exists m. split; [reflexivity|].
        apply in_app_logs in Hin; [|exact Hlogf|apply spawned_not_log].
        destruct Hin as [Hin|Hin]; [discriminate|].
        destruct Hin as [Hin|Hin]; [|by apply (not_log_in _ _ Hlog) in Hin].
        injection Hin as _ ->. cbn in Hres.
        destruct (isZero c); [discriminate|]. injection Hres as Hm. subst m. includes_tac.
    + rewrite (bind_throw _ _ _ _ Em), events_mkdirSync in Hr.
      subst r. cbn [after_events result disk_after events app].
      split; [intros; discriminate|]. split; [|intros; discriminate].
      intros args c o e' Hin _. exfalso.
      apply in_app_logs in Hin; [|exact Hlogf|apply spawned_not_log].
      destruct Hin as [Hin|[]]. discriminate.
  - (* nothing was found *)
    unfold console_error at 1 in Hr. rewrite bind_emit in Hr.
    destruct (answer_run env (Some dir) (Some file) 500
                [ ("error", "No video file generated");
                  ("output", out); ("errorOutput", err) ] d)
      as (Hlog & _ & Hclean & Hresp).
    cbv zeta in Hlog, Hclean, Hresp.
    match type of Hlog with Forall _ (events ?t) => set (tl := t) in * end.
    clearbody tl. subst r. cbn [after_events result disk_after events].
    assert (Hall : Forall isLog
              (evf ++ LogError ("No video file found in render directory: "
                                +:+ path_str dir) :: events tl)).
    { apply Forall_app. split; [exact Hlogf|]. constructor; [exact I|exact Hlog]. }
    split; [intros _ _; exact Hclean|]. split.
    + intros args c o e' Hin _. by apply (not_log_in _ _ Hall) in Hin.
    + intros resp Hr. right. split; [by apply Hresp|exact Hall].
Qed.

(** The ['close'] handler of the renderer: its events, what it leaves on
    disk, and its answers. *)
Lemma onManimClose_run env dir file id code out err d :
  let r := onManimClose env dir file id code out err d in
  Forall fromPublish (events r)
  /\ cleaned env (Some dir) (Some file) r
  /\ (forall resp, result r = Normal resp ->
        status resp = 200 \/ rendererDiagnostics out err (events r) resp).
Proof.
  cbv zeta. split; [apply emits_onManimClose|].
  remember (onManimClose env dir file id code out err d) as r eqn:Hr.
  unfold onManimClose in Hr. unfold console_log at 1 in Hr. rewrite bind_emit in Hr.
  destruct (isZero code) eqn:Ez; cbn [negb] in Hr.
  - (* the renderer exited with code 0 *)
    destruct (publish_run env dir file id out err d) as (Hclean & Hff & Hresp).
    cbv zeta in Hclean, Hff, Hresp.
    destruct (result (publish env dir file id out err d)) as [resp|e] eqn:Ep.
    + rewrite (try_catch_normal _ _ _ _ Ep) in Hr. subst r.
      cbn [after_events result disk_after events app]. rewrite Ep.
      split; [exact (Hclean resp eq_refl)|].
      intros resp' [= <-]. destruct (Hresp resp eq_refl) as [H200|[-> Hlog]]; [by left|].
      right. do 3 (split; [reflexivity|]).
      intros args c o e' [Hin|Hin] _; [discriminate|].
      by apply (not_log_in _ _ Hlog) in Hin.
    + rewrite (try_catch_throw _ _ _ _ Ep) in Hr.
      unfold console_error at 1 in Hr. rewrite bind_emit in Hr.
      destruct (answer_run env (Some dir) (Some file) 500
                  [ ("error", "Error processing generated video with audio");
                    ("details", e); ("output", out); ("errorOutput", err) ]
                  (disk_after (publish env dir file id out err d)))
        as (Hlog & _ & Hcl & Hr').
      cbv zeta in Hlog, Hcl, Hr'.
      match type of Hlog with Forall _ (events ?t) => set (tl := t) in * end.
      clearbody tl. subst r. cbn [after_events result disk_after events app].
      split; [exact Hcl|].
      intros resp Hres. right. rewrite (Hr' _ Hres). do 3 (split; [reflexivity|]).
      intros args c o e' [Hin|Hin] Hc; [discriminate|].
      apply in_app_or in Hin as [Hin|Hin].
      * destruct (Hff _ _ _ _ Hin Hc) as (m & [= <-] & Hm). by exists e.
      * destruct Hin as [Hin|Hin]; [discriminate|]. by apply (not_log_in _ _ Hlog) in Hin.
  - (* the renderer failed *)
    unfold console_error at 1 in Hr. rewrite bind_emit in Hr.
    unfold console_error at 1 in Hr. rewrite bind_emit in Hr.
    destruct (answer_run env (Some dir) (Some file) 500
                [ ("error", "Manim failed with code " +:+ showCode code);
                  ("output", out); ("errorOutput", err) ] d)
      as (Hlog & _ & Hcl & Hr').
    cbv zeta in Hlog, Hcl, Hr'.
    match type of Hlog with Forall _ (events ?t) => set (tl := t) in * end.
    clearbody tl. subst r. cbn [after_events result disk_after events app].
    split; [exact Hcl|].
    intros resp Hres. right. rewrite (Hr' _ Hres). do 3 (split; [reflexivity|]).
    intros args c o e' [Hin|[Hin|[Hin|Hin]]] _; try discriminate.
    by apply (not_log_in _ _ Hlog) in Hin.
Qed.

(** ** The handler, stretch by stretch *)

Lemma isLog_noProcess e : isLog e -> noProcess e.
Proof. by destruct e. Qed.

Lemma noProcess_beforeRender id e : noProcess e -> beforeRender id e.
Proof. by destruct e. Qed.

Lemma isLog_beforeRender id e : isLog e -> beforeRender id e.
Proof. by destruct e. Qed.

Lemma readonly_askModel env p : readonly (askModel env p).
Proof. unfold askModel. repeat readonly_step. Qed.

Lemma readonly_generateNarrationSteps env code : readonly (generateNarrationSteps env code).
Proof.
  unfold generateNarrationSteps, parseSteps.
  repeat first [apply readonly_askModel | readonly_step].
Qed.

Lemma readonly_generateManimScript env code steps :
  readonly (generateManimScript env code steps).
Proof.
  unfold generateManimScript. repeat first [apply readonly_askModel | readonly_step].
Qed.

Lemma emits_askModel env p : emits noProcess (askModel env p).
Proof. unfold askModel. repeat emits_step. Qed.

Lemma emits_generateNarrationSteps env code :
  emits noProcess (generateNarrationSteps env code).
Proof.
  unfold generateNarrationSteps, parseSteps.
  repeat first [apply emits_askModel | emits_step].
Qed.

Lemma emits_generateManimScript env code steps :
  emits noProcess (generateManimScript env code steps).
Proof.
  unfold generateManimScript. repeat first [apply emits_askModel | emits_step].
Qed.

Lemma generateManimScript_id env code steps d script :
  result (generateManimScript env code steps d) = Normal script ->
  fst script = uuidv4 env.
Proof.
  unfold generateManimScript. rewrite result_try_catch, result_bind.
  destruct (result (askModel env (ManimPrompt steps code) d)); cbn.
  - by intros [= <-].
  - discriminate.
Qed.

Lemma emits_generateAudio env steps id : emits (beforeRender id) (generateAudio env steps id).
Proof.
  intros d.
  destruct (generateAudio_cases env steps id d)
    as [(e & _ & Hlog)|[(m & ev & ev' & -> & Hl & Hl' & _)
                       |(c & o & e' & ev & ev' & -> & Hl & Hl' & _)]].
  - eapply List.Forall_impl; [apply isLog_beforeRender|exact Hlog].
  - apply Forall_app. split; [eapply List.Forall_impl; [apply isLog_beforeRender|exact Hl]|].
    constructor; [reflexivity|]. eapply List.Forall_impl; [apply isLog_beforeRender|exact Hl'].
  - apply Forall_app. split; [eapply List.Forall_impl; [apply isLog_beforeRender|exact Hl]|].
    constructor; [reflexivity|]. eapply List.Forall_impl; [apply isLog_beforeRender|exact Hl'].
Qed.

Lemma after_events_app {A} ev1 ev2 (r : Run A) :
  after_events ev1 (after_events ev2 r) = after_events (ev1 ++ ev2) r.
Proof. unfold after_events. cbn. by rewrite app_assoc. Qed.

Lemma after_events_nil {A} (r : Run A) : after_events [] r = r.
Proof. by destruct r. Qed.

Lemma speech_in_logs id o ev ev' e :
  Forall isLog ev -> Forall isLog ev' ->
  In (speechEvent id o) (ev ++ e :: ev') -> e = speechEvent id o.
Proof.
  intros H H' Hin. apply in_app_logs in Hin; [|exact H|apply spawned_not_log].
  destruct Hin as [Hin|Hin]; [exact Hin|].
  destruct (spawned_not_log _ _ _ _ (not_log_in _ _ H' Hin)).
Qed.

Lemma generateAudio_rejects env steps id d e code out err :
  result (generateAudio env steps id d) = Throw e ->
  In (speechEvent id (Closed code out err)) (events (generateAudio env steps id d)) ->
  e = "Audio generation failed: " +:+ err.
Proof.
  intros Hres Hin.
  destruct (generateAudio_cases env steps id d)
    as [(e0 & _ & Hlog)|[(m & ev & ev' & Hev & Hl & Hl' & _)
                        |(c & o & e' & ev & ev' & Hev & Hl & Hl' & Hr & _)]].
  - destruct (spawned_not_log _ _ _ _ (not_log_in _ _ Hlog Hin)).
  - rewrite Hev in Hin. apply speech_in_logs in Hin; [discriminate|exact Hl|exact Hl'].
  - rewrite Hev in Hin. apply speech_in_logs in Hin; [|exact Hl|exact Hl'].
    injection Hin as -> -> ->. rewrite Hres in Hr.
    destruct (isZero code && Fs.present (audioFileOf id) _); [discriminate|congruence].
Qed.

Lemma generateAudio_resolves env steps id d p :
  result (generateAudio env steps id d) = Normal p -> p = audioFileOf id.
Proof.
  intros Hres.
  destruct (generateAudio_cases env steps id d)
    as [(e0 & He & _)|[(m & ev & ev' & _ & _ & _ & He & _)
                      |(c & o & e' & ev & ev' & _ & _ & _ & Hr & _)]];
    try congruence.
  rewrite Hres in Hr.
  destruct (isZero c && Fs.present (audioFileOf id) _); congruence.
Qed.

Lemma processes_app ev1 ev2 : processes (ev1 ++ ev2) = processes ev1 ++ processes ev2.
Proof. apply List.filter_app. Qed.

Lemma processes_none ev : Forall noProcess ev -> processes ev = [].
Proof.
  induction 1 as [|e ev He _ IH]; [done|]. unfold processes in *. cbn [List.filter].
  destruct e; try done. 
Qed.

Lemma processes_logs ev : Forall isLog ev -> processes ev = [].
Proof.
  intros H. apply processes_none. eapply List.Forall_impl; [|exact H].
  apply isLog_noProcess.
Qed.

Lemma exitedZero_closed code out err : isZero code = true -> exitedZero (Closed code out err).
Proof. intros H. apply isZero_true in H. by subst. Qed.


(** The processes of [generateAudio]: at most the speech process, and it
    exited with code 0 when the promise resolves. *)
Lemma generateAudio_processes env steps id d :
  let r := generateAudio env steps id d in
  (processes (events r) = [] /\ exists e, result r = Throw e)
  \/ (exists o, processes (events r) = [speechEvent id o]
                /\ (forall p, result r = Normal p -> exitedZero o)).
Proof.
  cbv zeta.
  destruct (generateAudio_cases env steps id d)
    as [(e & Hres & Hlog)|[(m & ev & ev' & Hev & Hl & Hl' & Hres & _)
                          |(c & o & e' & ev & ev' & Hev & Hl & Hl' & Hres & _)]];
    cbv zeta in *.
  - left. split; [by apply processes_logs|eauto].
  - right. exists (SpawnError m). rewrite Hev, processes_app, (processes_logs _ Hl).
    change (speechEvent id (SpawnError m) :: ev')
      with ([speechEvent id (SpawnError m)] ++ ev').
    rewrite processes_app, (processes_logs _ Hl'). split; [reflexivity|].
    intros p. congruence.
  - right. exists (Closed c o e'). rewrite Hev, processes_app, (processes_logs _ Hl).
    change (speechEvent id (Closed c o e') :: ev')
      with ([speechEvent id (Closed c o e')] ++ ev').
    rewrite processes_app, (processes_logs _ Hl'). split; [reflexivity|].
    intros p Hp. rewrite Hp in Hres.
    destruct (isZero c) eqn:Ez; [by apply exitedZero_closed|discriminate].
Qed.

(** The speech process is started exactly when the script could be
    written, and what it reports is what the environment gives for
    [python] and the script on the disk after the write. *)
Lemma generateAudio_written env steps id d :
  let r := generateAudio env steps id d in
  let written := writeFileSync env (scriptFileOf id) d in
  match result written with
  | Throw e => result r = Throw e /\ processes (events r) = []
  | Normal _ =>
      processes (events r)
      = [speechEvent id (fst (spawn env "python" [path_str (scriptFileOf id)] None
                                (disk_after written)))]
  end.
Proof.
  cbv zeta. unfold generateAudio.
  match goal with |- context [bind (try_catch ?pre ?h) ?k d] =>
    set (body := pre); set (handler := h); set (rest := k) end.
  destruct (result (writeFileSync env (scriptFileOf id) d)) as [[]|e] eqn:Ew.
  - set (o := fst (spawn env "python" [path_str (scriptFileOf id)] None
                     (disk_after (writeFileSync env (scriptFileOf id) d)))).
    assert (Hbody : result (body d) = Normal o
                    /\ processes (events (body d)) = [speechEvent id o]).
    { subst body. rewrite (bind_normal (console_log _) _ d tt eq_refl).
      rewrite (bind_normal _ _ _ _ Ew), events_writeFileSync, run_spawnProcess.
      split; reflexivity. }
    destruct Hbody as (Hres & Hev).
    assert (Hstart : result (try_catch body handler d) = Normal o)
      by (by rewrite (try_catch_normal _ _ _ _ Hres)).
    rewrite (bind_normal _ _ _ _ Hstart), (try_catch_normal _ _ _ _ Hres).
    cbn [after_events events]. rewrite processes_app, Hev. subst rest. cbv beta.
    rewrite processes_logs; [reflexivity|].
    destruct o as [message|code output errorOutput].
    + apply (onSpeechExit_failed env _ _ message _ (scriptFileOf_nonempty id)).
    + apply (onSpeechExit_closed env _ _ code output errorOutput _
               (scriptFileOf_nonempty id)).
  - assert (Hbody : result (body d) = Throw e /\ processes (events (body d)) = []).
    { subst body. rewrite (bind_normal (console_log _) _ d tt eq_refl).
      rewrite (bind_throw _ _ _ _ Ew), events_writeFileSync. by split. }
    destruct Hbody as (Hres & Hev).
    assert (Hstart : result (try_catch body handler d) = Throw e
                     /\ processes (events (try_catch body handler d)) = []).
    { rewrite (try_catch_throw _ _ _ _ Hres). subst handler. cbv beta.
      cbn [after_events result events]. rewrite processes_app, Hev.
      by split. }
    destruct Hstart as (Hs & Hp). by rewrite (bind_throw _ _ _ _ Hs).
Qed.

Lemma bind_inv_normal {A B} (c : M A) (k : A -> M B) d b :
  result (bind c k d) = Normal b ->
  exists a, result (c d) = Normal a /\ result (k a (disk_after (c d))) = Normal b.
Proof. rewrite result_bind. destruct (result (c d)) as [a|e]; [eauto|discriminate]. Qed.

(** The runs of the handler, by the stretch of the [try] block they leave. *)
Lemma getAnimation_cases env approach d :
  let r := getAnimation env (Some approach) d in
  let id := uuidv4 env in
  let dir := rendersDir ++ [id] in
  let file := audioFileOf id in
  (exists e ev,
     r = after_events ev (outerCatch env None None e d)
     /\ Forall noProcess ev)
  \/ (exists e ev d2,
        r = after_events ev (outerCatch env (Some dir) None e d2)
        /\ Forall (beforeRender id) ev
        /\ (forall code out err,
              In (speechEvent id (Closed code out err)) ev ->
              e = "Audio generation failed: " +:+ err))
  \/ (exists ev d3 o,
        r = after_events (ev ++ [Spawned "python" manimArgs (Some dir) o])
              match o with
              | Closed code out err => onManimClose env dir file id code out err d3
              | SpawnError message => onManimError env dir file message d3
              end
        /\ Forall (beforeRender id) ev).
Proof.
  cbv zeta. unfold getAnimation.
  match goal with |- context [guarded ?s ?h ?k d] => set (S1 := s); set (K1 := k) end.
  assert (H1 : readonly S1 /\ emits noProcess S1
               /\ forall steps script, result (S1 d) = Normal (steps, script) ->
                    fst script = uuidv4 env).
  { subst S1. split; [|split].
    - unfold readCode.
      repeat first [apply readonly_generateNarrationSteps
                   | apply readonly_generateManimScript | readonly_step].
    - unfold readCode.
      repeat first [apply emits_generateNarrationSteps
                   | apply emits_generateManimScript | emits_step].
    - intros steps script H.
      apply bind_inv_normal in H as (? & _ & H).
      apply bind_inv_normal in H as (? & _ & H).
      apply bind_inv_normal in H as (c & _ & H).
      apply bind_inv_normal in H as (steps0 & _ & H).
      apply bind_inv_normal in H as (script0 & Hs & H).
      cbn in H. injection H as _ <-. exact (generateManimScript_id _ _ _ _ _ Hs). }
  destruct H1 as (Hro1 & Hev1 & Hid).
  specialize (Hro1 d). specialize (Hev1 d). clearbody S1.
  destruct (result (S1 d)) as [[steps [sid content]]|e] eqn:E1.
  2:{ left. exists e, (events (S1 d)). rewrite (guarded_throw _ _ _ _ _ E1), Hro1. by split. }
  right. rewrite (guarded_normal _ _ _ _ _ E1), Hro1.
  specialize (Hid _ _ eq_refl). cbn [fst] in Hid. subst sid K1. cbv beta iota zeta.
  pose proof Hev1 as Hnp1.
  apply (List.Forall_impl _ (noProcess_beforeRender (uuidv4 env))) in Hev1.
  set (ev1 := events (S1 d)) in *. clearbody ev1. clear E1 Hro1.
  set (id := uuidv4 env) in *. set (dir := rendersDir ++ [id]).
  match goal with |- context [guarded ?s ?h ?k d] => set (S2 := s); set (K2 := k) end.
  assert (H2 : emits (beforeRender id) S2
               /\ (forall p, result (S2 d) = Normal p -> p = audioFileOf id)
               /\ (forall e code out err, result (S2 d) = Throw e ->
                     In (speechEvent id (Closed code out err)) (events (S2 d)) ->
                     e = "Audio generation failed: " +:+ err)).
  { subst S2. split; [|].
    - repeat first [apply emits_generateAudio | apply emits_mkdirSync
                   | apply emits_writeFileSync | emits_step].
    - destruct (result (mkdirSync env dir d)) as [[]|e] eqn:Em.
      2:{ rewrite (bind_throw _ _ _ _ Em), events_mkdirSync. cbn.
          split; [discriminate|]. by intros. }
      rewrite (bind_normal _ _ _ _ Em), events_mkdirSync, after_events_nil.
      set (d1 := disk_after (mkdirSync env dir d)). clearbody d1.
      destruct (result (writeFileSync env (dir ++ ["animation.py"]) d1)) as [[]|e] eqn:Ew.
      2:{ rewrite (bind_throw _ _ _ _ Ew), events_writeFileSync. cbn.
          split; [discriminate|]. by intros. }
      rewrite (bind_normal _ _ _ _ Ew), events_writeFileSync, after_events_nil.
      split.
      + apply generateAudio_resolves.
      + intros e code out err. apply generateAudio_rejects. }
  destruct H2 as (Hev2 & Hres2 & Hrej2). specialize (Hev2 d). clearbody S2.
  destruct (result (S2 d)) as [audioFilePath|e] eqn:E2.
  2:{ left. exists e, (ev1 ++ events (S2 d)), (disk_after (S2 d)).
      rewrite (guarded_throw _ _ _ _ _ E2), after_events_app.
      split; [reflexivity|]. split; [apply Forall_app; by split|].
      intros code out err Hin. apply in_app_or in Hin as [Hin|Hin].
      - rewrite List.Forall_forall in Hnp1. destruct (Hnp1 _ Hin).
      - by eapply Hrej2. }
  right. rewrite (guarded_normal _ _ _ _ _ E2), after_events_app.
  rewrite (Hres2 _ eq_refl). subst K2. cbv beta.
  set (d2 := disk_after (S2 d)). clearbody d2.
  assert (Hev12 : Forall (beforeRender id) (ev1 ++ events (S2 d)))
    by (apply Forall_app; by split).
  set (ev12 := ev1 ++ events (S2 d)) in *. clearbody ev12.
  clear Hres2 Hrej2 E2 Hev2 Hev1 Hnp1.
  match goal with |- context [guarded ?s ?h ?k d2] => set (S3 := s); set (K3 := k) end.
  set (o := fst (spawn env "python" manimArgs (Some dir) d2)).
  set (d3 := snd (spawn env "python" manimArgs (Some dir) d2)).
  assert (E3 : S3 d2 = {| result := Normal o; disk_after := d3;
                          events := [ Log ("Audio generated at: " +:+ path_str (audioFileOf id));
                                      Log ("Running Manim in directory: " +:+ path_str dir);
                                      Log ("Script path: " +:+ path_str (dir ++ ["animation.py"]));
                                      Spawned "python" manimArgs (Some dir) o ] |}).
  { subst S3. unfold console_log. rewrite !bind_emit, run_spawnProcess. reflexivity. }
  clearbody S3.
  rewrite (guarded_normal _ _ _ _ o) by (by rewrite E3).
  rewrite E3. cbn [result disk_after events]. rewrite after_events_app.
  exists (ev12 ++ [ Log ("Audio generated at: " +:+ path_str (audioFileOf id));
                    Log ("Running Manim in directory: " +:+ path_str dir);
                    Log ("Script path: " +:+ path_str (dir ++ ["animation.py"])) ]),
         d3, o.
  split.
  - rewrite <- app_assoc. subst K3. cbv beta. by destruct o.
  - apply Forall_app. split; [exact Hev12|]. by repeat constructor.
Qed.

Lemma manim_not_before id cwd o : ~ beforeRender id (Spawned "python" manimArgs cwd o).
Proof. cbn. unfold speechEvent. intros [=]. Qed.

Lemma ffmpeg_not_before id args cwd o : ~ beforeRender id (Spawned "ffmpeg" args cwd o).
Proof. cbn. unfold speechEvent. intros [=]. Qed.

Lemma manim_not_publish cwd o : ~ fromPublish (Spawned "python" manimArgs cwd o).
Proof. intros [[]|[=]]. Qed.

Lemma forall_in (P : event -> Prop) ev e : Forall P ev -> In e ev -> P e.
Proof. intros H Hin. rewrite List.Forall_forall in H. by apply H. Qed.

(** ** The code that is visualized *)

Lemma noQuestion_aboutCode chosen e : noQuestion e -> aboutCode chosen e.
Proof. by destruct e. Qed.

Lemma isLog_noQuestion e : isLog e -> noQuestion e.
Proof. by destruct e. Qed.

Lemma fromPublish_noQuestion e : fromPublish e -> noQuestion e.
Proof. destruct e; cbn; try tauto. by intros [[]|[]]. Qed.

Lemma emits_generateAudio_noQuestion env steps id :
  emits noQuestion (generateAudio env steps id).
Proof.
  intros d.
  destruct (generateAudio_cases env steps id d)
    as [(e & _ & Hlog)|[(m & ev & ev' & -> & Hl & Hl' & _)
                       |(c & o & e' & ev & ev' & -> & Hl & Hl' & _)]].
  - eapply List.Forall_impl; [apply isLog_noQuestion|exact Hlog].
  - apply Forall_app. split; [eapply List.Forall_impl; [apply isLog_noQuestion|exact Hl]|].
    constructor; [exact I|]. eapply List.Forall_impl; [apply isLog_noQuestion|exact Hl'].
  - apply Forall_app. split; [eapply List.Forall_impl; [apply isLog_noQuestion|exact Hl]|].
    constructor; [exact I|]. eapply List.Forall_impl; [apply isLog_noQuestion|exact Hl'].
Qed.

Lemma emits_aboutCode_getAnimation env approach c :
  code approach = Some c ->
  emits (aboutCode (selectCode c)) (getAnimation env (Some approach)).
Proof.
  intros Hc.
  assert (Hlogs : forall A (m : M A), emits isLog m -> emits (aboutCode (selectCode c)) m).
  { intros A m. apply emits_weaken. intros e He.
    by apply noQuestion_aboutCode, isLog_noQuestion. }
  unfold getAnimation. apply emits_guarded.
  - unfold readCode. rewrite Hc.
    emits_step; [emits_step|]. emits_step; [emits_step|].
    intros d. unfold bind at 1. cbn [result disk_after events ret app].
    revert d. change (emits (aboutCode (selectCode c))
      (narrationSteps <- generateNarrationSteps env (selectCode c) ;;
       script <- generateManimScript env (selectCode c) narrationSteps ;;
       console_log ("Generated Manim script with ID: " +:+ script.1) ;;;
       ret (narrationSteps, script))).
    unfold generateNarrationSteps, generateManimScript, askModel, parseSteps.
    repeat emits_step.
  - intros e. apply Hlogs. intros d. apply outerCatch_run.
  - intros [steps [sid content]]. apply emits_guarded.
    + emits_step; [apply emits_mkdirSync|]. emits_step; [apply emits_writeFileSync|].
      eapply emits_weaken; [apply noQuestion_aboutCode|apply emits_generateAudio_noQuestion].
    + intros e. apply Hlogs. intros d. apply outerCatch_run.
    + intros audioFilePath. apply emits_guarded.
      * repeat emits_step. by apply emits_spawnProcess.
      * intros e. apply Hlogs. intros d. apply outerCatch_run.
      * intros [message|code0 out err].
        -- apply Hlogs. intros d. apply onManimError_run.
        -- eapply emits_weaken; [|apply emits_onManimClose].
           intros e He. by apply noQuestion_aboutCode, fromPublish_noQuestion.
Qed.

Lemma events_bind {A B} (c : M A) (k : A -> M B) d :
  events (bind c k d)
  = events (c d) ++ match result (c d) with
                    | Normal a => events (k a (disk_after (c d)))
                    | Throw _ => []
                    end.
Proof. unfold bind. destruct (result (c d)); cbn; by rewrite ?app_nil_r. Qed.

Lemma events_try_catch {A} (c : M A) h d :
  events (try_catch c h d)
  = events (c d) ++ match result (c d) with
                    | Normal _ => []
                    | Throw e => events (h e (disk_after (c d)))
                    end.
Proof. unfold try_catch. destruct (result (c d)); cbn; by rewrite ?app_nil_r. Qed.

Lemma narration_asked_first env x d :
  exists rest, events (generateNarrationSteps env x d) = Asked (NarrationPrompt x) :: rest.
Proof.
  unfold generateNarrationSteps. rewrite events_try_catch, events_bind.
  unfold askModel at 1. rewrite events_bind. cbn [events emit app]. eauto.
Qed.

(** ** Removal faults do not change the answer *)

Lemma deleteDirectory_agree env dir file d :
  apart dir file -> agree file d (disk_after (deleteDirectory env dir d)).
Proof.
  intros Hap. unfold agree. destruct dir as [|x p]; [destruct Hap|].
  destruct file as [|z q]; [destruct Hap|]. cbn in Hap.
  destruct (deleteDirectory_disk env (x :: p) d) as [->|[->|[qs ->]]]; [reflexivity| |];
    symmetry; [by apply lookup_remove_apart|by apply lookup_prune_apart].
Qed.

(** The audio half of the cleanup only looks at the audio file. *)
Lemma unlink_guarded_agree env file d d' :
  file <> [] -> agree file d d' ->
  let c := (ex <- existsSync file ;; if ex then unlinkSync env file else ret tt) in
  result (c d') = result (c d) /\ agree file (disk_after (c d)) (disk_after (c d')).
Proof.
  intros Hne Hag. cbv zeta. rewrite !bind_existsSync. unfold Fs.present.
  unfold agree in *. rewrite <- Hag.
  destruct (Fs.lookup file d) as [n|] eqn:El; [|split; [reflexivity|cbn; congruence]].
  unfold unlinkSync, checkFault, bind.
  destruct (faults env OpUnlink file); cbn [result disk_after events throw ret getDisk];
    [split; [reflexivity|congruence]|].
  rewrite <- Hag, El.
  destruct n; cbn [result disk_after events throw setDisk];
    (split; [reflexivity|]); try congruence; by rewrite !lookup_remove_same.
Qed.

Lemma sameOutcome_refl {A} file (r : Run A) : sameOutcome file r r.
Proof. by split. Qed.

Lemma sameOutcome_after_events {A} file ev' ev (r' r : Run A) :
  sameOutcome file r' r -> sameOutcome file (after_events ev' r') (after_events ev r).
Proof. intros H. exact H. Qed.

Lemma sameOutcome_bind_same {A B} file (c' c : M A) (k' k : A -> M B) d :
  c' d = c d ->
  (forall a, result (c d) = Normal a ->
     sameOutcome file (k' a (disk_after (c d))) (k a (disk_after (c d)))) ->
  sameOutcome file (bind c' k' d) (bind c k d).
Proof.
  intros Hc Hk. unfold bind. rewrite Hc.
  destruct (result (c d)) as [a|e]; [|by split].
  exact (Hk a eq_refl).
Qed.

Lemma json_same file st fields d1 d1' :
  agree file d1 d1' -> sameOutcome file (json st fields d1') (json st fields d1).
Proof. by split. Qed.

Lemma log_json_same file msg st fields d1 d1' :
  agree file d1 d1' ->
  sameOutcome file ((console_log msg ;;; json st fields) d1')
                   ((console_log msg ;;; json st fields) d1).
Proof. by split. Qed.

Lemma guarded_result_congr {A B} (c' c : M A) (h' h : error -> M B) k' k d :
  c' d = c d ->
  (forall e, result (h' e (disk_after (c d))) = result (h e (disk_after (c d)))) ->
  (forall a, result (c d) = Normal a ->
     result (k' a (disk_after (c d))) = result (k a (disk_after (c d)))) ->
  result (guarded c' h' k' d) = result (guarded c h k d).
Proof.
  intros Hc Hh Hk. rewrite !result_guarded, Hc.
  destruct (result (c d)) as [a|e]; [by apply Hk|apply Hh].
Qed.

Lemma renders_apart_audio id : apart (rendersDir ++ [id]) (audioFileOf id).
Proof. cbn. discriminate. Qed.

Lemma audioFileOf_nonempty id : audioFileOf id <> [].
Proof. discriminate. Qed.

Section RemovalFaults.

(** The environment [env], and the same environment with removal faults
    [g]. *)
Variable g : path -> option error.
Variable env : Env.

Lemma generateAudio_rm steps id d :
  generateAudio (withRmFaults g env) steps id d = generateAudio env steps id d.
Proof. reflexivity. Qed.

Lemma combine_rm v a o d :
  combineVideoAndAudio (withRmFaults g env) v a o d = combineVideoAndAudio env v a o d.
Proof. reflexivity. Qed.

Lemma findVideoFileFuel_rm fuel : forall dir d,
  findVideoFileFuel fuel (withRmFaults g env) dir d = findVideoFileFuel fuel env dir d.
Proof.
  induction fuel as [|fuel IH]; intros dir d; [reflexivity|].
  cbn [findVideoFileFuel]. apply try_catch_congr, bind_congr. intros ex _.
  destruct (negb ex); [reflexivity|].
  change (readdirSync (withRmFaults g env) dir) with (readdirSync env dir).
  apply bind_congr. intros items _.
  destruct (find isVideo items); [reflexivity|].
  apply searchSubdirs_ext; [|intros p; apply readonly_findVideoFileFuel].
  intros item _ _. apply IH.
Qed.

Lemma findVideoFile_rm dir d :
  findVideoFile (withRmFaults g env) dir d = findVideoFile env dir d.
Proof. apply findVideoFileFuel_rm. Qed.

(** With and without removal faults the cleanup ends alike, on disks that
    agree at the audio file. *)
Lemma cleanUp_rm dir file d d' :
  file <> [] -> apart dir file -> agree file d d' ->
  result (cleanUp (withRmFaults g env) (Some dir) (Some file) d')
  = result (cleanUp env (Some dir) (Some file) d)
  /\ agree file (disk_after (cleanUp env (Some dir) (Some file) d))
       (disk_after (cleanUp (withRmFaults g env) (Some dir) (Some file) d')).
Proof.
  intros Hne Hap Hag. unfold cleanUp.
  destruct (deleteDirectory_run env dir d) as (Hr & _).
  destruct (deleteDirectory_run (withRmFaults g env) dir d') as (Hr' & _).
  cbv zeta in Hr, Hr'.
  rewrite (bind_normal _ _ _ _ Hr), (bind_normal _ _ _ _ Hr').
  cbn [after_events result disk_after].
  change (fun ex : bool => if ex then unlinkSync (withRmFaults g env) file else ret ())
    with (fun ex : bool => if ex then unlinkSync env file else ret ()).
  apply (unlink_guarded_agree env file); [exact Hne|].
  pose proof (deleteDirectory_agree env dir file d Hap) as H1.
  pose proof (deleteDirectory_agree (withRmFaults g env) dir file d' Hap) as H2.
  unfold agree in *. congruence.
Qed.

(** The cleanup followed by statements that only log and answer. *)
Lemma answer_rm dir file (k' k : M Response) d d' :
  file <> [] -> apart dir file -> agree file d d' ->
  (forall d1 d1', agree file d1 d1' -> sameOutcome file (k' d1') (k d1)) ->
  sameOutcome file
    ((cleanUp (withRmFaults g env) (Some dir) (Some file) ;;; k') d')
    ((cleanUp env (Some dir) (Some file) ;;; k) d).
Proof.
  intros Hne Hap Hag Hk.
  destruct (cleanUp_rm dir file d d' Hne Hap Hag) as [Hr Hd].
  unfold bind. rewrite Hr.
  destruct (result (cleanUp env (Some dir) (Some file) d)) as [[]|e].
  - exact (Hk _ _ Hd).
  - by split.
Qed.

Lemma publish_rm dir file id out err d :
  file <> [] -> apart dir file ->
  sameOutcome file (publish (withRmFaults g env) dir file id out err d)
                   (publish env dir file id out err d).
Proof.
  intros Hne Hap. unfold publish.
  apply sameOutcome_bind_same; [apply findVideoFile_rm|]. intros [vp|] _.
  - rewrite readonly_findVideoFile. cbv zeta.
    apply sameOutcome_bind_same; [reflexivity|]. intros _ _.
    apply sameOutcome_bind_same; [reflexivity|]. intros _ _.
    apply sameOutcome_bind_same; [reflexivity|]. intros _ _.
    apply sameOutcome_bind_same; [reflexivity|]. intros _ _.
    match goal with |- sameOutcome _ (_ ?d1) _ => set (d0 := d1) end. clearbody d0.
    match goal with
    | |- sameOutcome _ ((_ ;;; ex <- _ ;; _ ;;; ?K) d0) _ =>
        rewrite (bind_congr (deleteDirectory (withRmFaults g env) dir) _
                   (fun _ => (ex <- existsSync file ;;
                              if ex then unlinkSync (withRmFaults g env) file else ret tt) ;;; K))
          by (intros; apply bind_assoc);
        rewrite (bind_congr (deleteDirectory env dir) _
                   (fun _ => (ex <- existsSync file ;;
                              if ex then unlinkSync env file else ret tt) ;;; K))
          by (intros; apply bind_assoc)
    end.
    rewrite (bind_assoc (deleteDirectory (withRmFaults g env) dir)),
      (bind_assoc (deleteDirectory env dir)).
    apply (answer_rm dir file); [exact Hne|exact Hap|reflexivity|].
    intros d1 d1'. apply log_json_same.
  - rewrite readonly_findVideoFile.
    apply sameOutcome_bind_same; [reflexivity|]. intros _ _.
    apply (answer_rm dir file); [exact Hne|exact Hap|reflexivity|].
    intros d1 d1'. apply json_same.
Qed.

Lemma onManimClose_rm dir file id code out err d :
  file <> [] -> apart dir file ->
  result (onManimClose (withRmFaults g env) dir file id code out err d)
  = result (onManimClose env dir file id code out err d).
Proof.
  intros Hne Hap.
  cut (sameOutcome file (onManimClose (withRmFaults g env) dir file id code out err d)
                        (onManimClose env dir file id code out err d)); [by intros []|].
  unfold onManimClose.
  apply sameOutcome_bind_same; [reflexivity|]. intros _ _.
  cbn [disk_after console_log emit].
  destruct (negb (isZero code)).
  - apply sameOutcome_bind_same; [reflexivity|]. intros _ _.
    apply sameOutcome_bind_same; [reflexivity|]. intros _ _.
    apply (answer_rm dir file); [exact Hne|exact Hap|reflexivity|].
    intros d1 d1'. apply json_same.
  - pose proof (publish_rm dir file id out err d Hne Hap) as Hs.
    destruct Hs as [Hr Hd]. pose proof (conj Hr Hd : sameOutcome file _ _) as Hs.
    unfold try_catch. rewrite Hr.
    destruct (result (publish env dir file id out err d)) as [resp|e] eqn:E.
    + exact Hs.
    + apply sameOutcome_after_events.
      unfold console_error. rewrite !bind_emit.
      apply sameOutcome_after_events.
      apply (answer_rm dir file); [exact Hne|exact Hap|exact Hd|].
      intros d1 d1'. apply json_same.
Qed.

Lemma onManimError_rm dir file message d :
  file <> [] -> apart dir file ->
  result (onManimError (withRmFaults g env) dir file message d)
  = result (onManimError env dir file message d).
Proof.
  intros Hne Hap.
  cut (sameOutcome file (onManimError (withRmFaults g env) dir file message d)
                        (onManimError env dir file message d)); [by intros []|].
  unfold onManimError.
  apply sameOutcome_bind_same; [reflexivity|]. intros _ _.
  apply (answer_rm dir file); [exact Hne|exact Hap|reflexivity|].
  intros d1 d1'. apply json_same.
Qed.

Lemma outerCatch_rm rd af e d :
  match rd, af with
  | Some dir, Some file => file <> [] /\ apart dir file
  | _, _ => True
  end ->
  result (outerCatch (withRmFaults g env) rd af e d) = result (outerCatch env rd af e d).
Proof.
  intros H. unfold outerCatch. rewrite !result_bind. cbn [result disk_after console_error emit].
  destruct rd as [dir|], af as [file|].
  - destruct H as [Hne Hap].
    destruct (cleanUp_rm dir file d d Hne Hap eq_refl) as [-> _].
    by destruct (result (cleanUp env (Some dir) (Some file) d)).
  - destruct (cleanUp_run (withRmFaults g env) (Some dir) None d) as (_ & _ & _ & _).
    assert (Hn : forall env0, result (cleanUp env0 (Some dir) None d) = Normal tt).
    { intros env0. unfold cleanUp. rewrite result_bind.
      destruct (deleteDirectory_run env0 dir d) as (-> & _). reflexivity. }
    by rewrite !Hn.
  - reflexivity.
  - reflexivity.
Qed.

(** The answer of the handler does not depend on removal faults. *)
Lemma getAnimation_rm approach d :
  result (getAnimation (withRmFaults g env) approach d)
  = result (getAnimation env approach d).
Proof.
  destruct approach as [approach|]; [|reflexivity].
  unfold getAnimation.
  apply guarded_result_congr; [reflexivity|intros e; by apply outerCatch_rm|].
  intros [steps [sid content]] H1.
  assert (sid = uuidv4 env) as ->.
  { revert H1. intros H.
    apply bind_inv_normal in H as (? & _ & H).
    apply bind_inv_normal in H as (? & _ & H).
    apply bind_inv_normal in H as (c & _ & H).
    apply bind_inv_normal in H as (steps0 & _ & H).
    apply bind_inv_normal in H as (script0 & Hs & H).
    cbn in H. injection H as _ Hsc. subst script0.
    exact (generateManimScript_id _ _ _ _ _ Hs). }
  match goal with |- context [guarded _ _ _ ?d1] => set (d0 := d1) end. clearbody d0.
  cbv zeta.
  apply guarded_result_congr; [reflexivity|intros e; by apply outerCatch_rm|].
  intros audioFilePath H2.
  assert (audioFilePath = audioFileOf (uuidv4 env)) as ->.
  { apply bind_inv_normal in H2 as (? & _ & H2).
    apply bind_inv_normal in H2 as (? & _ & H2).
    by apply generateAudio_resolves in H2. }
  match goal with |- context [guarded _ _ _ ?d1] => set (d2 := d1) end. clearbody d2.
  apply guarded_result_congr; [reflexivity| |].
  - intros e. apply outerCatch_rm. split; [apply audioFileOf_nonempty|apply renders_apart_audio].
  - intros [message|code out err] _.
    + apply onManimError_rm; [apply audioFileOf_nonempty|apply renders_apart_audio].
    + apply onManimClose_rm; [apply audioFileOf_nonempty|apply renders_apart_audio].
Qed.


End RemovalFaults.

(** * The claims *)

(** ** Sample runs *)

(** The end-to-end scenario of the specification: the renderer leaves
    [media/videos/animation/480p15/AlgorithmDemo.mp4]; the answer names the
    published file and nothing of the job is left under [renders] or
    [audio]. *)
Example end_to_end :
  let r := getAnimation
             (sampleEnv speechSaves (manimRenders "AlgorithmDemo.mp4")
                ffmpegMuxes noFaults)
             (Some bubbleSort) disk0 in
  result r = Normal {| status := 200;
                       body := [("videoUrl",
                                 "/videos/job/AlgorithmDemo_with_audio.mp4")] |}
  /\ disk_after r = Dir [ ("renders", Dir []);
                          ("videos", Dir [("job", Dir [])]);
                          ("audio", Dir []) ].
Proof. vm_compute. split; reflexivity. Qed.

(** The search is depth first: a video deep in the first subdirectory is
    returned before a shallower one in the second. *)
Example deep_first_subdirectory :
  result (findVideoFile (sampleEnv speechSaves manimFails ffmpegMuxes noFaults)
            ["a"] deepFirstTree)
  = Normal (Some ["a"; "x"; "y"; "deep.mp4"]).
Proof. vm_compute. reflexivity. Qed.

(** A subdirectory that cannot be listed counts as empty, and the search
    goes on with the next one. *)
Example denied_subdirectory_skipped :
  let r := findVideoFile
             (sampleEnv speechSaves manimFails ffmpegMuxes (listingDenied ["a"; "x"]))
             ["a"] deepFirstTree in
  result r = Normal (Some ["a"; "z"; "shallow.mp4"])
  /\ events r = [LogError "Error finding video file: EACCES: permission denied"].
Proof. vm_compute. split; reflexivity. Qed.

(** An unguarded [unlinkSync] of the audio file that raises after a
    successful mux leaves the request without an answer. *)
Example unlink_error_unanswered :
  result (getAnimation
            (sampleEnv speechSaves (manimRenders "AlgorithmDemo.mp4") ffmpegMuxes
               (fun op _ => match op with
                            | OpUnlink => Some "EPERM: operation not permitted"
                            | _ => None
                            end))
            (Some bubbleSort) disk0)
  = Throw "EPERM: operation not permitted".
Proof. vm_compute. reflexivity. Qed.

(** ** C1: the working files of a job *)

(** Against C1 as stated: the renderer exits with code 1 and the removal of
    the working directory raises; the error is swallowed, the answer is the
    one of the render failure, and [renders/job] is still on disk. *)
Lemma rm_error_leaves_directory :
  let r := getAnimation (sampleEnv speechSaves manimFails ffmpegMuxes rmBusy)
             (Some bubbleSort) disk0 in
  result r = Normal renderFailed
  /\ Fs.present (rendersDir ++ ["job"]) (disk_after r) = true.
Proof. vm_compute. split; reflexivity. Qed.

(** C1, amended.  For every run of the handler of [/api/getAnimation] on an
    approach: (1) when the removal of the working directory does not raise
    (and the directory of the fresh job identifier was not there before),
    [renders/<jobId>] does not exist after the request; (2) once the
    renderer has been started and an answer is sent, [audio/<jobId>.wav]
    does not exist; (3) [deleteDirectory] never throws and leaves a missing
    path alone; (4) an error raised by the removal of the working directory
    never changes the outcome of the request. *)
Theorem working_files_removed env approach d :
  let r := getAnimation env (Some approach) d in
  let renderDir := rendersDir ++ [uuidv4 env] in
  let audioFile := audioDir ++ [uuidv4 env +:+ ".wav"] in
  (Fs.present renderDir d = false -> faults env OpRm renderDir = None ->
   Fs.present renderDir (disk_after r) = false)
  /\ (forall resp cwd o,
        result r = Normal resp ->
        In (Spawned "python" manimArgs cwd o) (events r) ->
        Fs.present audioFile (disk_after r) = false)
  /\ (forall dir d',
        result (deleteDirectory env dir d') = Normal tt
        /\ (Fs.present dir d' = false ->
            disk_after (deleteDirectory env dir d') = d'
            /\ events (deleteDirectory env dir d') = []))
  /\ (forall g,
        result (getAnimation (withRmFaults g env) (Some approach) d) = result r).
Proof.
  cbv zeta. split; [|split; [|split]].
  - intros Hfresh Hrm.
    destruct (getAnimation_cases env approach d)
      as [(e & ev & -> & _)|[(e & ev & d2 & -> & _)|(ev & d3 & o & -> & _)]];
      cbn [after_events disk_after].
    + destruct (outerCatch_run env None None e d) as (_ & Hkeep & _). by apply Hkeep.
    + destruct (outerCatch_run env (Some (rendersDir ++ [uuidv4 env])) None e d2)
        as (_ & _ & [Hdir _] & _).
      by apply (Hdir (rendersDir ++ [uuidv4 env])).
    + destruct o as [message|code out err].
      * destruct (onManimError_run env (rendersDir ++ [uuidv4 env])
                    (audioFileOf (uuidv4 env)) message d3) as (_ & [Hdir _] & _).
        by apply (Hdir (rendersDir ++ [uuidv4 env])).
      * destruct (onManimClose_run env (rendersDir ++ [uuidv4 env])
                    (audioFileOf (uuidv4 env)) (uuidv4 env) code out err d3)
          as (_ & [Hdir _] & _).
        by apply (Hdir (rendersDir ++ [uuidv4 env])).
  - intros resp cwd o0.
    destruct (getAnimation_cases env approach d)
      as [(e & ev & -> & Hev)|[(e & ev & d2 & -> & Hev & _)|(ev & d3 & o & -> & _)]];
      cbn [after_events result disk_after events].
    + intros _ Hin. exfalso. apply in_app_or in Hin as [Hin|Hin].
      * exact (forall_in _ _ _ Hev Hin).
      * destruct (outerCatch_run env None None e d) as (Hlog & _).
        exact (forall_in _ _ _ Hlog Hin).
    + intros _ Hin. exfalso. apply in_app_or in Hin as [Hin|Hin].
      * exact (manim_not_before _ _ _ (forall_in _ _ _ Hev Hin)).
      * destruct (outerCatch_run env (Some (rendersDir ++ [uuidv4 env])) None e d2)
          as (Hlog & _).
        exact (forall_in _ _ _ Hlog Hin).
    + intros Hres _. destruct o as [message|code out err].
      * destruct (onManimError_run env (rendersDir ++ [uuidv4 env])
                    (audioFileOf (uuidv4 env)) message d3) as (_ & [_ Hfile] & _).
        by apply (Hfile (audioFileOf (uuidv4 env)) resp).
      * destruct (onManimClose_run env (rendersDir ++ [uuidv4 env])
                    (audioFileOf (uuidv4 env)) (uuidv4 env) code out err d3)
          as (_ & [_ Hfile] & _).
        by apply (Hfile (audioFileOf (uuidv4 env)) resp).
  - intros dir d'. split; [apply deleteDirectory_run|].
    intros Hmissing. unfold deleteDirectory, try_catch.
    rewrite bind_existsSync, Hmissing. by split.
  - intros g. apply getAnimation_rm.
Qed.

(** ** C2: what a failure answer carries *)

(** Against C2 as stated: the speech process exits with code 1 after
    writing to both streams; the answer is a 500 whose [details] holds its
    stderr, and no field holds its stdout. *)
Lemma speech_stdout_dropped :
  let r := getAnimation (sampleEnv speechCrashes manimFails ffmpegMuxes noFaults)
             (Some bubbleSort) disk0 in
  In (speechEvent "job" (Closed (Some 1%Z) "Loading voices"
                           "RuntimeError: no audio device"))
     (events r)
  /\ result r = Normal speechFailed
  /\ List.forallb (fun kv => negb (Js.includes "Loading voices" (snd kv)))
       (body speechFailed) = true.
Proof. vm_compute. repeat split; auto 10. Qed.

(** C2, amended.  Every answer of the handler to an approach that is not
    the success answer is a 500.  When the renderer ran to its end, the body
    holds its stdout in [output] and its stderr in [errorOutput]; when the
    muxer exited with a code other than 0, [details] contains its stderr;
    when the speech process ran to its end and the renderer was never
    started, [details] contains the stderr of the speech process.  The
    stdout of the speech process and of the muxer is in no field. *)
Theorem failure_diagnostics env approach d resp :
  let r := getAnimation env (Some approach) d in
  result r = Normal resp -> status resp <> 200 ->
  status resp = 500
  /\ (forall cwd code out err,
        In (Spawned "python" manimArgs cwd (Closed code out err)) (events r) ->
        field "output" resp = Some out /\ field "errorOutput" resp = Some err)
  /\ (forall args code out err,
        In (Spawned "ffmpeg" args None (Closed code out err)) (events r) ->
        code <> Some 0%Z ->
        exists details, field "details" resp = Some details
                        /\ Js.includes err details = true)
  /\ (forall code out err,
        In (speechEvent (uuidv4 env) (Closed code out err)) (events r) ->
        (forall cwd o, ~ In (Spawned "python" manimArgs cwd o) (events r)) ->
        exists details, field "details" resp = Some details
                        /\ Js.includes err details = true).
Proof.
  cbv zeta.
  destruct (getAnimation_cases env approach d)
    as [(e & ev & -> & Hev)|[(e & ev & d2 & -> & Hev & Hrej)|(ev & d3 & o & -> & Hev)]];
    cbn [after_events result disk_after events].
  - destruct (outerCatch_run env None None e d) as (Hlog & _ & _ & Hresp).
    intros Hres _. rewrite (Hresp _ Hres). split; [reflexivity|].
    split; [|split].
    + intros cwd code out err Hin. exfalso. apply in_app_or in Hin as [Hin|Hin].
      * exact (forall_in _ _ _ Hev Hin).
      * exact (forall_in _ _ _ Hlog Hin).
    + intros args code out err Hin. exfalso. apply in_app_or in Hin as [Hin|Hin].
      * exact (forall_in _ _ _ Hev Hin).
      * exact (forall_in _ _ _ Hlog Hin).
    + intros code out err Hin. exfalso. apply in_app_or in Hin as [Hin|Hin].
      * exact (forall_in _ _ _ Hev Hin).
      * exact (forall_in _ _ _ Hlog Hin).
  - destruct (outerCatch_run env (Some (rendersDir ++ [uuidv4 env])) None e d2)
      as (Hlog & _ & _ & Hresp).
    intros Hres _. rewrite (Hresp _ Hres). split; [reflexivity|].
    split; [|split].
    + intros cwd code out err Hin. exfalso. apply in_app_or in Hin as [Hin|Hin].
      * exact (manim_not_before _ _ _ (forall_in _ _ _ Hev Hin)).
      * exact (forall_in _ _ _ Hlog Hin).
    + intros args code out err Hin. exfalso. apply in_app_or in Hin as [Hin|Hin].
      * exact (ffmpeg_not_before _ _ _ _ (forall_in _ _ _ Hev Hin)).
      * exact (forall_in _ _ _ Hlog Hin).
    + intros code out err Hin _. apply in_app_or in Hin as [Hin|Hin].
      * rewrite (Hrej _ _ _ Hin). eexists. split; [reflexivity|]. includes_tac.
      * destruct (forall_in _ _ _ Hlog Hin).
  - assert (Hmanim : forall evs, In (Spawned "python" manimArgs
                        (Some (rendersDir ++ [uuidv4 env])) o)
                      ((ev ++ [Spawned "python" manimArgs
                                 (Some (rendersDir ++ [uuidv4 env])) o]) ++ evs)).
    { intros evs. apply in_or_app. left. apply in_or_app. right. by left. }
    destruct o as [message|code0 out0 err0].
    + destruct (onManimError_run env (rendersDir ++ [uuidv4 env])
                  (audioFileOf (uuidv4 env)) message d3) as (Hlog & _ & Hresp).
      intros Hres _. rewrite (Hresp _ Hres). split; [reflexivity|].
      split; [|split].
      * intros cwd code out err Hin. exfalso.
        apply in_app_or in Hin as [Hin|Hin]; [apply in_app_or in Hin as [Hin|Hin]|].
        -- exact (manim_not_before _ _ _ (forall_in _ _ _ Hev Hin)).
        -- destruct Hin as [Hin|[]]. discriminate.
        -- exact (forall_in _ _ _ Hlog Hin).
      * intros args code out err Hin. exfalso.
        apply in_app_or in Hin as [Hin|Hin]; [apply in_app_or in Hin as [Hin|Hin]|].
        -- exact (ffmpeg_not_before _ _ _ _ (forall_in _ _ _ Hev Hin)).
        -- destruct Hin as [Hin|[]]. discriminate.
        -- exact (forall_in _ _ _ Hlog Hin).
      * intros code out err _ Hno. destruct (Hno _ _ (Hmanim _)).
    + destruct (onManimClose_run env (rendersDir ++ [uuidv4 env])
                  (audioFileOf (uuidv4 env)) (uuidv4 env) code0 out0 err0 d3)
        as (Hpub & _ & Hresp).
      cbv zeta in Hpub, Hresp.
      intros Hres Hnot.
      destruct (Hresp _ Hres) as [H200|(Hst & Hout & Herr & Hff)]; [congruence|].
      split; [exact Hst|]. split; [|split].
      * intros cwd code out err Hin.
        apply in_app_or in Hin as [Hin|Hin]; [apply in_app_or in Hin as [Hin|Hin]|].
        -- destruct (manim_not_before _ _ _ (forall_in _ _ _ Hev Hin)).
        -- destruct Hin as [Hin|[]]. injection Hin as _ <- <- <-. by split.
        -- destruct (manim_not_publish _ _ (forall_in _ _ _ Hpub Hin)).
      * intros args code out err Hin Hc.
        apply in_app_or in Hin as [Hin|Hin]; [apply in_app_or in Hin as [Hin|Hin]|].
        -- destruct (ffmpeg_not_before _ _ _ _ (forall_in _ _ _ Hev Hin)).
        -- destruct Hin as [Hin|[]]. discriminate.
        -- by eapply Hff.
      * intros code out err _ Hno. destruct (Hno _ _ (Hmanim _)).
Qed.

(** The renderer exits with code 1: the answer is a 500 with both of its
    streams. *)
Lemma failure_diagnostics_witness :
  let r := getAnimation (sampleEnv speechSaves manimFails ffmpegMuxes noFaults)
             (Some bubbleSort) disk0 in
  result r = Normal renderFailed
  /\ status renderFailed <> 200
  /\ status renderFailed = 500
  /\ (In (Spawned "python" manimArgs (Some ["renders"; "job"])
            (Closed (Some 1%Z) "Manim Community v0.18"
               "NameError: name Sqaure is not defined"))
         (events r) ->
      field "output" renderFailed = Some "Manim Community v0.18"
      /\ field "errorOutput" renderFailed
         = Some "NameError: name Sqaure is not defined").
Proof.
  cbv zeta.
  assert (H1 : result (getAnimation
                         (sampleEnv speechSaves manimFails ffmpegMuxes noFaults)
                         (Some bubbleSort) disk0)
               = Normal renderFailed) by (vm_compute; reflexivity).
  assert (H2 : status renderFailed <> 200) by discriminate.
  split; [exact H1|]. split; [exact H2|].
  destruct (failure_diagnostics _ _ _ _ H1 H2) as (Hst & Hstreams & _).
  split; [exact Hst|]. apply Hstreams.
Defined.

(** ** C3: the search for the rendered video *)

(** C3.  [findVideoFile] (1) returns the first file of the directory whose
    name ends in [.mp4] when there is one, whatever the subdirectories
    hold; (2) otherwise returns what the first subdirectory, in listing
    order, in which the search finds something returns; (3) returns
    [a/video.mp4] for the tree with [a/b/out.mp4] and [a/video.mp4]; and
    (4) returns [null] for a tree without such a file. *)
Theorem findVideoFile_search env :
  (forall dir d es item,
     Fs.lookup dir d = Some (Dir es) ->
     faults env OpReaddir dir = None ->
     List.find isVideo (List.map dirent_of es) = Some item ->
     result (findVideoFile env dir d) = Normal (Some (dir ++ [name item])))
  /\ (forall dir d es,
        Fs.lookup dir d = Some (Dir es) ->
        faults env OpReaddir dir = None ->
        List.find isVideo (List.map dirent_of es) = None ->
        result (findVideoFile env dir d)
        = Normal (firstFound
                    (List.map (fun item =>
                                 result (findVideoFile env (dir ++ [name item]) d))
                              (List.filter isDirectory (List.map dirent_of es)))))
  /\ (faults env OpReaddir ["a"] = None ->
      result (findVideoFile env ["a"] exampleTree) = Normal (Some ["a"; "video.mp4"])
      /\ path_str ["a"; "video.mp4"] = "a/video.mp4")
  /\ (forall dir d n,
        Fs.lookup dir d = Some n -> countVideos n = 0 ->
        result (findVideoFile env dir d) = Normal None).
Proof.
  split; [|split; [|split]].
  - intros dir d es item. apply find_level_first.
  - intros dir d es. apply find_descends.
  - intros Hf. split; [|reflexivity].
    exact (find_level_first env ["a"] exampleTree _ (dirent_of ("video.mp4", File))
             eq_refl Hf eq_refl).
  - intros dir d n. apply find_nothing.
Qed.

(** ** C4: how the speech synthesizer settles *)


(** ** C5: the name of the published file *)

(** Appending the extension to a name that is not empty does not make it
    start with the extension. *)
Lemma startsWith_extension s :
  s <> "" -> Js.startsWith ".mp4" (s +:+ ".mp4") = Js.startsWith ".mp4" s.
Proof.
  intros Hs.
  destruct s as [|a1 [|a2 [|a3 [|a4 s]]]]; [done|..];
    cbn; repeat (match goal with |- context [Ascii.eqb ?x ?y] =>
                destruct (Ascii.eqb x y) eqn:? end); try reflexivity; try discriminate.
Qed.

(** When the name of the located file holds [.mp4] only as its extension,
    the extension is what [replace] removes. *)
Lemma replaceFirst_extension base :
  Js.includes ".mp4" base = false ->
  Js.replaceFirst ".mp4" (base +:+ ".mp4") = base.
Proof.
  induction base as [|c base IH]; [reflexivity|].
  intros H. specialize (IH (includes_tail _ _ _ H)).
  pose proof (includes_head _ _ H) as Hh.
  rewrite <- startsWith_extension in Hh by done.
  change (String c base +:+ ".mp4") with (String c (base +:+ ".mp4")) in *.
  cbn [Js.replaceFirst]. rewrite Hh. by f_equal.
Qed.

(** C5, at the failing input: the renderer leaves [clip.mp4.bak.mp4]; the
    published name is [clip.bak.mp4_with_audio.mp4], where the claim has
    [clip.mp4.bak_with_audio.mp4]. *)
Theorem inner_extension_removed :
  let r := getAnimation
             (sampleEnv speechSaves (manimRenders "clip.mp4.bak.mp4")
                ffmpegMuxes noFaults)
             (Some bubbleSort) disk0 in
  result r = Normal {| status := 200;
                       body := [("videoUrl",
                                 "/videos/job/clip.bak.mp4_with_audio.mp4")] |}
  /\ In (Spawned "ffmpeg"
           (ffmpegArgs
              ["renders"; "job"; "media"; "videos"; "animation"; "480p15";
               "clip.mp4.bak.mp4"]
              ["audio"; "job.wav"]
              ["videos"; "job"; "clip.bak.mp4_with_audio.mp4"])
           None (Closed (Some 0%Z) "" "ffmpeg version 6.0"))
        (events r)
  /\ "/videos/job/clip.bak.mp4_with_audio.mp4"
     <> "/videos/job/" +:+ "clip.mp4.bak" +:+ "_with_audio.mp4".
Proof. vm_compute. split; [reflexivity|]. split; [auto 30|discriminate]. Qed.

(** ** C6: the muxer *)


(** ** C7: cleaning a reply *)

(** C7.  [cleanJsonResponse] maps the fenced reply of the specification to
    [[1,2]], and a text without a fence marker to its trimmed self. *)
Theorem cleanJsonResponse_spec :
  cleanJsonResponse (fence +:+ "json" +:+ Js.nl +:+ "[1,2]" +:+ Js.nl +:+ fence)
  = "[1,2]"
  /\ forall text,
       Js.includes fence text = false -> cleanJsonResponse text = Js.trim text.
Proof.
  split; [vm_compute; reflexivity|].
  intros text H. unfold cleanJsonResponse.
  rewrite (replaceAll_absent fence "json" text H).
  rewrite <- (app_empty_r fence) at 1.
  rewrite (replaceAll_absent fence "" text H). reflexivity.
Qed.

(** ** C8: the driver script *)

(** C8.  A run of [generateAudio] writes the script file
    [audio/<audioId>_script.py] and then starts the speech process.  (1)
    When the script cannot be written, the run rejects with the error of the
    write and starts no process.  (2) When it is written, the speech process
    is the one process of the run, with the report the environment gives
    for it.  (3) Whatever that process reports, a
    close with any exit code or a failure to start, the script file is gone
    afterwards, or its deletion raised and the error was logged; when the
    deletion cannot raise for outside reasons, no file is left at that
    path; and the outcome is, after a close, the path of the audio file or
    the rejection with the captured stderr, and after a failure to start
    the rejection with the message of that failure, never the error of the
    deletion. *)
Theorem script_file_removed env narrationSteps audioId d :
  let r := generateAudio env narrationSteps audioId d in
  let scriptPath := audioDir ++ [audioId +:+ "_script.py"] in
  let written := writeFileSync env scriptPath d in
  (forall e, result written = Throw e ->
     result r = Throw e /\ processes (events r) = [])
  /\ (result written = Normal tt ->
      processes (events r)
      = [speechEvent audioId
           (fst (spawn env "python" [path_str scriptPath] None
                   (disk_after written)))])
  /\ (forall o, In (speechEvent audioId o) (events r) ->
        (Fs.present scriptPath (disk_after r) = false
         \/ exists e, In (LogError ("Error cleaning up script file: " +:+ e)) (events r))
        /\ (faults env OpUnlink scriptPath = None ->
            match Fs.lookup scriptPath (disk_after r) with
            | None | Some (Dir _) => True
            | _ => False
            end)
        /\ match o with
           | Closed code output errorOutput =>
               result r = Normal (audioDir ++ [audioId +:+ ".wav"])
               \/ result r = Throw ("Audio generation failed: " +:+ errorOutput)
           | SpawnError message =>
               result r = Throw ("Failed to start audio generation: " +:+ message)
           end).
Proof.
  cbv zeta. change (audioDir ++ [audioId +:+ "_script.py"]) with (scriptFileOf audioId).
  change (audioDir ++ [audioId +:+ ".wav"]) with (audioFileOf audioId).
  pose proof (generateAudio_written env narrationSteps audioId d) as Hw.
  cbv zeta in Hw. split; [|split].
  - intros e He. by rewrite He in Hw.
  - intros He. by rewrite He in Hw.
  - clear Hw. intros o0 Hin.
    destruct (generateAudio_cases env narrationSteps audioId d)
      as [(e & Hres & Hlog)
         |[(m & ev & ev' & Hev & Hl & Hl' & Hres & Hgone & Hwhy)
          |(c & o & e' & ev & ev' & Hev & Hl & Hl' & Hres & Hgone & Hwhy)]];
      cbv zeta in *.
    + destruct (spawned_not_log _ _ _ _ (not_log_in _ _ Hlog Hin)).
    + rewrite Hev in Hin |- *. apply speech_in_logs in Hin; [|exact Hl|exact Hl'].
      injection Hin as <-. split; [|split; [exact Hwhy|exact Hres]].
      destruct Hgone as [Hgone|[e He]]; [by left|right].
      exists e. apply in_or_app. right. by right.
    + rewrite Hev in Hin |- *. apply speech_in_logs in Hin; [|exact Hl|exact Hl'].
      injection Hin as <-. split; [|split; [exact Hwhy|]].
      * destruct Hgone as [Hgone|[e He]]; [by left|right].
        exists e. apply in_or_app. right. by right.
      * rewrite Hres. destruct (isZero c && _); [by left|by right].
Qed.

(** [python] cannot be started in the sample job: the promise is rejected
    with the start failure and the script is gone. *)
Lemma script_file_removed_witness :
  let r := generateAudio (sampleEnv speechMissing manimFails ffmpegMuxes noFaults)
             ["We start"; "We swap"] "job" disk0 in
  In (speechEvent "job" (SpawnError "spawn python ENOENT")) (events r)
  /\ match Fs.lookup (audioDir ++ ["job" +:+ "_script.py"]) (disk_after r) with
     | None | Some (Dir _) => True
     | _ => False
     end
  /\ result r = Throw ("Failed to start audio generation: " +:+ "spawn python ENOENT").
Proof.
  cbv zeta.
  assert (Hin : In (speechEvent "job" (SpawnError "spawn python ENOENT"))
                   (events (generateAudio
                              (sampleEnv speechMissing manimFails ffmpegMuxes noFaults)
                              ["We start"; "We swap"] "job" disk0)))
    by (vm_compute; auto).
  split; [exact Hin|].
  destruct (script_file_removed
              (sampleEnv speechMissing manimFails ffmpegMuxes noFaults)
              ["We start"; "We swap"] "job" disk0) as (_ & _ & H).
  destruct (H _ Hin) as (_ & Hfile & Hres).
  split; [apply Hfile; reflexivity|exact Hres].
Defined.

(** ** C9: the code that is visualized *)

(** C9.  For an approach with a code mapping, the code of the request is
    the first truthy entry among [javaCode], [cppCode], [pythonCode] (and
    the [jsCode] entry when none of them is truthy); an empty [javaCode] is
    passed over for a truthy [cppCode]; every question the handler puts to
    the model, for the narration and for the script, is about that code, and
    the narration is asked for. *)
Theorem code_selection env approach c d :
  code approach = Some c ->
  let chosen := selectCode c in
  let r := getAnimation env (Some approach) d in
  chosen = default (get c "jsCode")
             (List.find truthy [get c "javaCode"; get c "cppCode"; get c "pythonCode"])
  /\ (c !! "javaCode" = Some (JStr "") -> truthy (get c "cppCode") = true ->
      chosen = get c "cppCode")
  /\ Forall (aboutCode chosen) (events r)
  /\ In (Asked (NarrationPrompt chosen)) (events r).
Proof.
  intros Hc. cbv zeta. split; [|split; [|split]].
  - unfold selectCode, js_or. cbn [List.find].
    destruct (truthy (get c "javaCode")) eqn:Ej; [by rewrite ?Ej|].
    destruct (truthy (get c "cppCode")) eqn:Ec; [by rewrite ?Ec|].
    destruct (truthy (get c "pythonCode")) eqn:Ep; [by rewrite ?Ep|reflexivity].
  - intros Hj Hcpp. unfold selectCode, js_or.
    assert (truthy (get c "javaCode") = false) as -> by (unfold get; by rewrite Hj).
    by rewrite ?Hcpp.
  - by apply emits_aboutCode_getAnimation.
  - unfold getAnimation, guarded. cbn [events]. apply in_or_app. left.
    unfold console_log. rewrite !bind_emit. cbn [after_events events app].
    right. right. unfold readCode. rewrite Hc.
    rewrite events_bind. cbn [result disk_after events ret app].
    rewrite events_bind.
    destruct (narration_asked_first env (selectCode c) d) as [rest ->]. by left.
Qed.

(** An approach whose [javaCode] is empty is narrated from its [cppCode]. *)
Lemma code_selection_witness :
  code twoPointers = Some cppOnly
  /\ In (Asked (NarrationPrompt (JStr "int main() { }")))
        (events (getAnimation
                   (sampleEnv speechSaves manimFails ffmpegMuxes noFaults)
                   (Some twoPointers) disk0)).
Proof.
  split; [reflexivity|].
  exact (proj2 (proj2 (proj2
           (code_selection (sampleEnv speechSaves manimFails ffmpegMuxes noFaults)
              twoPointers cppOnly disk0 eq_refl)))).
Defined.

(** ** C10: the search never throws *)

(** A path that leads to something other than a directory: the listing
    raises, the error is caught, and the result is [null]. *)
Lemma find_not_directory env dir d :
  Fs.lookup dir d = Some File \/ Fs.lookup dir d = Some Special ->
  result (findVideoFile env dir d) = Normal None.
Proof.
  intros H. unfold findVideoFile. cbn [findVideoFileFuel].
  rewrite result_try_catch, result_bind, run_existsSync. cbn [result disk_after].
  unfold Fs.present. destruct (Fs.lookup dir d) as [n|] eqn:E; [|reflexivity].
  cbn [negb]. rewrite result_bind. unfold readdirSync at 1. rewrite result_bind.
  unfold checkFault. destruct (faults env OpReaddir dir); [reflexivity|].
  cbn [result disk_after ret getDisk]. rewrite result_bind. cbn [result disk_after getDisk].
  rewrite E. destruct H as [[= ->]|[= ->]]; reflexivity.
Qed.

(** Every bound above the height of the disk gives the run of
    [findVideoFile]: the bound of the model is never reached. *)
Lemma findVideoFile_fuel env dir d fuel :
  Fs.height d < fuel -> findVideoFileFuel fuel env dir d = findVideoFile env dir d.
Proof.
  intros Hfuel. unfold findVideoFile.
  destruct (Fs.lookup dir d) as [n|] eqn:E.
  - pose proof (lookup_height _ _ _ E).
    apply (findVideoFileFuel_stable env fuel (S (Fs.height d)) dir d n E); lia.
  - destruct fuel as [|fuel]; [lia|]. cbn [findVideoFileFuel].
    apply try_catch_congr, bind_congr. intros ex. rewrite run_existsSync.
    unfold Fs.present. rewrite E. by intros [= <-].
Qed.

(** C10.  For every path and disk, [findVideoFile] returns a path or
    [null] and leaves the disk alone; it returns [null] for a path that does
    not exist, for one whose listing raises and for one that is a file;
    every call of the recursion returns as well, whatever depth is left to
    it; and any bound above the height of the disk gives the same run, so
    that the result never comes from the bound of the model. *)
Theorem findVideoFile_total env dir d :
  (exists found, result (findVideoFile env dir d) = Normal found)
  /\ disk_after (findVideoFile env dir d) = d
  /\ (Fs.present dir d = false -> result (findVideoFile env dir d) = Normal None)
  /\ (forall e, faults env OpReaddir dir = Some e ->
        result (findVideoFile env dir d) = Normal None)
  /\ (Fs.lookup dir d = Some File -> result (findVideoFile env dir d) = Normal None)
  /\ (forall fuel,
        exists found, result (findVideoFileFuel (S fuel) env dir d) = Normal found)
  /\ (forall fuel,
        Fs.height d < fuel ->
        findVideoFileFuel fuel env dir d = findVideoFile env dir d).
Proof.
  split; [apply findVideoFile_returns|].
  split; [apply readonly_findVideoFile|].
  split; [apply find_missing|].
  split; [apply find_listing_error|].
  split; [intros H; apply find_not_directory; by left|].
  split; [|intros fuel; apply findVideoFile_fuel].
  intros fuel. cbn [findVideoFileFuel]. rewrite result_try_catch.
  match goal with |- context [match ?r with _ => _ end] => destruct r as [a|e] end; eauto.
Qed.

(** * Properties beyond the claims *)

(** ** The cleaners *)

Lemma startsWith_nil_r p : Js.startsWith p "" = true -> p = "".
Proof. by destruct p. Qed.

(** A kept character cannot be followed by the start of a fence. *)
Lemma replaceAll_fence_head1 fuel s :
  String.length s <= fuel ->
  Js.startsWith "`" s = false ->
  Js.startsWith "`" (Js.replaceAllFuel fuel fence s) = false.
Proof.
  intros Hf H. destruct s as [|x s]; [by destruct fuel|].
  destruct fuel as [|fuel]; [cbn in Hf; lia|].
  unfold fence. cbn [Js.replaceAllFuel Js.startsWith] in *.
  destruct (Ascii.eqb "`" x) eqn:Ex; [discriminate|].
  cbn [Js.startsWith]. by rewrite Ex.
Qed.

Lemma startsWith_cons a p b s :
  Js.startsWith (String a p) (String b s)
  = if Ascii.eqb a b then Js.startsWith p s else false.
Proof. reflexivity. Qed.

Lemma replaceAllFuel_keep fuel lit c s :
  Js.startsWith lit (String c s) = false ->
  Js.replaceAllFuel (S fuel) lit (String c s) = String c (Js.replaceAllFuel fuel lit s).
Proof. intros H. cbn [Js.replaceAllFuel]. by rewrite H. Qed.

Lemma replaceAll_fence_head2 fuel s :
  String.length s <= fuel ->
  Js.startsWith "``" s = false ->
  Js.startsWith "``" (Js.replaceAllFuel fuel fence s) = false.
Proof.
  intros Hf H. destruct s as [|x s]; [by destruct fuel|].
  destruct fuel as [|fuel]; [cbn in Hf; lia|].
  cbn [String.length] in Hf. rewrite startsWith_cons in H.
  rewrite replaceAllFuel_keep.
  2:{ unfold fence. rewrite startsWith_cons.
      destruct (Ascii.eqb "`" x); [|reflexivity].
      destruct s as [|y s]; [reflexivity|]. rewrite !startsWith_cons in *.
      by destruct (Ascii.eqb "`" y). }
  rewrite startsWith_cons.
  destruct (Ascii.eqb "`" x); [|reflexivity].
  apply replaceAll_fence_head1; [lia|exact H].
Qed.

Lemma replaceAllFuel_fence_free fuel : forall s,
  String.length s <= fuel ->
  Js.includes fence (Js.replaceAllFuel fuel fence s) = false.
Proof.
  induction fuel as [|fuel IH]; intros s Hf.
  { destruct s; [reflexivity|cbn in Hf; lia]. }
  destruct (Js.startsWith fence s) eqn:Hs.
  - cbn [Js.replaceAllFuel]. rewrite Hs. apply IH.
    pose proof (skipLF_length (Js.slice (String.length fence) s)).
    pose proof (slice_length (String.length fence) s).
    pose proof (startsWith_length _ _ Hs).
    change (String.length fence) with 3 in *. lia.
  - destruct s as [|c s]; [reflexivity|]. cbn [String.length] in Hf.
    rewrite replaceAllFuel_keep by exact Hs.
    cbn [Js.includes]. rewrite (IH s) by lia. rewrite orb_false_r.
    unfold fence in *. rewrite startsWith_cons in *.
    destruct (Ascii.eqb "`" c); [|reflexivity].
    apply replaceAll_fence_head2; [lia|exact Hs].
Qed.

Lemma replaceAll_fence_free s : Js.includes fence (Js.replaceAll fence s) = false.
Proof. apply replaceAllFuel_fence_free. lia. Qed.

(** *** Trimming *)

Lemma includes_trimStart p s :
  Js.includes p s = false -> Js.includes p (Js.trimStart s) = false.
Proof.
  induction s as [|c s IH]; [done|]. intros H. cbn [Js.trimStart].
  destruct (Js.isWhiteSpace c); [|exact H]. eapply IH, includes_tail, H.
Qed.

Lemma trimEnd_prefix s : exists w, s = Js.trimEnd s +:+ w.
Proof.
  induction s as [|c s [w IH]]; [by exists ""|]. cbn [Js.trimEnd].
  destruct (Js.trimEnd s) as [|b t] eqn:E.
  - destruct (Js.isWhiteSpace c).
    + by exists (String c s).
    + exists s. reflexivity.
  - exists w. change (String c (String b t) +:+ w) with (String c (String b t +:+ w)).
    by rewrite <- IH.
Qed.

Lemma startsWith_prefix p a w :
  Js.startsWith p a = true -> Js.startsWith p (a +:+ w) = true.
Proof.
  revert a. induction p as [|x p IH]; intros a; [done|].
  destruct a as [|y a]; [discriminate|].
  change (String y a +:+ w) with (String y (a +:+ w)). rewrite !startsWith_cons.
  destruct (Ascii.eqb x y); [apply IH|done].
Qed.

Lemma includes_prefix p a w :
  Js.includes p (a +:+ w) = false -> Js.includes p a = false.
Proof.
  induction a as [|c a IH].
  - intros H. apply includes_head in H. cbn [Js.includes]. rewrite orb_false_r.
    destruct (Js.startsWith p "") eqn:E; [|done].
    apply startsWith_nil_r in E. subst p. by destruct w.
  - change (String c a +:+ w) with (String c (a +:+ w)). intros H.
    cbn [Js.includes]. rewrite (IH (includes_tail _ _ _ H)), orb_false_r.
    apply includes_head in H.
    destruct (Js.startsWith p (String c a)) eqn:E; [|done].
    apply (startsWith_prefix _ _ w) in E.
    change (String c a +:+ w) with (String c (a +:+ w)) in E. congruence.
Qed.

Lemma includes_trimEnd p s :
  Js.includes p s = false -> Js.includes p (Js.trimEnd s) = false.
Proof.
  intros H. destruct (trimEnd_prefix s) as [w Hw]. rewrite Hw in H.
  by apply includes_prefix in H.
Qed.

Lemma includes_trim p s :
  Js.includes p s = false -> Js.includes p (Js.trim s) = false.
Proof. intros H. by apply includes_trimEnd, includes_trimStart. Qed.

Lemma trimEnd_idem s : Js.trimEnd (Js.trimEnd s) = Js.trimEnd s.
Proof.
  induction s as [|c s IH]; [done|]. cbn [Js.trimEnd].
  destruct (Js.trimEnd s) as [|b t] eqn:E.
  - destruct (Js.isWhiteSpace c) eqn:Ec; [done|]. cbn [Js.trimEnd]. by rewrite Ec.
  - cbn [Js.trimEnd] in IH |- *. by rewrite IH.
Qed.

(** What [trimStart] returns is empty or starts with a character that is
    not white space. *)
Lemma trimStart_head s :
  match Js.trimStart s with
  | "" => True
  | String c _ => Js.isWhiteSpace c = false
  end.
Proof.
  induction s as [|c s IH]; [done|]. cbn [Js.trimStart].
  by destruct (Js.isWhiteSpace c) eqn:E.
Qed.

Lemma trimEnd_head c s :
  Js.isWhiteSpace c = false ->
  exists t, Js.trimEnd (String c s) = String c t.
Proof.
  intros Hc. cbn [Js.trimEnd]. destruct (Js.trimEnd s); rewrite ?Hc; eauto.
Qed.

Lemma trim_idem s : Js.trim (Js.trim s) = Js.trim s.
Proof.
  unfold Js.trim. pose proof (trimStart_head s) as H.
  destruct (Js.trimStart s) as [|c u]; [done|].
  destruct (trimEnd_head c u H) as [t Ht]. rewrite Ht.
  cbn [Js.trimStart]. rewrite H, <- Ht. apply trimEnd_idem.
Qed.

Lemma cleanJsonResponse_free text :
  Js.includes fence (cleanJsonResponse text) = false.
Proof. apply includes_trim, replaceAll_fence_free. Qed.

Lemma cleanPythonResponse_free text :
  Js.includes fence (cleanPythonResponse text) = false.
Proof. apply includes_trim, replaceAll_fence_free. Qed.

(** A text without a fence that is trimmed is left as it is by both
    cleaners. *)
Lemma clean_fixed t :
  Js.includes fence t = false -> Js.trim t = t ->
  cleanJsonResponse t = t /\ cleanPythonResponse t = t.
Proof.
  intros Hf Ht. unfold cleanJsonResponse, cleanPythonResponse.
  rewrite !(replaceAll_absent fence _ t Hf).
  assert (H0 : Js.replaceAll fence t = t).
  { rewrite <- (app_empty_r fence) at 1. apply (replaceAll_absent fence "" t Hf). }
  rewrite !H0. by split.
Qed.

(** X1.  Whatever the reply, the text returned by [cleanJsonResponse] and
    by [cleanPythonResponse] holds no fence marker and is trimmed: trimming
    it again changes nothing. *)
Theorem cleaned_text_has_no_fence text :
  Js.includes fence (cleanJsonResponse text) = false
  /\ Js.trim (cleanJsonResponse text) = cleanJsonResponse text
  /\ Js.includes fence (cleanPythonResponse text) = false
  /\ Js.trim (cleanPythonResponse text) = cleanPythonResponse text.
Proof.
  split; [apply cleanJsonResponse_free|].
  split; [apply trim_idem|].
  split; [apply cleanPythonResponse_free|apply trim_idem].
Qed.

(** X2.  Both cleaners leave a cleaned text as it is: each is idempotent,
    and each leaves the output of the other unchanged. *)
Theorem cleaning_is_idempotent text :
  cleanJsonResponse (cleanJsonResponse text) = cleanJsonResponse text
  /\ cleanPythonResponse (cleanPythonResponse text) = cleanPythonResponse text
  /\ cleanJsonResponse (cleanPythonResponse text) = cleanPythonResponse text
  /\ cleanPythonResponse (cleanJsonResponse text) = cleanJsonResponse text.
Proof.
  destruct (clean_fixed _ (cleanJsonResponse_free text) (trim_idem _)).
  destruct (clean_fixed _ (cleanPythonResponse_free text) (trim_idem _)).
  by repeat split.
Qed.

Lemma app_cons c a w : String c a +:+ w = String c (a +:+ w).
Proof. reflexivity. Qed.

Lemma app_length' a w : String.length (a +:+ w) = String.length a + String.length w.
Proof. induction a as [|c a IH]; [done|]. rewrite app_cons. cbn [String.length]. lia. Qed.

Lemma app_assoc' a b c : (a +:+ b) +:+ c = a +:+ (b +:+ c).
Proof. induction a as [|x a IH]; [done|]. rewrite !app_cons. by rewrite IH. Qed.

(** In a text without fences that is followed by a line feed, no fence
    starts inside the text. *)
Lemma fence_not_across c b w :
  Js.includes fence (String c b) = false ->
  Js.startsWith fence (String c b +:+ Js.nl +:+ w) = false.
Proof.
  intros H. apply includes_head in H. unfold fence in *.
  change (Js.nl +:+ w) with (String Js.LF w).
  destruct b as [|c2 [|c3 b]]; rewrite ?app_cons; rewrite ?startsWith_cons in *.
  - change ("" +:+ String Js.LF w) with (String Js.LF w). rewrite startsWith_cons.
    destruct (Ascii.eqb "`" c); [|done]. reflexivity.
  - change ("" +:+ String Js.LF w) with (String Js.LF w). rewrite !startsWith_cons.
    destruct (Ascii.eqb "`" c); [|done]. destruct (Ascii.eqb "`" c2); [|done].
    reflexivity.
  - destruct (Ascii.eqb "`" c); [|done]. destruct (Ascii.eqb "`" c2); [|done].
    destruct (Ascii.eqb "`" c3); [|done]. discriminate.
Qed.

(** The scan for a pattern that begins with a fence passes over a text
    without fences that is followed by a line feed. *)
Lemma replaceAllFuel_pass q body w : forall fuel,
  Js.includes fence body = false ->
  Js.replaceAllFuel (String.length body + fuel) (fence +:+ q) (body +:+ Js.nl +:+ w)
  = body +:+ Js.replaceAllFuel fuel (fence +:+ q) (Js.nl +:+ w).
Proof.
  induction body as [|c b IH]; intros fuel H; [reflexivity|].
  cbn [String.length Nat.add]. rewrite app_cons at 1.
  rewrite replaceAllFuel_keep.
  - rewrite app_cons. f_equal. apply IH. eapply includes_tail, H.
  - rewrite <- app_cons.
    destruct (Js.startsWith (fence +:+ q) (String c b +:+ Js.nl +:+ w)) eqn:E; [|done].
    apply startsWith_app in E. by rewrite fence_not_across in E.
Qed.

Lemma trimEnd_nl u : Js.trimEnd (u +:+ Js.nl) = Js.trimEnd u.
Proof.
  induction u as [|c u IH]; [reflexivity|].
  rewrite app_cons. cbn [Js.trimEnd]. by rewrite IH.
Qed.

Lemma trimStart_nl s :
  Js.trimStart (s +:+ Js.nl) = Js.trimStart s +:+ match Js.trimStart s with "" => "" | _ => Js.nl end.
Proof.
  induction s as [|c s IH]; [reflexivity|].
  rewrite app_cons. cbn [Js.trimStart].
  destruct (Js.isWhiteSpace c); [exact IH|]. by rewrite app_cons.
Qed.

Lemma trim_nl s : Js.trim (s +:+ Js.nl) = Js.trim s.
Proof.
  unfold Js.trim. rewrite trimStart_nl.
  destruct (Js.trimStart s); [reflexivity|]. apply trimEnd_nl.
Qed.

Lemma replaceAllFuel_short lit : forall fuel s,
  String.length s < String.length lit -> Js.replaceAllFuel fuel lit s = s.
Proof.
  induction fuel as [|fuel IH]; intros s H; [reflexivity|].
  cbn [Js.replaceAllFuel].
  destruct (Js.startsWith lit s) eqn:E.
  - apply startsWith_length in E. lia.
  - destruct s as [|c s]; [reflexivity|]. cbn [String.length] in H.
    rewrite IH by lia. reflexivity.
Qed.

Lemma slice_app p s : Js.slice (String.length p) (p +:+ s) = s.
Proof. induction p as [|x p IHp]; [done|]. rewrite app_cons. apply IHp. Qed.

(** Cleaning a reply that is wrapped in a fence with a tag. *)
Lemma unwrap_fenced t tag body :
  Js.includes fence body = false ->
  let lit := fence +:+ String t tag in
  Js.trim (Js.replaceAll fence
             (Js.replaceAll lit (lit +:+ Js.nl +:+ body +:+ Js.nl +:+ fence)))
  = Js.trim body.
Proof.
  intros H lit.
  assert (Hlit : 3 < String.length lit) by (subst lit; rewrite app_length'; cbn; lia).
  assert (H1 : Js.replaceAll lit (lit +:+ Js.nl +:+ body +:+ Js.nl +:+ fence)
               = body +:+ Js.nl +:+ fence).
  { unfold Js.replaceAll.
    set (text := lit +:+ Js.nl +:+ body +:+ Js.nl +:+ fence).
    assert (Hlen : String.length text
                   = S (String.length lit + String.length body + 4)).
    { subst text. rewrite !app_length'. cbn. lia. }
    rewrite Hlen. cbn [Js.replaceAllFuel]. subst text.
    rewrite startsWith_self, slice_app.
    change (Js.skipLF (Js.nl +:+ body +:+ Js.nl +:+ fence))
      with (body +:+ Js.nl +:+ fence).
    rewrite (replaceAllFuel_enough _ _ (String.length body + 4)).
    - subst lit. rewrite replaceAllFuel_pass by exact H. reflexivity.
    - subst lit. discriminate.
    - rewrite !app_length'. cbn. lia.
    - rewrite !app_length'. cbn. lia. }
  rewrite H1.
  assert (H2 : Js.replaceAll fence (body +:+ Js.nl +:+ fence) = body +:+ Js.nl).
  { unfold Js.replaceAll. rewrite !app_length'.
    change (String.length Js.nl + String.length fence) with 4.
    rewrite <- (app_empty_r fence) at 1.
    rewrite replaceAllFuel_pass by exact H. reflexivity. }
  rewrite H2. apply trim_nl.
Qed.

(** Cleaning a reply that is wrapped in a fence without a tag: the first
    pattern, which carries a tag, matches nowhere. *)
Lemma unwrap_untagged t tag body :
  Ascii.eqb t Js.LF = false ->
  Js.includes fence body = false ->
  let lit := fence +:+ String t tag in
  Js.trim (Js.replaceAll fence
             (Js.replaceAll lit (fence +:+ Js.nl +:+ body +:+ Js.nl +:+ fence)))
  = Js.trim body.
Proof.
  intros Ht H lit.
  assert (Hlit : lit <> "") by (subst lit; discriminate).
  assert (H1 : Js.replaceAll lit (fence +:+ Js.nl +:+ body +:+ Js.nl +:+ fence)
               = fence +:+ Js.nl +:+ body +:+ Js.nl +:+ fence).
  { unfold Js.replaceAll.
    rewrite (replaceAllFuel_enough _ _ (4 + (String.length body + 4)) _ Hlit);
      [|rewrite !app_length'; cbn; lia..].
    change (fence +:+ Js.nl +:+ body +:+ Js.nl +:+ fence)
      with (String "`" (String "`" (String "`" (String Js.LF
              (body +:+ Js.nl +:+ fence))))).
    cbn [Nat.add].
    rewrite replaceAllFuel_keep
      by (subst lit; unfold fence; rewrite app_cons, !startsWith_cons;
          cbn [String.app Ascii.eqb Bool.eqb]; rewrite !app_cons, !startsWith_cons;
          cbn [Ascii.eqb Bool.eqb]; change ("" +:+ String t tag) with (String t tag);
          rewrite startsWith_cons; by rewrite Ht).
    rewrite !replaceAllFuel_keep by (subst lit; reflexivity).
    subst lit. rewrite replaceAllFuel_pass by exact H. reflexivity. }
  rewrite H1.
  assert (H2 : Js.replaceAll fence (fence +:+ Js.nl +:+ body +:+ Js.nl +:+ fence)
               = body +:+ Js.nl).
  { unfold Js.replaceAll.
    rewrite (replaceAllFuel_enough _ _ (S (String.length body + 7)));
      [|discriminate|rewrite !app_length'; cbn; lia..].
    cbn [Js.replaceAllFuel]. rewrite startsWith_self, slice_app.
    change (Js.skipLF (Js.nl +:+ body +:+ Js.nl +:+ fence))
      with (body +:+ Js.nl +:+ fence).
    rewrite <- (app_empty_r fence) at 1.
    rewrite replaceAllFuel_pass by exact H. reflexivity. }
  rewrite H2. apply trim_nl.
Qed.

Lemma cleanJsonResponse_untagged body :
  Js.includes fence body = false ->
  cleanJsonResponse (fence +:+ Js.nl +:+ body +:+ Js.nl +:+ fence) = Js.trim body.
Proof. exact (unwrap_untagged "j" "son" body eq_refl). Qed.

Lemma cleanPythonResponse_untagged body :
  Js.includes fence body = false ->
  cleanPythonResponse (fence +:+ Js.nl +:+ body +:+ Js.nl +:+ fence) = Js.trim body.
Proof. exact (unwrap_untagged "p" "ython" body eq_refl). Qed.

Lemma cleanJsonResponse_fenced body :
  Js.includes fence body = false ->
  cleanJsonResponse (fence +:+ "json" +:+ Js.nl +:+ body +:+ Js.nl +:+ fence)
  = Js.trim body.
Proof. exact (unwrap_fenced "j" "son" body). Qed.

Lemma cleanPythonResponse_fenced body :
  Js.includes fence body = false ->
  cleanPythonResponse (fence +:+ "python" +:+ Js.nl +:+ body +:+ Js.nl +:+ fence)
  = Js.trim body.
Proof. exact (unwrap_fenced "p" "ython" body). Qed.

(** X3.  A reply that consists of a body without fence markers between an
    opening fence line, with the tag of the cleaner or without a tag, and a
    closing fence line is cleaned to its trimmed body. *)
Theorem fenced_reply_unwrapped body :
  Js.includes fence body = false ->
  cleanJsonResponse (fence +:+ "json" +:+ Js.nl +:+ body +:+ Js.nl +:+ fence)
  = Js.trim body
  /\ cleanJsonResponse (fence +:+ Js.nl +:+ body +:+ Js.nl +:+ fence) = Js.trim body
  /\ cleanPythonResponse (fence +:+ "python" +:+ Js.nl +:+ body +:+ Js.nl +:+ fence)
     = Js.trim body
  /\ cleanPythonResponse (fence +:+ Js.nl +:+ body +:+ Js.nl +:+ fence) = Js.trim body.
Proof.
  intros H. split; [by apply cleanJsonResponse_fenced|].
  split; [by apply cleanJsonResponse_untagged|].
  split; [by apply cleanPythonResponse_fenced|by apply cleanPythonResponse_untagged].
Qed.

Lemma fenced_reply_unwrapped_witness :
  Js.includes fence "from manim import *" = false
  /\ cleanPythonResponse
       (fence +:+ "python" +:+ Js.nl +:+ "from manim import *" +:+ Js.nl +:+ fence)
     = "from manim import *".
Proof.
  split; [reflexivity|].
  exact (proj1 (proj2 (proj2 (fenced_reply_unwrapped "from manim import *" eq_refl)))).
Defined.

(** ** Fences with another tag *)

Lemma includes_longer p q s :
  Js.includes p s = false -> Js.includes (p +:+ q) s = false.
Proof.
  induction s as [|c s IH]; intros H.
  - apply includes_head in H. cbn [Js.includes]. rewrite orb_false_r.
    destruct (Js.startsWith (p +:+ q) "") eqn:E; [|done].
    apply startsWith_app in E. congruence.
  - cbn [Js.includes]. rewrite (IH (includes_tail _ _ _ H)), orb_false_r.
    apply includes_head in H.
    destruct (Js.startsWith (p +:+ q) (String c s)) eqn:E; [|done].
    apply startsWith_app in E. congruence.
Qed.

(** Two texts without fences, joined by a line feed, hold no fence. *)
Lemma includes_fence_join a b :
  Js.includes fence a = false -> Js.includes fence b = false ->
  Js.includes fence (a +:+ Js.nl +:+ b) = false.
Proof.
  intros Ha Hb. induction a as [|c a IH].
  - change ("" +:+ Js.nl +:+ b) with (String Js.LF b). cbn [Js.includes].
    by rewrite Hb.
  - rewrite app_cons. cbn [Js.includes]. rewrite (IH (includes_tail _ _ _ Ha)), orb_false_r.
    rewrite <- app_cons. by apply fence_not_across.
Qed.

Lemma no_backtick_head tag w :
  Js.includes "`" tag = false -> Js.startsWith "`" (tag +:+ Js.nl +:+ w) = false.
Proof.
  intros H. destruct tag as [|c tag]; [reflexivity|].
  apply includes_head in H. rewrite app_cons. by rewrite startsWith_cons in *.
Qed.

Lemma skipLF_tag tag w :
  tag <> "" -> Js.includes Js.nl tag = false ->
  Js.skipLF (tag +:+ w) = tag +:+ w.
Proof.
  intros Hne H. destruct tag as [|c tag]; [done|].
  apply includes_head in H. unfold Js.nl in H. rewrite startsWith_cons in H.
  rewrite app_cons. cbn [Js.skipLF].
  destruct (Ascii.eqb_spec c Js.LF) as [->|_]; [|done].
  by rewrite Ascii.eqb_refl in H.
Qed.

(** The second replacement on a reply whose fence carries a tag: the fence
    goes, the tag stays. *)
Lemma replaceAll_fence_tagged tag body :
  tag <> "" -> Js.includes "`" tag = false -> Js.includes Js.nl tag = false ->
  Js.includes fence body = false ->
  Js.replaceAll fence (fence +:+ tag +:+ Js.nl +:+ body +:+ Js.nl +:+ fence)
  = (tag +:+ Js.nl +:+ body) +:+ Js.nl.
Proof.
  intros Hne Hbt Hnl Hb.
  assert (Hfree : Js.includes fence (tag +:+ Js.nl +:+ body) = false).
  { apply includes_fence_join; [|exact Hb]. exact (includes_longer "`" "``" _ Hbt). }
  unfold Js.replaceAll.
  rewrite (replaceAllFuel_enough _ _
             (S (String.length (tag +:+ Js.nl +:+ body) + 6)));
    [|discriminate|rewrite !app_length'; cbn; lia..].
  cbn [Js.replaceAllFuel]. rewrite startsWith_self, slice_app.
  rewrite skipLF_tag by done.
  rewrite <- !app_assoc'. rewrite (app_assoc' _ Js.nl fence).
  rewrite <- (app_empty_r fence) at 1.
  rewrite replaceAllFuel_pass by (by rewrite !app_assoc'). reflexivity.
Qed.

(** The first replacement finds nothing when the tag is another one. *)
Lemma replaceAll_other_tag lit tag body :
  Js.startsWith lit fence = false ->
  (forall w, Js.startsWith (fence +:+ lit) (fence +:+ tag +:+ Js.nl +:+ w) = false) ->
  Js.includes "`" tag = false ->
  Js.includes fence body = false ->
  let text := fence +:+ tag +:+ Js.nl +:+ body +:+ Js.nl +:+ fence in
  Js.replaceAll (fence +:+ lit) text = text.
Proof.
  intros Hlit H0 Hbt Hb text.
  assert (Hfree : Js.includes fence (tag +:+ Js.nl +:+ body) = false).
  { apply includes_fence_join; [|exact Hb]. exact (includes_longer "`" "``" _ Hbt). }
  unfold Js.replaceAll.
  rewrite (replaceAllFuel_enough _ _
             (3 + (String.length (tag +:+ Js.nl +:+ body) + 4)));
    [|discriminate|subst text; rewrite !app_length'; cbn; lia..].
  subst text.
  change (fence +:+ tag +:+ Js.nl +:+ body +:+ Js.nl +:+ fence)
    with (String "`" (String "`" (String "`"
            (tag +:+ Js.nl +:+ body +:+ Js.nl +:+ fence)))) at 1 2.
  cbn [Nat.add].
  rewrite replaceAllFuel_keep by apply H0.
  assert (Hh : Js.startsWith "`" (tag +:+ Js.nl +:+ body +:+ Js.nl +:+ fence) = false)
    by (by apply no_backtick_head).
  rewrite replaceAllFuel_keep.
  2:{ unfold fence at 1. rewrite !app_cons, !startsWith_cons. cbn [Ascii.eqb Bool.eqb].
      destruct (tag +:+ Js.nl +:+ body +:+ Js.nl +:+ fence) as [|c r]; [done|].
      rewrite startsWith_cons in *. by destruct (Ascii.eqb "`" c). }
  rewrite replaceAllFuel_keep.
  2:{ unfold fence at 1. rewrite !app_cons, !startsWith_cons. cbn [Ascii.eqb Bool.eqb].
      destruct (tag +:+ Js.nl +:+ body +:+ Js.nl +:+ fence) as [|c r]; [done|].
      rewrite startsWith_cons in *. by destruct (Ascii.eqb "`" c). }
  do 3 f_equal.
  rewrite <- !app_assoc'. rewrite (app_assoc' _ Js.nl fence).
  rewrite replaceAllFuel_pass by (by rewrite !app_assoc').
  rewrite !app_assoc'. do 3 f_equal.
  change (Js.nl +:+ fence) with (String Js.LF fence).
  rewrite replaceAllFuel_keep by reflexivity. f_equal.
  apply replaceAllFuel_short. rewrite app_length'.
  destruct lit; [discriminate|]. cbn. lia.
Qed.

Lemma startsWith_split p : forall a w,
  Js.startsWith p (a +:+ w) = true ->
  Js.startsWith p a = true \/ Js.startsWith a p = true.
Proof.
  induction p as [|x p IH]; intros a w; [by left|].
  destruct a as [|y a]; [by right|]. rewrite app_cons, !startsWith_cons.
  destruct (Ascii.eqb_spec x y) as [->|Hxy]; [|done].
  rewrite Ascii.eqb_refl. apply IH.
Qed.

(** A text that ends in a line feed is no prefix of a text without one. *)
Lemma line_not_prefix tag : forall p,
  Js.includes Js.nl p = false -> Js.startsWith (tag +:+ Js.nl) p = false.
Proof.
  induction tag as [|c tag IH]; intros p H.
  - change ("" +:+ Js.nl) with Js.nl. destruct p as [|x p]; [done|].
    apply includes_head in H. unfold Js.nl in *. rewrite startsWith_cons in *.
    by destruct (Ascii.eqb Js.LF x).
  - destruct p as [|x p]; [done|]. rewrite app_cons, startsWith_cons.
    destruct (Ascii.eqb c x); [|done]. eapply IH, includes_tail, H.
Qed.

Lemma other_tag_head lit tag w :
  Js.includes Js.nl lit = false ->
  Js.startsWith lit (tag +:+ Js.nl) = false ->
  Js.startsWith (fence +:+ lit) (fence +:+ tag +:+ Js.nl +:+ w) = false.
Proof.
  intros Hnl H. unfold fence. rewrite !app_cons, !startsWith_cons.
  cbn [Ascii.eqb Bool.eqb]. change ("" +:+ ?x) with x.
  destruct (Js.startsWith lit (tag +:+ Js.nl +:+ w)) eqn:E; [|done].
  rewrite <- app_assoc' in E. apply startsWith_split in E as [E|E]; [congruence|].
  by rewrite line_not_prefix in E.
Qed.

(** A reply whose fence carries the tag [tag], cleaned for the tag [lit]. *)
Lemma clean_other_tag lit tag body :
  Js.startsWith lit fence = false -> Js.includes Js.nl lit = false ->
  tag <> "" -> Js.includes "`" tag = false -> Js.includes Js.nl tag = false ->
  Js.includes fence body = false ->
  Js.startsWith lit (tag +:+ Js.nl) = false ->
  Js.trim (Js.replaceAll fence
             (Js.replaceAll (fence +:+ lit)
                (fence +:+ tag +:+ Js.nl +:+ body +:+ Js.nl +:+ fence)))
  = Js.trim (tag +:+ Js.nl +:+ body).
Proof.
  intros Hlit Hlnl Hne Hbt Hnl Hb Hother.
  rewrite replaceAll_other_tag; try done.
  - rewrite replaceAll_fence_tagged by done. apply trim_nl.
  - intros w. by apply other_tag_head.
Qed.

(** X4.  When the opening fence carries another tag (one without
    backtick or line feed that does not begin with the tag of the cleaner),
    only the fences are removed: the tag stays as the first line of the
    cleaned text. *)
Theorem other_tag_stays tag body :
  tag <> "" ->
  Js.includes "`" tag = false ->
  Js.includes Js.nl tag = false ->
  Js.includes fence body = false ->
  let reply := fence +:+ tag +:+ Js.nl +:+ body +:+ Js.nl +:+ fence in
  (Js.startsWith "json" (tag +:+ Js.nl) = false ->
   cleanJsonResponse reply = Js.trim (tag +:+ Js.nl +:+ body))
  /\ (Js.startsWith "python" (tag +:+ Js.nl) = false ->
      cleanPythonResponse reply = Js.trim (tag +:+ Js.nl +:+ body)).
Proof.
  intros Hne Hbt Hnl Hb reply. subst reply. split; intros Hother.
  - exact (clean_other_tag "json" tag body eq_refl eq_refl Hne Hbt Hnl Hb Hother).
  - exact (clean_other_tag "python" tag body eq_refl eq_refl Hne Hbt Hnl Hb Hother).
Qed.

(** A reply fenced as [javascript]: the tag is the first line of the
    cleaned text. *)
Lemma other_tag_stays_witness :
  cleanJsonResponse (fence +:+ "javascript" +:+ Js.nl +:+ "[1,2]" +:+ Js.nl +:+ fence)
  = "javascript" +:+ Js.nl +:+ "[1,2]".
Proof.
  assert (Hne : "javascript" <> "") by discriminate.
  exact (proj1 (other_tag_stays "javascript" "[1,2]" Hne eq_refl eq_refl eq_refl) eq_refl).
Defined.

(** ** Removal of a subtree *)

Lemma present_nil d : Fs.present [] d = true.
Proof. reflexivity. Qed.

Lemma present_cons x q es :
  Fs.present (x :: q) (Dir es)
  = match Fs.entry x es with Some c => Fs.present q c | None => false end.
Proof. unfold Fs.present. cbn [Fs.lookup]. by destruct (Fs.entry x es). Qed.

Lemma present_cons_other x q d :
  (forall es, d <> Dir es) -> Fs.present (x :: q) d = false.
Proof. intros H. destruct d as [|es|]; try reflexivity. by destruct (H es). Qed.

(** After the removal of [p], exactly the paths at or below [p] are gone. *)
Lemma present_remove p : forall q d,
  p <> [] ->
  Fs.present q (Fs.remove p d) = Fs.present q d && negb (isPrefix p q).
Proof.
  induction p as [|x p IH]; intros q d Hp; [done|]. clear Hp.
  destruct q as [|y q].
  { cbn [isPrefix negb]. by rewrite !present_nil. }
  destruct d as [|es|]; [by destruct p| |by destruct p].
  destruct p as [|x2 p].
  - cbn [Fs.remove isPrefix]. rewrite !present_cons, andb_true_r.
    destruct (String.eqb_spec x y) as [->|Hxy].
    + rewrite entry_without_same. cbn [negb]. by rewrite andb_false_r.
    + rewrite entry_without_other by exact Hxy. cbn [negb]. by rewrite andb_true_r.
  - rewrite remove_deep, !present_cons, entry_map_remove. cbn [isPrefix].
    destruct (String.eqb_spec x y) as [->|Hxy].
    + rewrite String.eqb_refl. cbn [andb].
      destruct (Fs.entry y es) as [c|]; [|reflexivity]. cbn [fmap option_fmap option_map].
      by apply IH.
    + assert (String.eqb y x = false) as -> by (apply String.eqb_neq; congruence).
      cbn [andb negb]. rewrite andb_true_r.
      by destruct (Fs.entry y es).
Qed.

Lemma isPrefix_refl p : isPrefix p p = true.
Proof. induction p as [|x p IH]; [done|]. cbn. by rewrite String.eqb_refl. Qed.

Lemma isPrefix_app p q : isPrefix p (p ++ q) = true.
Proof. induction p as [|x p IH]; [done|]. cbn. by rewrite String.eqb_refl. Qed.

Lemma present_below p q d :
  Fs.present p d = false -> isPrefix p q = true -> Fs.present q d = false.
Proof.
  revert q d. induction p as [|x p IH]; intros q d; [by rewrite present_nil|].
  destruct q as [|y q]; [done|]. cbn [isPrefix].
  destruct (String.eqb_spec x y) as [->|]; [|done]. cbn [andb].
  destruct d as [|es|]; try reflexivity. rewrite !present_cons.
  destruct (Fs.entry y es); [apply IH|done].
Qed.

(** What [deleteDirectory] leaves behind when the removal does not raise. *)
Lemma deleteDirectory_removes env dir d q :
  dir <> [] -> faults env OpRm dir = None ->
  Fs.present q (disk_after (deleteDirectory env dir d))
  = Fs.present q d && negb (isPrefix dir q).
Proof.
  intros Hdir Hrm. destruct (Fs.present dir d) eqn:E.
  - rewrite (deleteDirectory_present _ _ _ E), Hrm. cbn [disk_after].
    by apply present_remove.
  - rewrite (deleteDirectory_missing _ _ _ E). cbn [disk_after].
    destruct (isPrefix dir q) eqn:Ep; cbn [negb]; [|by rewrite andb_true_r].
    by rewrite (present_below _ _ _ E Ep).
Qed.

Lemma isPrefix_app_inside p r : forall q,
  r <> [] -> isPrefix (p ++ r) q = true -> inside p q = true.
Proof.
  unfold inside. induction p as [|x p IH]; intros q Hr H.
  - destruct r as [|y r]; [done|]. by destruct q.
  - destruct q as [|y q]; [done|]. cbn [app isPrefix List.length] in *.
    apply andb_prop in H as [Hxy H]. rewrite Hxy. cbn [andb].
    exact (IH q Hr H).
Qed.

Lemma inside_same_length p q :
  List.length p = List.length q -> inside p q = false.
Proof.
  intros H. unfold inside. rewrite H.
  rewrite Nat.ltb_irrefl. apply andb_false_r.
Qed.

(** An interrupted removal of [p] touches only what is properly below
    [p]. *)
Lemma present_prune_frame p qs q : forall d,
  inside p q = false -> Fs.present q (Fs.prune p qs d) = Fs.present q d.
Proof.
  intros d Hq. revert d. induction qs as [|r qs IH]; intros d; [reflexivity|].
  rewrite prune_cons, IH. destruct r as [|y r]; [reflexivity|].
  rewrite present_remove by (by destruct p).
  destruct (isPrefix (p ++ y :: r) q) eqn:E; [|cbn [negb]; apply andb_true_r].
  apply isPrefix_app_inside in E; [congruence|done].
Qed.

(** What [deleteDirectory] leaves behind when the removal raises: the
    paths that are not properly below [dir] are as before. *)
Lemma deleteDirectory_frame env dir d e q :
  faults env OpRm dir = Some e -> inside dir q = false ->
  Fs.present q (disk_after (deleteDirectory env dir d)) = Fs.present q d.
Proof.
  intros Hrm Hq. destruct (Fs.present dir d) eqn:E.
  - rewrite (deleteDirectory_present _ _ _ E), Hrm. cbn [disk_after].
    by apply present_prune_frame.
  - by rewrite (deleteDirectory_missing _ _ _ E).
Qed.

Lemma deleteDirectory_keeps_absent env dir d q :
  Fs.present q d = false -> Fs.present q (disk_after (deleteDirectory env dir d)) = false.
Proof. apply deleteDirectory_run. Qed.

(** X5.  The effect of [deleteDirectory] on a path other than the root:
    when the removal does not raise, a path exists afterwards exactly when
    it existed before and is not at or below the deleted path; when the
    removal raises, entries below the path may be gone, every path that is
    not properly below it exists exactly when it did before, and no path
    appears; and one message is logged exactly when the path existed, a
    success or the error. *)
Theorem deleteDirectory_effect env dir d :
  dir <> [] ->
  let r := deleteDirectory env dir d in
  (faults env OpRm dir = None ->
   forall q, Fs.present q (disk_after r) = Fs.present q d && negb (isPrefix dir q))
  /\ (forall e, faults env OpRm dir = Some e ->
        (forall q, inside dir q = false ->
           Fs.present q (disk_after r) = Fs.present q d)
        /\ (forall q, Fs.present q d = false -> Fs.present q (disk_after r) = false))
  /\ events r
     = (if Fs.present dir d
        then [match faults env OpRm dir with
              | None => Log ("Successfully deleted directory: " +:+ path_str dir)
              | Some e => LogError ("Error deleting directory " +:+ path_str dir
                                    +:+ ": " +:+ e)
              end]
        else []).
Proof.
  intros Hdir r. subst r. split; [|split].
  - intros Hrm q. by apply deleteDirectory_removes.
  - intros e Hrm. split; intros q Hq.
    + by apply (deleteDirectory_frame env dir d e).
    + by apply deleteDirectory_keeps_absent.
  - destruct (Fs.present dir d) eqn:E.
    + rewrite (deleteDirectory_present _ _ _ E). by destruct (faults env OpRm dir).
    + by rewrite (deleteDirectory_missing _ _ _ E).
Qed.

(** The removal of [videos/job] raises after the video in it is gone: the
    directory and its neighbours are as before. *)
Lemma deleteDirectory_effect_witness :
  let r := deleteDirectory interruptedRm ["videos"; "job"] publishedDisk in
  ["videos"; "job"] <> []
  /\ Fs.present ["videos"; "job"] (disk_after r) = true
  /\ Fs.present ["videos"; "notes.txt"] (disk_after r) = true
  /\ Fs.present ["videos"; "old"; "Sort_with_audio.mp4"] (disk_after r) = true.
Proof.
  cbv zeta.
  assert (Hne : ["videos"; "job"] <> []) by discriminate.
  destruct (deleteDirectory_effect interruptedRm ["videos"; "job"] publishedDisk Hne)
    as (_ & Hkept & _).
  destruct (Hkept _ eq_refl) as (Hframe & _).
  split; [exact Hne|]. repeat split; rewrite Hframe; reflexivity.
Defined.

(** In that run the video below [videos/job] is gone although the removal
    raised. *)
Example interrupted_removal :
  let r := deleteDirectory interruptedRm ["videos"; "job"] publishedDisk in
  Fs.present ["videos"; "job"; "AlgorithmDemo_with_audio.mp4"] publishedDisk = true
  /\ Fs.present ["videos"; "job"; "AlgorithmDemo_with_audio.mp4"] (disk_after r) = false
  /\ events r = [LogError ("Error deleting directory videos/job: "
                           +:+ "EBUSY: resource busy or locked")].
Proof. by vm_compute. Qed.


(** ** Request parameters as paths *)

Lemma split_plain name :
  Js.includes "/" name = false -> Path.split name = [name].
Proof.
  induction name as [|c s IH]; [done|]. intros H.
  pose proof (includes_head _ _ H) as Hh. rewrite startsWith_cons in Hh.
  cbn [Path.split]. destruct (Ascii.eqb_spec c "/") as [->|Hc]; [discriminate|].
  by rewrite (IH (includes_tail _ _ _ H)).
Qed.

Lemma plain_inv name :
  Path.plain name = true ->
  name <> "" /\ String.eqb name "" = false /\ String.eqb name "." = false
  /\ String.eqb name ".." = false /\ Js.includes "/" name = false.
Proof.
  unfold Path.plain. intros H.
  apply andb_prop in H as [H H4]. apply andb_prop in H as [H H3].
  apply andb_prop in H as [H1 H2].
  apply negb_true_iff in H1, H2, H3, H4.
  repeat split; try done. intros ->. discriminate.
Qed.

(** For a plain name [path.join] appends a segment. *)
Lemma join_plain dir name :
  Path.plain name = true -> Path.join dir name = Some (dir ++ [name]).
Proof.
  intros H. destruct (plain_inv _ H) as (_ & H1 & H2 & H3 & H4).
  unfold Path.join. rewrite (split_plain _ H4). cbn [List.last Path.walk].
  rewrite H1, H2, H3. cbn [orb]. cbn [List.rev]. by rewrite rev_involutive.
Qed.

(** A leading [../] leaves the directory of the videos. *)
Lemma join_parent name :
  Path.plain name = true -> Path.join videosDir ("../" +:+ name) = Some [name].
Proof.
  intros H. destruct (plain_inv _ H) as (_ & H1 & H2 & H3 & H4).
  unfold Path.join.
  assert (Hs : Path.split ("../" +:+ name) = [".."; name]).
  { change ("../" +:+ name) with (String "." (String "." (String "/" name))).
    cbn [Path.split]. rewrite (split_plain _ H4). reflexivity. }
  rewrite Hs. cbn [List.last]. rewrite H1. cbn [videosDir List.rev app Path.walk].
  rewrite H1, H2, H3. reflexivity.
Qed.

(** ** The cleanup of one video *)

Lemma cleanupVideoAt_run env videoDir videoId d :
  cleanupVideoAt env videoDir videoId d
  = if Fs.present videoDir d
    then after_events (events (deleteDirectory env videoDir d))
           {| result := Normal {| status := 200;
                                  body := [("message", "Video " +:+ videoId
                                            +:+ " deleted successfully")] |};
              disk_after := disk_after (deleteDirectory env videoDir d);
              events := [] |}
    else {| result := Normal {| status := 404;
                                body := [("error", "Video not found")] |};
            disk_after := d; events := [] |}.
Proof.
  unfold cleanupVideoAt, try_catch. rewrite bind_existsSync.
  destruct (Fs.present videoDir d) eqn:E; [|reflexivity].
  unfold bind. destruct (deleteDirectory_run env videoDir d) as (-> & _).
  reflexivity.
Qed.

(** X8.  [DELETE /api/cleanup/:videoId] with a plain name: 404 and an
    untouched disk when [videos/<videoId>] does not exist; otherwise 200
    with the success message, also when the removal raised.  When the
    removal does not raise, exactly the paths at or below
    [videos/<videoId>] are gone; when it raises, the error is only logged,
    every path that is not properly below [videos/<videoId>] exists exactly
    when it did before, and no path appears. *)
Theorem cleanup_video env videoId d :
  Path.plain videoId = true ->
  let videoDir := videosDir ++ [videoId] in
  exists handler,
    cleanupVideo env videoId = Some handler
    /\ (Fs.present videoDir d = false ->
        handler d = {| result := Normal {| status := 404;
                                           body := [("error", "Video not found")] |};
                       disk_after := d; events := [] |})
    /\ (Fs.present videoDir d = true ->
        result (handler d)
        = Normal {| status := 200;
                    body := [("message", "Video " +:+ videoId
                                         +:+ " deleted successfully")] |}
        /\ (faults env OpRm videoDir = None ->
            forall q, Fs.present q (disk_after (handler d))
                      = Fs.present q d && negb (isPrefix videoDir q))
        /\ (forall e, faults env OpRm videoDir = Some e ->
              events (handler d)
              = [LogError ("Error deleting directory " +:+ path_str videoDir
                           +:+ ": " +:+ e)]
              /\ (forall q, inside videoDir q = false ->
                    Fs.present q (disk_after (handler d)) = Fs.present q d)
              /\ (forall q, Fs.present q d = false ->
                    Fs.present q (disk_after (handler d)) = false))).
Proof.
  intros Hplain videoDir. unfold cleanupVideo. rewrite (join_plain _ _ Hplain).
  eexists. split; [reflexivity|]. cbv beta. fold videoDir.
  rewrite cleanupVideoAt_run. split.
  - by intros ->.
  - intros Hex. rewrite Hex. cbn [after_events result disk_after events].
    split; [reflexivity|]. split.
    + intros Hrm q. apply deleteDirectory_removes; [by destruct videosDir|exact Hrm].
    + intros e Hrm. split; [|split].
      * rewrite (deleteDirectory_present _ _ _ Hex), Hrm. cbn [events]. apply app_nil_r.
      * intros q Hq. by apply (deleteDirectory_frame env videoDir d e).
      * intros q Hq. by apply deleteDirectory_keeps_absent.
Qed.

Lemma cleanup_video_witness :
  Path.plain "job" = true
  /\ exists handler,
       cleanupVideo workingEnv "job" = Some handler
       /\ result (handler publishedDisk)
          = Normal {| status := 200;
                      body := [("message", "Video job deleted successfully")] |}.
Proof.
  split; [reflexivity|].
  destruct (cleanup_video workingEnv "job" publishedDisk eq_refl)
    as (handler & Hh & _ & Hex).
  exists handler. split; [exact Hh|]. exact (proj1 (Hex eq_refl)).
Defined.


(** X9.  The parameter is joined to the directory of the videos without
    a check: for a plain name [name], the request with the parameter
    [../name] removes [name] from the directory of the server, with
    everything below it, and answers 200. *)
Theorem cleanup_video_escapes env name d :
  Path.plain name = true ->
  Fs.present [name] d = true ->
  faults env OpRm [name] = None ->
  exists handler,
    cleanupVideo env ("../" +:+ name) = Some handler
    /\ result (handler d)
       = Normal {| status := 200;
                   body := [("message", "Video ../" +:+ name
                                        +:+ " deleted successfully")] |}
    /\ forall q, Fs.present q (disk_after (handler d))
                 = Fs.present q d && negb (isPrefix [name] q).
Proof.
  intros Hplain Hex Hrm. unfold cleanupVideo. rewrite (join_parent _ Hplain).
  eexists. split; [reflexivity|]. cbv beta.
  rewrite cleanupVideoAt_run, Hex. cbn [after_events result disk_after events].
  split; [reflexivity|].
  intros q. by apply deleteDirectory_removes.
Qed.

Lemma cleanup_video_escapes_witness :
  Path.plain "audio" = true
  /\ Fs.present ["audio"] publishedDisk = true
  /\ exists handler,
       cleanupVideo workingEnv "../audio" = Some handler
       /\ Fs.present ["audio"] (disk_after (handler publishedDisk)) = false.
Proof.
  split; [reflexivity|]. split; [reflexivity|].
  destruct (cleanup_video_escapes workingEnv "audio" publishedDisk eq_refl eq_refl eq_refl)
    as (handler & Hh & _ & Hgone).
  exists handler. split; [exact Hh|]. rewrite Hgone. reflexivity.
Defined.


(** ** The cleanup of all videos *)


Lemma deleteEach_run env names : forall deletedCount d,
  let r := deleteEach env names deletedCount d in
  result r = Normal (deletedCount + length names)
  /\ (forall q,
        List.existsb (fun n => inside (videosDir ++ [n]) q)
          (List.filter (fun n => negb (removable env n)) names) = false ->
        Fs.present q (disk_after r)
        = Fs.present q d
          && negb (List.existsb (fun n => isPrefix (videosDir ++ [n]) q)
                     (List.filter (removable env) names)))
  /\ (forall q, Fs.present q d = false -> Fs.present q (disk_after r) = false).
Proof.
  induction names as [|n names IH]; intros count d; cbv zeta.
  - cbn. split; [f_equal; lia|]. split; [|done]. intros q _. by rewrite andb_true_r.
  - cbn [deleteEach]. rewrite result_bind.
    destruct (deleteDirectory_run env (videosDir ++ [n]) d) as (Hres & _).
    rewrite Hres. destruct (IH (S count) (disk_after (deleteDirectory env (videosDir ++ [n]) d)))
      as (IHres & IHdisk & IHabsent).
    split; [rewrite IHres; cbn [length]; f_equal; lia|].
    unfold bind at 1 2. rewrite Hres. cbn [disk_after]. split.
    + intros q. cbn [List.filter].
      destruct (faults env OpRm (videosDir ++ [n])) as [e|] eqn:Hrm.
      * assert (Hb : removable env n = false) by (unfold removable; by rewrite Hrm).
        rewrite Hb. cbn [negb List.existsb]. intros Hq.
        apply orb_false_elim in Hq as [Hn Hq].
        rewrite (IHdisk q Hq). by rewrite (deleteDirectory_frame _ _ _ _ _ Hrm Hn).
      * assert (Hb : removable env n = true) by (unfold removable; by rewrite Hrm).
        rewrite Hb. cbn [negb]. intros Hq. rewrite (IHdisk q Hq).
        rewrite deleteDirectory_removes by (done || by destruct videosDir).
        cbn [List.existsb]. rewrite negb_orb. by rewrite andb_assoc.
    + intros q Hq. apply IHabsent. by apply deleteDirectory_keeps_absent.
Qed.

(** X10.  [DELETE /api/cleanup-all]: when [videos] can be listed, the
    answer is 200 and counts every listed directory, whether its removal
    raised or not; a path that is not properly below a listed directory
    whose removal raises exists afterwards exactly when it existed before
    and is not at or below a listed directory whose removal does not raise;
    no path appears; a listed directory whose removal does not raise is
    gone; when [videos] cannot be listed, the answer is 500 and the disk is
    unchanged. *)
Theorem cleanup_all env d :
  let r := cleanupAll env d in
  match Fs.lookup videosDir d, faults env OpReaddir videosDir with
  | Some (Dir es), None =>
      let videoDirectories :=
        List.map name (List.filter isDirectory (List.map dirent_of es)) in
      result r
      = Normal {| status := 200;
                  body := [("message",
                            "Cleaned up " +:+ pretty (length videoDirectories)
                            +:+ " video directories")] |}
      /\ (forall q,
            List.existsb (fun n => inside (videosDir ++ [n]) q)
              (List.filter (fun n => negb (removable env n)) videoDirectories) = false ->
            Fs.present q (disk_after r)
            = Fs.present q d
              && negb (List.existsb (fun n => isPrefix (videosDir ++ [n]) q)
                         (List.filter (removable env) videoDirectories)))
      /\ (forall q, Fs.present q d = false -> Fs.present q (disk_after r) = false)
      /\ (forall n, In n videoDirectories -> removable env n = true ->
            Fs.present (videosDir ++ [n]) (disk_after r) = false)
  | _, _ =>
      result r = Normal {| status := 500;
                           body := [("error", "Failed to cleanup videos")] |}
      /\ disk_after r = d
  end.
Proof.
  cbv zeta. unfold cleanupAll.
  destruct (faults env OpReaddir videosDir) as [e|] eqn:Hf.
  { assert (H : result (readdirSync env videosDir d) = Throw e
                /\ disk_after (readdirSync env videosDir d) = d).
    { unfold readdirSync, checkFault, bind. rewrite Hf. by split. }
    destruct H as [Hr Hd]. unfold try_catch.
    rewrite (bind_throw _ _ _ _ Hr). cbn [result disk_after]. rewrite Hd.
    destruct (Fs.lookup videosDir d) as [[|es|]|]; by split. }
  destruct (Fs.lookup videosDir d) as [n|] eqn:Hl.
  2:{ unfold try_catch, readdirSync, checkFault, bind, getDisk. rewrite Hf.
      cbn [result disk_after ret]. rewrite Hl. by split. }
  destruct n as [|es|].
  1,3: unfold try_catch, readdirSync, checkFault, bind, getDisk; rewrite Hf;
       cbn [result disk_after ret]; rewrite Hl; by split.
  unfold try_catch. rewrite (bind_normal _ _ _ _
    (f_equal result (run_readdirSync_ok env videosDir d es Hf Hl))).
  rewrite (run_readdirSync_ok env videosDir d es Hf Hl).
  cbn [result disk_after events after_events].
  set (names := List.map name (List.filter isDirectory (List.map dirent_of es))).
  destruct (deleteEach_run env names 0 d) as (Hres & Hdisk & Habsent).
  cbv zeta in Hres, Hdisk, Habsent.
  unfold bind. rewrite Hres. cbn [result disk_after events json ret].
  split; [reflexivity|]. split; [exact Hdisk|]. split; [exact Habsent|].
  intros n Hin Hrm. rewrite Hdisk.
  - assert (He : List.existsb (fun n0 => isPrefix (videosDir ++ [n0]) (videosDir ++ [n]))
                   (List.filter (removable env) names) = true).
    { apply existsb_exists. exists n. split; [|apply isPrefix_refl].
      apply filter_In. by split. }
    rewrite He. cbn [negb]. apply andb_false_r.
  - apply not_true_is_false. intros He. apply existsb_exists in He as (m & _ & Hm).
    by rewrite inside_same_length in Hm.
Qed.

(** Both directories of the videos are counted although the removal of
    each raised, after the video in [videos/job] was gone. *)
Example interrupted_cleanup :
  let r := cleanupAll interruptedRm publishedDisk in
  result r = Normal {| status := 200;
                       body := [("message", "Cleaned up 2 video directories")] |}
  /\ Fs.present ["videos"; "job"] (disk_after r) = true
  /\ Fs.present ["videos"; "job"; "AlgorithmDemo_with_audio.mp4"] (disk_after r) = false
  /\ Fs.present ["videos"; "old"; "Sort_with_audio.mp4"] (disk_after r) = true.
Proof. by vm_compute. Qed.

(** ** What the search returns *)

Lemma firstFound_some rs p :
  firstFound rs = Some p -> In (Normal (Some p)) rs.
Proof.
  induction rs as [|r rs IH]; [done|]. cbn [firstFound].
  destruct r as [[q|]|e]; [intros [= ->]; by left|..]; intros H; right; by apply IH.
Qed.

Lemma firstFound_found rs p :
  In (Normal (Some p)) rs -> exists q, firstFound rs = Some q.
Proof.
  induction rs as [|r rs IH]; [done|]. intros [->|H]; [by eexists|].
  cbn [firstFound]. destruct r as [[q|]|e]; eauto.
Qed.

Lemma find_isVideo_entry es item :
  List.find isVideo (List.map dirent_of es) = Some item ->
  In (name item, File) es /\ Js.endsWith ".mp4" (name item) = true.
Proof.
  intros H. apply find_some in H as [Hin Hv].
  apply in_map_iff in Hin as ([x n] & <- & Hin).
  unfold isVideo in Hv. apply andb_prop in Hv as [Hf He]. cbn in Hf, He |- *.
  split; [|exact He]. by destruct n.
Qed.

(** The search returns only what a listing shows as a regular file whose
    name ends in [.mp4]. *)
Lemma findVideoFile_sound env d : forall h dir n p,
  Fs.height n <= h ->
  Fs.lookup dir d = Some n ->
  result (findVideoFile env dir d) = Normal (Some p) ->
  exists sub fileName es,
    p = dir ++ sub ++ [fileName]
    /\ Fs.lookup (dir ++ sub) d = Some (Dir es)
    /\ In (fileName, File) es
    /\ Js.endsWith ".mp4" fileName = true.
Proof.
  induction h as [|h IH]; intros dir n p Hh Hl Hres.
  - destruct n as [|es|]; [| cbn in Hh; lia |];
      rewrite find_not_directory in Hres by first [by left | by right]; discriminate.
  - destruct n as [|es|];
      [rewrite find_not_directory in Hres by (by left); discriminate
      | |rewrite find_not_directory in Hres by (by right); discriminate].
    destruct (faults env OpReaddir dir) as [e|] eqn:Hf.
    { rewrite (find_listing_error _ _ _ _ Hf) in Hres. discriminate. }
    destruct (List.find isVideo (List.map dirent_of es)) as [item|] eqn:Hfind.
    + rewrite (find_level_first _ _ _ _ _ Hl Hf Hfind) in Hres.
      injection Hres as <-. destruct (find_isVideo_entry _ _ Hfind) as [Hin He].
      exists [], (name item), es. rewrite app_nil_r. by repeat split.
    + rewrite (find_descends _ _ _ _ Hl Hf Hfind) in Hres.
      injection Hres as Hres. apply firstFound_some in Hres.
      apply in_map_iff in Hres as (item & Hres & Hin).
      destruct (Fs.lookup (dir ++ [name item]) d) as [c|] eqn:Hc.
      2:{ rewrite find_missing in Hres by (unfold Fs.present; by rewrite Hc). discriminate. }
      pose proof Hc as Hc'. rewrite (lookup_child _ _ _ _ Hl) in Hc'.
      apply entry_height in Hc'.
      destruct (IH (dir ++ [name item]) c p ltac:(lia) Hc Hres)
        as (sub & f & es' & -> & Hl' & Hin' & He').
      exists (name item :: sub), f, es'. rewrite <- !app_assoc in *. cbn [app] in *.
      by repeat split.
Qed.

(** *** Trees with distinct names *)

Lemma existsb_eqb_In x xs : List.existsb (String.eqb x) xs = true <-> In x xs.
Proof.
  rewrite existsb_exists. split.
  - intros (y & Hin & He). apply String.eqb_eq in He. by subst.
  - intros H. exists x. split; [done|apply String.eqb_refl].
Qed.

Lemma distinct_entry e es :
  distinct (List.map fst es) = true -> In e es -> Fs.entry (fst e) es = Some (snd e).
Proof.
  induction es as [|e' es IH]; [done|]. cbn [List.map distinct].
  intros H Hin. apply andb_prop in H as [Hnot Hd]. rewrite entry_cons.
  destruct Hin as [->|Hin]; [by rewrite String.eqb_refl|].
  destruct (String.eqb_spec (fst e') (fst e)) as [Heq|_]; [|by apply IH].
  apply negb_true_iff in Hnot.
  assert (H : List.existsb (String.eqb (fst e')) (List.map fst es) = true).
  { apply existsb_eqb_In. rewrite Heq. by apply in_map. }
  congruence.
Qed.

Lemma uniqueNames_dir es :
  uniqueNames (Dir es) = true ->
  distinct (List.map fst es) = true
  /\ forall e, In e es -> uniqueNames (snd e) = true.
Proof.
  cbn [uniqueNames]. intros H. apply andb_prop in H as [Hd Hall].
  split; [exact Hd|]. clear Hd. induction es as [|e' es IH]; [done|].
  cbn [List.fold_right] in Hall. apply andb_prop in Hall as [H1 H2].
  intros e [->|Hin]; [exact H1|by apply IH].
Qed.

Lemma entry_In x es c : Fs.entry x es = Some c -> In (x, c) es.
Proof.
  induction es as [|[y n] es IH]; [done|]. rewrite entry_cons. cbn [fst snd].
  destruct (String.eqb_spec y x) as [->|_]; [intros [= ->]; by left|].
  intros H. right. by apply IH.
Qed.

Lemma uniqueNames_lookup p : forall d c,
  uniqueNames d = true -> Fs.lookup p d = Some c -> uniqueNames c = true.
Proof.
  induction p as [|x p IH]; intros d c Hu; cbn [Fs.lookup]; [by intros [= <-]|].
  destruct d as [|es|]; try done.
  destruct (Fs.entry x es) as [c'|] eqn:E; [|done].
  apply IH. apply entry_In in E.
  destruct (uniqueNames_dir _ Hu) as [_ Hall]. exact (Hall _ E).
Qed.

Lemma countVideos_cons e es :
  countVideos (Dir (e :: es))
  = (if isVideo (dirent_of e) then 1 else 0) + countVideos (snd e) + countVideos (Dir es).
Proof. reflexivity. Qed.

(** Videos below a directory that has none at its own level are below one
    of its subdirectories. *)
Lemma countVideos_below es :
  List.find isVideo (List.map dirent_of es) = None ->
  countVideos (Dir es) <> 0 ->
  exists e sub, In e es /\ snd e = Dir sub /\ countVideos (snd e) <> 0.
Proof.
  induction es as [|e es IH]; [done|]. cbn [List.map List.find].
  destruct (isVideo (dirent_of e)) eqn:Ev; [done|]. intros Hfind.
  rewrite countVideos_cons, Ev. intros Hc.
  destruct (Nat.eq_dec (countVideos (snd e)) 0) as [H0|H0].
  - destruct (IH Hfind) as (e' & sub & Hin & Hs & Hn); [lia|].
    exists e', sub. split; [by right|by split].
  - destruct (snd e) as [|sub|] eqn:Es; [done| |done].
    exists e, sub. split; [by left|]. split; [done|]. by rewrite Es.
Qed.

Lemma findVideoFile_complete env d :
  (forall q, faults env OpReaddir q = None) ->
  forall h dir n,
    Fs.height n <= h ->
    Fs.lookup dir d = Some n ->
    uniqueNames n = true ->
    countVideos n <> 0 ->
    exists p, result (findVideoFile env dir d) = Normal (Some p).
Proof.
  intros Hf. induction h as [|h IH]; intros dir n Hh Hl Hu Hc.
  { destruct n as [|es|]; [done|cbn in Hh; lia|done]. }
  destruct n as [|es|]; [done| |done].
  destruct (List.find isVideo (List.map dirent_of es)) as [item|] eqn:Hfind.
  { rewrite (find_level_first _ _ _ _ _ Hl (Hf dir) Hfind). eauto. }
  rewrite (find_descends _ _ _ _ Hl (Hf dir) Hfind).
  destruct (countVideos_below _ Hfind Hc) as (e & sub & Hin & Hs & Hn).
  destruct (uniqueNames_dir _ Hu) as [Hd Hall].
  pose proof (distinct_entry _ _ Hd Hin) as He.
  assert (Hl' : Fs.lookup (dir ++ [fst e]) d = Some (snd e))
    by (by rewrite (lookup_child _ _ _ _ Hl)).
  pose proof (entry_height _ _ _ He) as Hlt.
  destruct (IH (dir ++ [fst e]) (snd e) ltac:(lia) Hl' (Hall _ Hin) Hn) as [p Hp].
  destruct (firstFound_found
              (List.map (fun item => result (findVideoFile env (dir ++ [name item]) d))
                 (List.filter isDirectory (List.map dirent_of es))) p) as [q Hq].
  - apply in_map_iff. exists (dirent_of e). split; [exact Hp|].
    apply filter_In. split; [by apply in_map|]. cbn. by rewrite Hs.
  - rewrite Hq. eauto.
Qed.

(** X6.  A path returned by [findVideoFile] lies below the directory
    searched, exists, and names an entry that its directory lists as a
    regular file whose name ends in [.mp4]; on a disk whose directories
    hold distinct names it is a regular file. *)
Theorem found_video_is_listed env dir d p :
  result (findVideoFile env dir d) = Normal (Some p) ->
  exists sub fileName es,
    p = dir ++ sub ++ [fileName]
    /\ Fs.lookup (dir ++ sub) d = Some (Dir es)
    /\ In (fileName, File) es
    /\ Js.endsWith ".mp4" fileName = true
    /\ Fs.present p d = true
    /\ (uniqueNames d = true -> Fs.lookup p d = Some File).
Proof.
  intros Hres.
  destruct (Fs.lookup dir d) as [n|] eqn:Hl.
  2:{ rewrite find_missing in Hres by (unfold Fs.present; by rewrite Hl). discriminate. }
  destruct (findVideoFile_sound env d _ dir n p (le_n _) Hl Hres)
    as (sub & f & es & -> & Hl' & Hin & He).
  exists sub, f, es. do 4 (split; [done|]).
  assert (Hp : Fs.lookup (dir ++ sub ++ [f]) d = Fs.entry f es)
    by (rewrite app_assoc; by apply lookup_child).
  split.
  - unfold Fs.present. rewrite Hp.
    destruct (entry_in _ _ Hin) as [c Hc]. cbn [fst] in Hc. by rewrite Hc.
  - intros Hu. rewrite Hp.
    destruct (uniqueNames_dir _ (uniqueNames_lookup _ _ _ Hu Hl')) as [Hd _].
    exact (distinct_entry _ _ Hd Hin).
Qed.

Lemma found_video_is_listed_witness :
  result (findVideoFile workingEnv ["a"] exampleTree) = Normal (Some ["a"; "video.mp4"])
  /\ Fs.lookup ["a"; "video.mp4"] exampleTree = Some File.
Proof.
  assert (H : result (findVideoFile workingEnv ["a"] exampleTree)
              = Normal (Some ["a"; "video.mp4"])) by (vm_compute; reflexivity).
  split; [exact H|].
  destruct (found_video_is_listed workingEnv ["a"] exampleTree _ H)
    as (sub & f & es & _ & _ & _ & _ & _ & Hfile).
  exact (Hfile eq_refl).
Defined.


(** X7.  When no listing raises and the names in every directory are
    distinct, [findVideoFile] returns [null] exactly when the tree below
    the directory holds no regular file whose name ends in [.mp4]. *)
Theorem video_found_iff_present env dir d n :
  (forall q, faults env OpReaddir q = None) ->
  Fs.lookup dir d = Some n ->
  uniqueNames n = true ->
  (result (findVideoFile env dir d) = Normal None <-> countVideos n = 0).
Proof.
  intros Hf Hl Hu. split; [|by apply find_nothing].
  intros Hres. destruct (Nat.eq_dec (countVideos n) 0) as [|Hc]; [done|].
  destruct (findVideoFile_complete env d Hf _ dir n (le_n _) Hl Hu Hc) as [p Hp].
  congruence.
Qed.

Lemma video_found_iff_present_witness :
  Fs.lookup ["a"] exampleTree
  = Some (Dir [ ("b", Dir [ ("out.mp4", File) ]); ("video.mp4", File) ])
  /\ (result (findVideoFile workingEnv ["a"] exampleTree) = Normal None
      <-> countVideos (Dir [ ("b", Dir [ ("out.mp4", File) ]); ("video.mp4", File) ]) = 0).
Proof.
  split; [reflexivity|].
  exact (video_found_iff_present workingEnv ["a"] exampleTree _
           (fun _ => eq_refl) eq_refl eq_refl).
Defined.


(** ** The processes of a request *)

Lemma url_of_path id fileName :
  "/videos/" +:+ id +:+ "/" +:+ fileName
  = "/" +:+ path_str (videosDir ++ [id; fileName]).
Proof. reflexivity. Qed.

(** The [try] block of the ['close'] handler: the muxer is the only
    process, and the answer after it is the success answer. *)
Lemma publish_processes env dir file id out err d :
  let r := publish env dir file id out err d in
  (processes (events r) = []
   /\ forall resp, result r = Normal resp -> status resp = 500)
  \/ (exists video o,
        result (findVideoFile env dir d) = Normal (Some video)
        /\ let final := videosDir ++ [id; publishedName video] in
           processes (events r)
           = [Spawned "ffmpeg" (ffmpegArgs video file final) None o]
           /\ forall resp, result r = Normal resp ->
                exitedZero o
                /\ resp = {| status := 200;
                             body := [("videoUrl", "/" +:+ path_str final)] |}).
Proof.
  cbv zeta. remember (publish env dir file id out err d) as r eqn:Hr.
  unfold publish in Hr.
  destruct (findVideoFile_returns env dir d) as [v Hv].
  rewrite (bind_normal _ _ _ _ Hv), readonly_findVideoFile in Hr.
  pose proof (emits_findVideoFile env dir d) as Hlogf.
  set (evf := events (findVideoFile env dir d)) in *. clearbody evf.
  destruct v as [vp|].
  - cbv zeta in Hr. unfold console_log at 1 in Hr. rewrite bind_emit in Hr.
    set (final := (videosDir ++ [id])
                  ++ [Js.replaceFirst ".mp4" (basename vp) +:+ "_with_audio.mp4"]) in *.
    destruct (result (mkdirSync env (videosDir ++ [id]) d)) as [[]|e] eqn:Em.
    + rewrite (bind_normal _ _ _ _ Em), events_mkdirSync in Hr.
      set (d1 := disk_after (mkdirSync env (videosDir ++ [id]) d)) in *. clearbody d1.
      destruct (combine_cases env vp file final d1) as (outcome & ev & Hev & Hlog & Hres).
      cbv zeta in Hev, Hlog, Hres.
      right. exists vp, outcome. split; [exact Hv|].
      change (videosDir ++ [id; publishedName vp]) with final.
      destruct (result (combineVideoAndAudio env vp file final d1)) as [p|m] eqn:Ec.
      * rewrite (bind_normal _ _ _ _ Ec), Hev in Hr.
        unfold console_log at 1 in Hr. rewrite bind_emit in Hr.
        set (d2 := disk_after (combineVideoAndAudio env vp file final d1)) in *.
        clearbody d2.
        destruct (publish_tail env dir file "Cleaned up temporary files" 200
                    [("videoUrl", "/videos/" +:+ id +:+ "/"
                        +:+ Js.replaceFirst ".mp4" (basename vp) +:+ "_with_audio.mp4")] d2)
          as (Htl & _ & Htr).
        cbv zeta in Htl, Htr.
        match type of Htl with Forall _ (events ?t) => set (tl := t) in * end.
        clearbody tl. subst r. cbn [after_events result disk_after events app].
        split.
        -- rewrite processes_app, (processes_logs _ Hlogf).
           change (processes (Log ("Found video file at: " +:+ path_str vp)
                     :: Spawned "ffmpeg" (ffmpegArgs vp file final) None outcome
                     :: ev ++ Log ("Video with audio successfully generated and available at: "
                                   +:+ "/videos/" +:+ id +:+ "/"
                                   +:+ Js.replaceFirst ".mp4" (basename vp)
                                   +:+ "_with_audio.mp4") :: events tl))
             with (Spawned "ffmpeg" (ffmpegArgs vp file final) None outcome
                     :: processes (ev ++ Log ("Video with audio successfully generated and available at: "
                                   +:+ "/videos/" +:+ id +:+ "/"
                                   +:+ Js.replaceFirst ".mp4" (basename vp)
                                   +:+ "_with_audio.mp4") :: events tl)).
           rewrite processes_logs; [reflexivity|].
           apply Forall_app. split; [exact Hlog|]. constructor; [exact I|exact Htl].
        -- intros resp Hresp. rewrite (Htr _ Hresp). split; [|reflexivity].
           destruct outcome as [m|c o e']; [discriminate|].
           destruct (isZero c) eqn:Ez; [by apply exitedZero_closed|discriminate].
      * rewrite (bind_throw _ _ _ _ Ec), Hev in Hr.
        subst r. cbn [after_events result disk_after events app].
        split; [|intros; discriminate].
        rewrite processes_app, (processes_logs _ Hlogf).
        change (processes (Log ("Found video file at: " +:+ path_str vp)
                  :: Spawned "ffmpeg" (ffmpegArgs vp file final) None outcome :: ev))
          with (Spawned "ffmpeg" (ffmpegArgs vp file final) None outcome :: processes ev).
        by rewrite (processes_logs _ Hlog).
    + rewrite (bind_throw _ _ _ _ Em), events_mkdirSync in Hr.
      subst r. cbn [after_events result disk_after events app].
      left. split; [|intros; discriminate].
      rewrite processes_app, (processes_logs _ Hlogf). reflexivity.
  - unfold console_error at 1 in Hr. rewrite bind_emit in Hr.
    destruct (answer_run env (Some dir) (Some file) 500
                [ ("error", "No video file generated");
                  ("output", out); ("errorOutput", err) ] d)
      as (Hlog & _ & _ & Hresp).
    cbv zeta in Hlog, Hresp.
    match type of Hlog with Forall _ (events ?t) => set (tl := t) in * end.
    clearbody tl. subst r. cbn [after_events result disk_after events].
    left. split.
    + apply processes_logs, Forall_app. split; [exact Hlogf|].
      constructor; [exact I|exact Hlog].
    + intros resp Hr. by rewrite (Hresp _ Hr).
Qed.

(** The ['close'] handler of the renderer: the muxer is its only process,
    and it is started only after an exit with code 0. *)
Lemma onManimClose_processes env dir file id code out err d :
  let r := onManimClose env dir file id code out err d in
  (processes (events r) = []
   /\ forall resp, result r = Normal resp -> status resp = 500)
  \/ (exists video o,
        isZero code = true
        /\ result (findVideoFile env dir d) = Normal (Some video)
        /\ let final := videosDir ++ [id; publishedName video] in
           processes (events r)
           = [Spawned "ffmpeg" (ffmpegArgs video file final) None o]
           /\ forall resp, result r = Normal resp ->
                status resp = 500
                \/ (exitedZero o
                    /\ resp = {| status := 200;
                                 body := [("videoUrl", "/" +:+ path_str final)] |})).
Proof.
  cbv zeta. remember (onManimClose env dir file id code out err d) as r eqn:Hr.
  unfold onManimClose in Hr. unfold console_log at 1 in Hr. rewrite bind_emit in Hr.
  destruct (isZero code) eqn:Ez; cbn [negb] in Hr.
  - destruct (result (publish env dir file id out err d)) as [resp|e] eqn:Ep.
    + rewrite (try_catch_normal _ _ _ _ Ep) in Hr. subst r.
      cbn [after_events result disk_after events app]. rewrite Ep.
      change (processes (?l :: ?x)) with (processes x).
      destruct (publish_processes env dir file id out err d)
        as [[Hp Hs]|(video & o & Hv & Hp & Hs)]; cbv zeta in *.
      * left. split; [exact Hp|]. intros resp' [= <-]. by apply Hs.
      * right. exists video, o. do 2 (split; [done|]). split; [exact Hp|].
        intros resp' [= <-]. right. by apply Hs.
    + rewrite (try_catch_throw _ _ _ _ Ep) in Hr.
      unfold console_error at 1 in Hr. rewrite bind_emit in Hr.
      destruct (answer_run env (Some dir) (Some file) 500
                  [ ("error", "Error processing generated video with audio");
                    ("details", e); ("output", out); ("errorOutput", err) ]
                  (disk_after (publish env dir file id out err d)))
        as (Hlog & _ & _ & Hr').
      cbv zeta in Hlog, Hr'.
      match type of Hlog with Forall _ (events ?t) => set (tl := t) in * end.
      clearbody tl. subst r. cbn [after_events result disk_after events app].
      assert (Htail : forall l,
                processes (l :: events (publish env dir file id out err d)
                           ++ LogError ("Error processing video/audio combination: " +:+ e)
                              :: events tl)
                = processes [l] ++ processes (events (publish env dir file id out err d))).
      { intros l. change (l :: ?x ++ ?y) with ([l] ++ x ++ y).
        rewrite !processes_app, (processes_logs (_ :: events tl)), app_nil_r; [done|].
        constructor; [exact I|exact Hlog]. }
      rewrite Htail. cbn [processes List.filter isSpawn app].
      destruct (publish_processes env dir file id out err d)
        as [[Hp Hs]|(video & o & Hv & Hp & Hs)]; cbv zeta in *.
      * left. split; [exact Hp|]. intros resp Hres. by rewrite (Hr' _ Hres).
      * right. exists video, o. do 2 (split; [done|]). split; [exact Hp|].
        intros resp Hres. left. by rewrite (Hr' _ Hres).
  - unfold console_error at 1 in Hr. rewrite bind_emit in Hr.
    unfold console_error at 1 in Hr. rewrite bind_emit in Hr.
    destruct (answer_run env (Some dir) (Some file) 500
                [ ("error", "Manim failed with code " +:+ showCode code);
                  ("output", out); ("errorOutput", err) ] d)
      as (Hlog & _ & _ & Hr').
    cbv zeta in Hlog, Hr'.
    match type of Hlog with Forall _ (events ?t) => set (tl := t) in * end.
    clearbody tl. subst r. cbn [after_events result disk_after events app].
    left. split.
    + apply processes_logs. do 3 (constructor; [exact I|]). exact Hlog.
    + intros resp Hres. by rewrite (Hr' _ Hres).
Qed.

Lemma outerCatch_processes env rd af e d :
  processes (events (outerCatch env rd af e d)) = []
  /\ forall resp, result (outerCatch env rd af e d) = Normal resp ->
       resp = {| status := 500;
                 body := [ ("error", "Failed to generate animation with audio");
                           ("details", e) ] |}.
Proof.
  destruct (outerCatch_run env rd af e d) as (Hlog & _ & _ & Hresp).
  split; [by apply processes_logs|exact Hresp].
Qed.

Lemma onManimError_processes env dir file message d :
  processes (events (onManimError env dir file message d)) = []
  /\ forall resp, result (onManimError env dir file message d) = Normal resp ->
       status resp = 500.
Proof.
  destruct (onManimError_run env dir file message d) as (Hlog & _ & Hresp).
  split; [by apply processes_logs|]. intros resp H. by rewrite (Hresp _ H).
Qed.

(** The runs of the handler, with the processes of each stretch. *)
Lemma getAnimation_trace env approach d :
  let r := getAnimation env (Some approach) d in
  let id := uuidv4 env in
  let dir := rendersDir ++ [id] in
  let file := audioFileOf id in
  (exists e ev,
     r = after_events ev (outerCatch env None None e d)
     /\ processes ev = [])
  \/ (exists e ev d2,
        r = after_events ev (outerCatch env (Some dir) None e d2)
        /\ (processes ev = [] \/ exists o, processes ev = [speechEvent id o]))
  \/ (exists ev d3 o o1,
        r = after_events (ev ++ [Spawned "python" manimArgs (Some dir) o])
              match o with
              | Closed code out err => onManimClose env dir file id code out err d3
              | SpawnError message => onManimError env dir file message d3
              end
        /\ processes ev = [speechEvent id o1]
        /\ exitedZero o1).
Proof.
  cbv zeta. unfold getAnimation.
  match goal with |- context [guarded ?s ?h ?k d] => set (S1 := s); set (K1 := k) end.
  assert (H1 : readonly S1 /\ emits noProcess S1
               /\ forall steps script, result (S1 d) = Normal (steps, script) ->
                    fst script = uuidv4 env).
  { subst S1. split; [|split].
    - unfold readCode.
      repeat first [apply readonly_generateNarrationSteps
                   | apply readonly_generateManimScript | readonly_step].
    - unfold readCode.
      repeat first [apply emits_generateNarrationSteps
                   | apply emits_generateManimScript | emits_step].
    - intros steps script H.
      apply bind_inv_normal in H as (? & _ & H).
      apply bind_inv_normal in H as (? & _ & H).
      apply bind_inv_normal in H as (c & _ & H).
      apply bind_inv_normal in H as (steps0 & _ & H).
      apply bind_inv_normal in H as (script0 & Hs & H).
      cbn in H. injection H as _ <-. exact (generateManimScript_id _ _ _ _ _ Hs). }
  destruct H1 as (Hro1 & Hev1 & Hid).
  specialize (Hro1 d). specialize (Hev1 d). apply processes_none in Hev1. clearbody S1.
  destruct (result (S1 d)) as [[steps [sid content]]|e] eqn:E1.
  2:{ left. exists e, (events (S1 d)). rewrite (guarded_throw _ _ _ _ _ E1), Hro1. by split. }
  right. rewrite (guarded_normal _ _ _ _ _ E1), Hro1.
  specialize (Hid _ _ eq_refl). cbn [fst] in Hid. subst sid K1. cbv beta iota zeta.
  set (ev1 := events (S1 d)) in *. clearbody ev1. clear E1 Hro1.
  set (id := uuidv4 env) in *. set (dir := rendersDir ++ [id]).
  match goal with |- context [guarded ?s ?h ?k d] => set (S2 := s); set (K2 := k) end.
  assert (H2 : (processes (events (S2 d)) = [] /\ exists e, result (S2 d) = Throw e)
               \/ (exists o, processes (events (S2 d)) = [speechEvent id o]
                             /\ forall p, result (S2 d) = Normal p ->
                                  exitedZero o /\ p = audioFileOf id)).
  { subst S2.
    destruct (result (mkdirSync env dir d)) as [[]|e] eqn:Em.
    2:{ rewrite (bind_throw _ _ _ _ Em), events_mkdirSync. cbn. left. eauto. }
    rewrite (bind_normal _ _ _ _ Em), events_mkdirSync, after_events_nil.
    set (d1 := disk_after (mkdirSync env dir d)). clearbody d1.
    destruct (result (writeFileSync env (dir ++ ["animation.py"]) d1)) as [[]|e] eqn:Ew.
    2:{ rewrite (bind_throw _ _ _ _ Ew), events_writeFileSync. cbn. left. eauto. }
    rewrite (bind_normal _ _ _ _ Ew), events_writeFileSync, after_events_nil.
    destruct (generateAudio_processes env steps id
                (disk_after (writeFileSync env (dir ++ ["animation.py"]) d1)))
      as [H|(o & Hp & Hz)]; cbv zeta in *; [by left|].
    right. exists o. split; [exact Hp|]. intros p Hres.
    split; [by eapply Hz|by eapply generateAudio_resolves]. }
  clearbody S2.
  destruct (result (S2 d)) as [audioFilePath|e] eqn:E2.
  2:{ left. exists e, (ev1 ++ events (S2 d)), (disk_after (S2 d)).
      rewrite (guarded_throw _ _ _ _ _ E2), after_events_app.
      split; [reflexivity|]. rewrite processes_app, Hev1. cbn [app].
      destruct H2 as [[H _]|(o & H & _)]; [by left|right; eauto]. }
  right. rewrite (guarded_normal _ _ _ _ _ E2), after_events_app.
  destruct H2 as [[_ [e He]]|(o1 & Hp2 & Hz)]; [discriminate|].
  destruct (Hz _ eq_refl) as [Hz1 ->]. subst K2. cbv beta.
  set (d2 := disk_after (S2 d)). clearbody d2.
  assert (Hev12 : processes (ev1 ++ events (S2 d)) = [speechEvent id o1])
    by (by rewrite processes_app, Hev1).
  set (ev12 := ev1 ++ events (S2 d)) in *. clearbody ev12.
  clear Hz E2 Hp2 Hev1.
  match goal with |- context [guarded ?s ?h ?k d2] => set (S3 := s); set (K3 := k) end.
  set (o := fst (spawn env "python" manimArgs (Some dir) d2)).
  set (d3 := snd (spawn env "python" manimArgs (Some dir) d2)).
  assert (E3 : S3 d2 = {| result := Normal o; disk_after := d3;
                          events := [ Log ("Audio generated at: " +:+ path_str (audioFileOf id));
                                      Log ("Running Manim in directory: " +:+ path_str dir);
                                      Log ("Script path: " +:+ path_str (dir ++ ["animation.py"]));
                                      Spawned "python" manimArgs (Some dir) o ] |}).
  { subst S3. unfold console_log. rewrite !bind_emit, run_spawnProcess. reflexivity. }
  clearbody S3.
  rewrite (guarded_normal _ _ _ _ o) by (by rewrite E3).
  rewrite E3. cbn [result disk_after events]. rewrite after_events_app.
  exists (ev12 ++ [ Log ("Audio generated at: " +:+ path_str (audioFileOf id));
                    Log ("Running Manim in directory: " +:+ path_str dir);
                    Log ("Script path: " +:+ path_str (dir ++ ["animation.py"])) ]),
         d3, o, o1.
  split; [|split; [|exact Hz1]].
  - rewrite <- app_assoc. subst K3. cbv beta. by destruct o.
  - rewrite processes_app, Hev12. reflexivity.
Qed.

Lemma found_below env dir d p :
  result (findVideoFile env dir d) = Normal (Some p) ->
  exists sub fileName,
    p = dir ++ sub ++ [fileName] /\ Js.endsWith ".mp4" fileName = true.
Proof.
  intros Hres.
  destruct (Fs.lookup dir d) as [n|] eqn:Hl.
  2:{ rewrite find_missing in Hres by (unfold Fs.present; by rewrite Hl). discriminate. }
  destruct (findVideoFile_sound env d _ dir n p (le_n _) Hl Hres)
    as (sub & f & es & -> & _ & _ & He).
  eauto.
Qed.

(** X13.  The external processes of a request are, in this order and each
    at most once: the speech process, the renderer, the muxer.  The renderer
    is started only after the speech process exited with code 0, the muxer
    only after the renderer exited with code 0; the muxer reads a file
    below the working directory whose name ends in [.mp4] and
    [audio/<jobId>.wav], and writes into [videos/<jobId>]. *)
Theorem process_order env approach d :
  let r := getAnimation env (Some approach) d in
  let id := uuidv4 env in
  let dir := rendersDir ++ [id] in
  let speech := speechEvent id in
  let renderer := Spawned "python" manimArgs (Some dir) in
  processes (events r) = []
  \/ (exists o1, processes (events r) = [speech o1])
  \/ (exists o1 o2,
        exitedZero o1 /\ processes (events r) = [speech o1; renderer o2])
  \/ (exists o1 o2 o3 sub fileName,
        exitedZero o1 /\ exitedZero o2
        /\ Js.endsWith ".mp4" fileName = true
        /\ let video := dir ++ sub ++ [fileName] in
           processes (events r)
           = [speech o1; renderer o2;
              Spawned "ffmpeg"
                (ffmpegArgs video (audioFileOf id)
                   (videosDir ++ [id; publishedName video]))
                None o3]).
Proof.
  cbv zeta.
  destruct (getAnimation_trace env approach d)
    as [(e & ev & -> & Hev)|[(e & ev & d2 & -> & Hev)|(ev & d3 & o & o1 & -> & Hev & Hz1)]];
    cbn [after_events events].
  - left. rewrite processes_app, Hev.
    by destruct (outerCatch_processes env None None e d) as [-> _].
  - destruct (outerCatch_processes env (Some (rendersDir ++ [uuidv4 env])) None e d2)
      as [Hc _].
    rewrite processes_app, Hc, app_nil_r.
    destruct Hev as [->|[o ->]]; [by left|right; left; eauto].
  - right. right. rewrite !processes_app, Hev.
    change (processes [Spawned "python" manimArgs (Some (rendersDir ++ [uuidv4 env])) o])
      with [Spawned "python" manimArgs (Some (rendersDir ++ [uuidv4 env])) o].
    destruct o as [message|code out err].
    + destruct (onManimError_processes env (rendersDir ++ [uuidv4 env])
                  (audioFileOf (uuidv4 env)) message d3) as [-> _].
      left. exists o1, (SpawnError message). by split.
    + destruct (onManimClose_processes env (rendersDir ++ [uuidv4 env])
                  (audioFileOf (uuidv4 env)) (uuidv4 env) code out err d3)
        as [[-> _]|(video & o3 & Hz & Hv & -> & _)]; cbv zeta.
      * left. exists o1, (Closed code out err). by split.
      * right. destruct (found_below _ _ _ _ Hv) as (sub & f & -> & He).
        exists o1, (Closed code out err), o3, sub, f.
        split; [exact Hz1|]. split; [by apply exitedZero_closed|]. by split.
Qed.

(** X14.  A 200 answer of [POST /api/getAnimation] means that all three
    processes ran and exited with code 0, and its [videoUrl] is the path of
    the file the muxer was told to write, below [/videos/<jobId>/]. *)
Theorem success_answer env approach d resp :
  let r := getAnimation env (Some approach) d in
  let id := uuidv4 env in
  let dir := rendersDir ++ [id] in
  result r = Normal resp -> status resp = 200 ->
  exists o1 o2 o3 sub fileName,
    exitedZero o1 /\ exitedZero o2 /\ exitedZero o3
    /\ Js.endsWith ".mp4" fileName = true
    /\ let video := dir ++ sub ++ [fileName] in
       let final := videosDir ++ [id; publishedName video] in
       processes (events r)
       = [speechEvent id o1;
          Spawned "python" manimArgs (Some dir) o2;
          Spawned "ffmpeg" (ffmpegArgs video (audioFileOf id) final) None o3]
       /\ resp = {| status := 200;
                    body := [("videoUrl", "/" +:+ path_str final)] |}.
Proof.
  cbv zeta.
  destruct (getAnimation_trace env approach d)
    as [(e & ev & -> & Hev)|[(e & ev & d2 & -> & Hev)|(ev & d3 & o & o1 & -> & Hev & Hz1)]];
    cbn [after_events events result].
  - intros Hres. destruct (outerCatch_processes env None None e d) as [_ H].
    rewrite (H _ Hres). discriminate.
  - intros Hres.
    destruct (outerCatch_processes env (Some (rendersDir ++ [uuidv4 env])) None e d2)
      as [_ H].
    rewrite (H _ Hres). discriminate.
  - rewrite !processes_app, Hev.
    change (processes [Spawned "python" manimArgs (Some (rendersDir ++ [uuidv4 env])) o])
      with [Spawned "python" manimArgs (Some (rendersDir ++ [uuidv4 env])) o].
    destruct o as [message|code out err].
    + intros Hres H200.
      destruct (onManimError_processes env (rendersDir ++ [uuidv4 env])
                  (audioFileOf (uuidv4 env)) message d3) as [_ H].
      rewrite (H _ Hres) in H200. discriminate.
    + intros Hres H200.
      destruct (onManimClose_processes env (rendersDir ++ [uuidv4 env])
                  (audioFileOf (uuidv4 env)) (uuidv4 env) code out err d3)
        as [[_ H]|(video & o3 & Hz & Hv & Hp & H)]; cbv zeta in *.
      * rewrite (H _ Hres) in H200. discriminate.
      * destruct (H _ Hres) as [H500|[Hz3 ->]]; [congruence|].
        destruct (found_below _ _ _ _ Hv) as (sub & f & -> & He).
        exists o1, (Closed code out err), o3, sub, f.
        split; [exact Hz1|]. split; [by apply exitedZero_closed|].
        split; [exact Hz3|]. split; [exact He|]. rewrite Hp. by split.
Qed.

Lemma success_answer_witness :
  let r := getAnimation workingEnv (Some bubbleSort) disk0 in
  result r = Normal {| status := 200;
                       body := [("videoUrl",
                                 "/videos/job/AlgorithmDemo_with_audio.mp4")] |}
  /\ length (processes (events r)) = 3.
Proof.
  cbv zeta.
  assert (H : result (getAnimation workingEnv (Some bubbleSort) disk0)
              = Normal {| status := 200;
                          body := [("videoUrl",
                                    "/videos/job/AlgorithmDemo_with_audio.mp4")] |})
    by (vm_compute; reflexivity).
  split; [exact H|].
  destruct (success_answer workingEnv bubbleSort disk0 _ H eq_refl)
    as (o1 & o2 & o3 & sub & f & _ & _ & _ & _ & Hp & _).
  cbv zeta in Hp. rewrite Hp. reflexivity.
Defined.


(** ** Failures before the working directory exists *)

(** [generateNarrationSteps] resolves with the parsed, cleaned reply and
    rejects with the error of the model or of the parser. *)
Lemma generateNarrationSteps_result env code d :
  result (generateNarrationSteps env code d)
  = match generateContent env (NarrationPrompt code) with
    | Normal text => JSON_parse env (cleanJsonResponse text)
    | Throw e => Throw e
    end.
Proof.
  unfold generateNarrationSteps, askModel, parseSteps.
  rewrite result_try_catch, result_bind. unfold emit at 1. rewrite result_bind.
  cbn [result disk_after].
  destruct (generateContent env (NarrationPrompt code)) as [text|e]; cbn; [|done].
  by destruct (JSON_parse env (cleanJsonResponse text)).
Qed.

(** [generateManimScript] resolves with the job identifier and the cleaned
    reply, and rejects with the error of the model. *)
Lemma generateManimScript_result env code steps d :
  result (generateManimScript env code steps d)
  = match generateContent env (ManimPrompt steps code) with
    | Normal text => Normal (uuidv4 env, cleanPythonResponse text)
    | Throw e => Throw e
    end.
Proof.
  unfold generateManimScript, askModel.
  rewrite result_try_catch, result_bind. unfold emit at 1. rewrite result_bind.
  cbn [result disk_after].
  by destruct (generateContent env (ManimPrompt steps code)) as [text|e].
Qed.

(** X15.  When the model fails on the narration prompt, or its reply does
    not parse, or the model fails on the script prompt, the request is
    answered with 500 and the message of that error in [details], no
    process is started, the disk is unchanged and the error is logged. *)
Theorem model_failure env approach c d e :
  code approach = Some c ->
  let chosen := selectCode c in
  generateContent env (NarrationPrompt chosen) = Throw e
  \/ (exists text,
        generateContent env (NarrationPrompt chosen) = Normal text
        /\ JSON_parse env (cleanJsonResponse text) = Throw e)
  \/ (exists text steps,
        generateContent env (NarrationPrompt chosen) = Normal text
        /\ JSON_parse env (cleanJsonResponse text) = Normal steps
        /\ generateContent env (ManimPrompt steps chosen) = Throw e) ->
  let r := getAnimation env (Some approach) d in
  result r = Normal {| status := 500;
                       body := [ ("error", "Failed to generate animation with audio");
                                 ("details", e) ] |}
  /\ disk_after r = d
  /\ processes (events r) = []
  /\ In (LogError ("Error in /api/getAnimation: " +:+ e)) (events r).
Proof.
  intros Hc chosen H r. subst r chosen. unfold getAnimation.
  match goal with |- context [guarded ?s ?h ?k d] => set (S1 := s); set (K1 := k) end.
  assert (H1 : readonly S1 /\ emits noProcess S1 /\ result (S1 d) = Throw e).
  { subst S1. split; [|split].
    - unfold readCode.
      repeat first [apply readonly_generateNarrationSteps
                   | apply readonly_generateManimScript | readonly_step].
    - unfold readCode.
      repeat first [apply emits_generateNarrationSteps
                   | apply emits_generateManimScript | emits_step].
    - unfold console_log at 1 2. rewrite !bind_emit. cbn [after_events result].
      unfold readCode. rewrite Hc, result_bind. cbn [ret result disk_after].
      rewrite result_bind, generateNarrationSteps_result.
      destruct H as [->|[(text & -> & H2)|(text & steps & -> & H2 & H3)]]; [done|..];
        rewrite H2; [done|].
      rewrite result_bind, generateManimScript_result, H3. done. }
  clearbody S1 K1. destruct H1 as (Hro & Hnp & Hres).
  rewrite (guarded_throw _ _ _ _ _ Hres), (Hro d).
  cbn [after_events result disk_after events outerCatch cleanUp console_error
       emit bind json ret app].
  split; [reflexivity|]. split; [reflexivity|]. split.
  - rewrite processes_app, (processes_none _ (Hnp d)). reflexivity.
  - apply in_or_app. right. by left.
Qed.

Lemma model_failure_witness :
  result (getAnimation modelDown (Some bubbleSort) disk0)
  = Normal {| status := 500;
              body := [ ("error", "Failed to generate animation with audio");
                        ("details", "503 Service Unavailable") ] |}
  /\ disk_after (getAnimation modelDown (Some bubbleSort) disk0) = disk0.
Proof.
  destruct (model_failure modelDown bubbleSort _ disk0 "503 Service Unavailable"
              eq_refl (or_introl eq_refl)) as (Hr & Hd & _).
  split; [exact Hr|exact Hd].
Defined.


(** ** The analysis of a problem *)

Lemma readonly_generateApproaches {J} (g : Gemini J) question :
  readonly (generateApproaches g question).
Proof. unfold generateApproaches. repeat readonly_step. Qed.

(** [generateApproaches] resolves with the parsed, cleaned reply and
    rejects with the error of the model or of the parser. *)
Lemma generateApproaches_result {J} (g : Gemini J) question d :
  result (generateApproaches g question d)
  = match approachesReply g question with
    | Normal text => parseJSON g (cleanJsonResponse text)
    | Throw e => Throw e
    end.
Proof.
  unfold generateApproaches, console_log. rewrite bind_emit. cbn [after_events result].
  rewrite result_try_catch, result_bind.
  destruct (approachesReply g question) as [text|e]; cbn [ret throw result disk_after].
  - rewrite result_bind.
    destruct (parseJSON g (cleanJsonResponse text)); cbn [ret throw result disk_after];
      [|rewrite result_bind]; reflexivity.
  - rewrite result_bind. reflexivity.
Qed.

(** X11.  [POST /api/analyze] always answers and never touches the disk:
    400 for a falsy question, without any log; 200 with the question and
    the parsed, cleaned reply when the model replies and the reply parses;
    otherwise 500 with a fixed message that does not carry the error.  A
    reply fenced as [json] is parsed from its trimmed body. *)
Theorem analyze_answers {J} (g : Gemini J) question d :
  let r := analyze g question d in
  let failed := (500, AnalysisError "Failed to analyze problem") in
  disk_after r = d
  /\ result r
     = Normal (if negb (truthy question)
               then (400, AnalysisError "Question is required")
               else match approachesReply g question with
                    | Normal text =>
                        match parseJSON g (cleanJsonResponse text) with
                        | Normal approaches =>
                            (200, Analysis question "Problem Analysis" approaches)
                        | Throw _ => failed
                        end
                    | Throw _ => failed
                    end)
  /\ (truthy question = false -> events r = [])
  /\ (forall body,
        truthy question = true ->
        Js.includes fence body = false ->
        approachesReply g question
        = Normal (fence +:+ "json" +:+ Js.nl +:+ body +:+ Js.nl +:+ fence) ->
        result r
        = Normal match parseJSON g (Js.trim body) with
                 | Normal approaches =>
                     (200, Analysis question "Problem Analysis" approaches)
                 | Throw _ => failed
                 end).
Proof.
  cbv zeta.
  assert (Hrun : disk_after (analyze g question d) = d
    /\ result (analyze g question d)
       = Normal (if negb (truthy question)
                 then (400, AnalysisError "Question is required")
                 else match approachesReply g question with
                      | Normal text =>
                          match parseJSON g (cleanJsonResponse text) with
                          | Normal approaches =>
                              (200, Analysis question "Problem Analysis" approaches)
                          | Throw _ => (500, AnalysisError "Failed to analyze problem")
                          end
                      | Throw _ => (500, AnalysisError "Failed to analyze problem")
                      end)
    /\ (truthy question = false -> events (analyze g question d) = [])).
  { split; [|split].
    - revert d. change (readonly (analyze g question)). unfold analyze.
      repeat first [apply readonly_generateApproaches | readonly_step].
    - unfold analyze. rewrite result_try_catch.
      destruct (truthy question); cbn [negb]; [|reflexivity].
      rewrite result_bind, generateApproaches_result.
      destruct (approachesReply g question) as [text|e]; [|by rewrite result_bind].
      destruct (parseJSON g (cleanJsonResponse text)); [reflexivity|by rewrite result_bind].
    - intros Ht. unfold analyze. rewrite Ht. reflexivity. }
  destruct Hrun as (Hd & Hr & He). do 3 (split; [done|]).
  intros body Ht Hb Hreply. rewrite Hr, Ht, Hreply. cbn [negb].
  by rewrite (cleanJsonResponse_fenced body Hb).
Qed.

(** ** The directories of the server *)

Lemma set_entry_same x c es :
  Fs.entry x es = Some c -> Fs.set_entry x c es = es.
Proof.
  induction es as [|[y n] es IH]; [done|]. rewrite entry_cons. cbn [fst snd Fs.set_entry].
  destruct (String.eqb_spec y x) as [->|_]; [by intros [= ->]|].
  intros H. by rewrite IH.
Qed.

Lemma entry_set_entry x c z es :
  Fs.entry z (Fs.set_entry x c es)
  = if String.eqb x z then Some c else Fs.entry z es.
Proof.
  induction es as [|[y n] es IH]; cbn [Fs.set_entry fst snd].
  - rewrite entry_cons, entry_nil. reflexivity.
  - destruct (String.eqb_spec y x) as [->|Hyx].
    + rewrite !entry_cons. cbn [fst snd]. by destruct (String.eqb x z).
    + rewrite !entry_cons, IH. cbn [fst snd].
      destruct (String.eqb_spec y z) as [->|_]; [|done].
      destruct (String.eqb_spec x z) as [->|_]; [done|done].
Qed.

(** [mkdirSync] of a directory directly below the root: it succeeds unless
    the name is taken by something else, and adds at most an empty
    directory. *)
Lemma mkdirSync_run env p d :
  mkdirSync env p d
  = match faults env OpMkdir p with
    | Some e => {| result := Throw e; disk_after := d; events := [] |}
    | None =>
        match Fs.mkdirp p d with
        | Some d' => {| result := Normal tt; disk_after := d'; events := [] |}
        | None => {| result := Throw EEXIST; disk_after := d; events := [] |}
        end
    end.
Proof.
  unfold mkdirSync, checkFault, bind, getDisk.
  destruct (faults env OpMkdir p); [reflexivity|]. cbn [ret result disk_after events].
  by destruct (Fs.mkdirp p d).
Qed.

Lemma mkdirp_top x es :
  Fs.mkdirp [x] (Dir es)
  = match Fs.entry x es with
    | Some (Dir sub) => Some (Dir es)
    | Some _ => None
    | None => Some (Dir (Fs.set_entry x (Dir []) es))
    end.
Proof.
  cbn [Fs.mkdirp]. destruct (Fs.entry x es) as [[|sub|]|] eqn:E;
    cbn [default from_option id Fs.mkdirp]; try done.
  by rewrite (set_entry_same _ _ _ E).
Qed.

Lemma mkdirSync_top env x d :
  result (mkdirSync env [x] d) = Normal tt ->
  exists es,
    d = Dir es
    /\ ((exists sub, Fs.entry x es = Some (Dir sub) /\ disk_after (mkdirSync env [x] d) = d)
        \/ (Fs.entry x es = None
            /\ disk_after (mkdirSync env [x] d) = Dir (Fs.set_entry x (Dir []) es))).
Proof.
  rewrite mkdirSync_run. destruct (faults env OpMkdir [x]); [done|].
  destruct d as [|es|]; [done| |done]. rewrite mkdirp_top.
  destruct (Fs.entry x es) as [[|sub|]|] eqn:E; try done; intros _; exists es; split; try done.
  - left. by exists sub.
  - by right.
Qed.

Lemma lookup_set_entry_new x es q n :
  Fs.entry x es = None -> q <> [] ->
  Fs.lookup q (Dir es) = Some n ->
  Fs.lookup q (Dir (Fs.set_entry x (Dir []) es)) = Some n.
Proof.
  intros Hx Hq. destruct q as [|z q]; [done|]. cbn [Fs.lookup].
  rewrite entry_set_entry.
  destruct (String.eqb_spec x z) as [->|_]; [by rewrite Hx|done].
Qed.

Lemma mkdirSync_top_keeps env x d q n :
  result (mkdirSync env [x] d) = Normal tt ->
  q <> [] -> Fs.lookup q d = Some n ->
  Fs.lookup q (disk_after (mkdirSync env [x] d)) = Some n.
Proof.
  intros Hres Hq Hl.
  destruct (mkdirSync_top _ _ _ Hres) as (es & -> & [(sub & _ & ->)|(Hx & ->)]); [done|].
  by apply lookup_set_entry_new.
Qed.

Lemma mkdirSync_top_dir env x d :
  result (mkdirSync env [x] d) = Normal tt ->
  exists sub, Fs.lookup [x] (disk_after (mkdirSync env [x] d)) = Some (Dir sub).
Proof.
  intros Hres.
  destruct (mkdirSync_top _ _ _ Hres) as (es & -> & [(sub & Hx & ->)|(Hx & ->)]).
  - exists sub. cbn [Fs.lookup]. by rewrite Hx.
  - exists []. cbn [Fs.lookup]. by rewrite entry_set_entry, String.eqb_refl.
Qed.

(** A second [mkdirSync] of a directory that exists changes nothing. *)
Lemma mkdirSync_top_again env x d sub :
  faults env OpMkdir [x] = None ->
  Fs.lookup [x] d = Some (Dir sub) ->
  mkdirSync env [x] d = {| result := Normal tt; disk_after := d; events := [] |}.
Proof.
  intros Hf Hl. rewrite mkdirSync_run, Hf.
  destruct d as [|es|]; try done. cbn [Fs.lookup] in Hl. rewrite mkdirp_top.
  destruct (Fs.entry x es) as [c|] eqn:E; [|done]. by injection Hl as ->.
Qed.

Lemma mkdirSync_fault env p d :
  result (mkdirSync env p d) = Normal tt -> faults env OpMkdir p = None.
Proof. rewrite mkdirSync_run. by destruct (faults env OpMkdir p). Qed.

(** X12.  When the three [mkdirSync] calls at the start of the server
    succeed, [renders], [videos] and [audio] are directories, everything
    that was on the disk is still there unchanged, and running the calls
    again changes nothing. *)
Theorem createDirectories_keeps env d :
  let r := createDirectories env d in
  result r = Normal tt ->
  (forall dir, In dir [rendersDir; videosDir; audioDir] ->
     exists sub, Fs.lookup dir (disk_after r) = Some (Dir sub))
  /\ (forall q n, q <> [] -> Fs.lookup q d = Some n ->
        Fs.lookup q (disk_after r) = Some n)
  /\ createDirectories env (disk_after r)
     = {| result := Normal tt; disk_after := disk_after r; events := [] |}.
Proof.
  cbv zeta. unfold createDirectories, rendersDir, videosDir, audioDir. intros Hres.
  apply bind_inv_normal in Hres as ([] & H1 & Hres).
  apply bind_inv_normal in Hres as ([] & H2 & H3).
  rewrite (bind_normal _ _ _ _ H1), events_mkdirSync, after_events_nil.
  set (d1 := disk_after (mkdirSync env ["renders"] d)) in *.
  rewrite (bind_normal _ _ _ _ H2), events_mkdirSync, after_events_nil.
  set (d2 := disk_after (mkdirSync env ["videos"] d1)) in *.
  set (d3 := disk_after (mkdirSync env ["audio"] d2)) in *.
  destruct (mkdirSync_top_dir _ _ _ H1) as [s1 Hs1]. fold d1 in Hs1.
  destruct (mkdirSync_top_dir _ _ _ H2) as [s2 Hs2]. fold d2 in Hs2.
  destruct (mkdirSync_top_dir _ _ _ H3) as [s3 Hs3]. fold d3 in Hs3.
  assert (Hk : forall q n, q <> [] -> Fs.lookup q d = Some n -> Fs.lookup q d3 = Some n).
  { intros q n Hq Hl. apply (mkdirSync_top_keeps _ _ _ _ _ H3 Hq).
    apply (mkdirSync_top_keeps _ _ _ _ _ H2 Hq).
    by apply (mkdirSync_top_keeps _ _ _ _ _ H1 Hq). }
  assert (Hr3 : Fs.lookup ["renders"] d3 = Some (Dir s1)).
  { apply (mkdirSync_top_keeps _ _ _ _ _ H3); [done|].
    by apply (mkdirSync_top_keeps _ _ _ _ _ H2). }
  assert (Hv3 : Fs.lookup ["videos"] d3 = Some (Dir s2))
    by (by apply (mkdirSync_top_keeps _ _ _ _ _ H3)).
  split; [|split; [exact Hk|]].
  - intros dir [<-|[<-|[<-|[]]]]; eauto.
  - rewrite (bind_normal _ _ d3 tt)
      by (by rewrite (mkdirSync_top_again _ _ _ _ (mkdirSync_fault _ _ _ H1) Hr3)).
    rewrite (mkdirSync_top_again _ _ _ _ (mkdirSync_fault _ _ _ H1) Hr3).
    cbn [after_events result disk_after events app].
    rewrite (bind_normal _ _ d3 tt)
      by (by rewrite (mkdirSync_top_again _ _ _ _ (mkdirSync_fault _ _ _ H2) Hv3)).
    rewrite (mkdirSync_top_again _ _ _ _ (mkdirSync_fault _ _ _ H2) Hv3).
    cbn [after_events result disk_after events app].
    by rewrite (mkdirSync_top_again _ _ _ _ (mkdirSync_fault _ _ _ H3) Hs3).
Qed.

Lemma createDirectories_keeps_witness :
  result (createDirectories workingEnv publishedDisk) = Normal tt
  /\ Fs.lookup ["videos"; "notes.txt"]
       (disk_after (createDirectories workingEnv publishedDisk)) = Some File.
Proof.
  assert (H : result (createDirectories workingEnv publishedDisk) = Normal tt)
    by reflexivity.
  split; [exact H|].
  destruct (createDirectories_keeps workingEnv publishedDisk H) as (_ & Hk & _).
  apply Hk; [discriminate|reflexivity].
Defined.


(** ** The published name *)

Lemma startsWith_before_extension s b :
  s <> "" ->
  Js.startsWith ".mp4" (s +:+ ".mp4" +:+ b) = Js.startsWith ".mp4" s.
Proof.
  intros Hs.
  destruct s as [|a1 [|a2 [|a3 [|a4 s]]]]; [done|..];
    cbn; repeat (match goal with |- context [Ascii.eqb ?x ?y] =>
                destruct (Ascii.eqb x y) eqn:? end); try reflexivity; try discriminate.
Qed.

(** [replace('.mp4', '')] removes the first [.mp4] of a name. *)
Lemma replaceFirst_first a b :
  Js.includes ".mp4" a = false ->
  Js.replaceFirst ".mp4" (a +:+ ".mp4" +:+ b) = a +:+ b.
Proof.
  induction a as [|c a IH]; [reflexivity|].
  intros H. specialize (IH (includes_tail _ _ _ H)).
  pose proof (includes_head _ _ H) as Hh.
  rewrite <- (startsWith_before_extension _ b) in Hh by done.
  rewrite !app_cons in *.
  cbn [Js.replaceFirst]. rewrite Hh. by f_equal.
Qed.

Lemma basename_last dir fileName : basename (dir ++ [fileName]) = fileName.
Proof. unfold basename. apply last_last. Qed.

(** X16.  The name under which a located video is published is its file
    name without its first [.mp4], followed by [_with_audio.mp4]; for a name
    that holds [.mp4] only as its extension this is the base name followed
    by [_with_audio.mp4]. *)
Theorem published_name dir a b :
  Js.includes ".mp4" a = false ->
  publishedName (dir ++ [a +:+ ".mp4" +:+ b]) = a +:+ b +:+ "_with_audio.mp4"
  /\ publishedName (dir ++ [a +:+ ".mp4"]) = a +:+ "_with_audio.mp4".
Proof.
  intros H. unfold publishedName. rewrite !basename_last. split.
  - rewrite (replaceFirst_first _ _ H). apply app_assoc'.
  - by rewrite (replaceFirst_extension _ H).
Qed.

Lemma published_name_witness :
  publishedName ["renders"; "job"; "clip.mp4.bak.mp4"] = "clip.bak.mp4_with_audio.mp4"
  /\ publishedName ["renders"; "job"; "AlgorithmDemo.mp4"]
     = "AlgorithmDemo_with_audio.mp4".
Proof.
  split.
  - exact (proj1 (published_name ["renders"; "job"] "clip" ".bak.mp4" eq_refl)).
  - exact (proj2 (published_name ["renders"; "job"] "AlgorithmDemo" "" eq_refl)).
Defined.
